(** * hook-chain: the chain execution engine, the patch merge and the
      envelope codec

    A shallow embedding of
    - [internal/hook/types.go]      (Input, Output and their JSON codec),
    - [internal/config/config.go]   (HookEntry, EffectiveOnError),
    - [internal/audit/audit.go]     (ChainExecution, HookResult, TruncateStderr),
    - [internal/pipeline]           (shallowMergeJSON, Run, recordAudit, ...),
    - [internal/pathutil], [internal/runner], [internal/cli]
                                    (ExpandTilde, ProcessRunner.Run, parseDuration,
                                     runRoot),
    followed by the properties of the engine.

    Go's [encoding/json], [fmt] and [strconv] are not part of the repository.
    They are modelled by their documented behaviour on JSON documents:
    a byte slice holding JSON text is represented by the document it spells
    (constructor [Doc]), text that [encoding/json] rejects by [Malformed],
    and the two zero-length slices by [Nil] and [Empty].  White space between
    tokens and the spelling of string escapes are therefore not visible;
    member order and repeated keys of objects are.  Strings are text that the
    encoder writes and the decoder reads back unchanged (valid UTF-8).
    Wall-clock readings (the DurationMs of the audit records) and the log
    lines written to standard error are left out. *)

From Stdlib Require Import ZArith String Ascii List Bool Lia.
From stdpp Require Import base option list strings gmap pretty sorting.

Local Open Scope string_scope.
Local Open Scope Z_scope.
Local Open Scope list_scope.

(** ** JSON documents *)

Module Json.

Unset Elimination Schemes.
Inductive json : Type :=
| JNull
| JBool (b : bool)
| JNum (lit : string)               (* the literal as written, e.g. 1.50 *)
| JStr (s : string)
| JArr (items : list json)
| JObj (members : list (string * json)).
Set Elimination Schemes.

(** Induction that reaches below arrays and objects. *)
Definition json_deep_ind (P : json -> Prop)
    (Hnull : P JNull) (Hbool : forall b, P (JBool b))
    (Hnum : forall l, P (JNum l)) (Hstr : forall s, P (JStr s))
    (Harr : forall items, Forall P items -> P (JArr items))
    (Hobj : forall members, Forall (fun kv => P (snd kv)) members -> P (JObj members)) :
  forall v, P v :=
  fix go (v : json) : P v :=
    match v with
    | JNull => Hnull
    | JBool b => Hbool b
    | JNum l => Hnum l
    | JStr s => Hstr s
    | JArr items =>
        Harr items
          ((fix all (l : list json) : Forall P l :=
              match l with
              | [] => @List.Forall_nil _ P
              | x :: l' => @List.Forall_cons _ P x l' (go x) (all l')
              end) items)
    | JObj members =>
        Hobj members
          ((fix all (l : list (string * json)) : Forall (fun kv => P (snd kv)) l :=
              match l with
              | [] => @List.Forall_nil _ _
              | kv :: l' => @List.Forall_cons _ _ kv l' (go (snd kv)) (all l')
              end) members)
    end.

Fixpoint json_eqb (a b : json) : bool :=
  match a, b with
  | JNull, JNull => true
  | JBool x, JBool y => Bool.eqb x y
  | JNum x, JNum y => String.eqb x y
  | JStr x, JStr y => String.eqb x y
  | JArr xs, JArr ys =>
      (fix all (xs ys : list json) : bool :=
         match xs, ys with
         | [], [] => true
         | x :: xs', y :: ys' => json_eqb x y && all xs' ys'
         | _, _ => false
         end) xs ys
  | JObj xs, JObj ys =>
      (fix all (xs ys : list (string * json)) : bool :=
         match xs, ys with
         | [], [] => true
         | kx :: xs', ky :: ys' =>
             String.eqb (fst kx) (fst ky) && json_eqb (snd kx) (snd ky) && all xs' ys'
         | _, _ => false
         end) xs ys
  | _, _ => false
  end.

Lemma json_eqb_eq (a b : json) : json_eqb a b = true <-> a = b.
Proof.
  revert b. induction a as [|x|x|x|xs IH|xs IH] using json_deep_ind; intros [|y|y|y|ys|ys]; simpl;
    try (split; [discriminate | congruence]); try (split; congruence).
  - rewrite Bool.eqb_true_iff. split; congruence.
  - rewrite String.eqb_eq. split; congruence.
  - rewrite String.eqb_eq. split; congruence.
  - revert ys. induction IH as [|x xs Hx _ IHxs]; intros [|y ys];
      try (split; [discriminate | congruence]); try (split; congruence).
    rewrite andb_true_iff, Hx, IHxs. split.
    + intros [-> H]. congruence.
    + intros H. injection H as -> ->. done.
  - revert ys. induction IH as [|[k x] xs Hx _ IHxs]; intros [|[l y] ys];
      try (split; [discriminate | congruence]); try (split; congruence).
    simpl in *. rewrite !andb_true_iff, String.eqb_eq, Hx, IHxs. split.
    + intros [[-> ->] H]. congruence.
    + intros H. injection H as -> -> ->. done.
Qed.

#[export] Instance json_eq_dec : EqDecision json.
Proof.
  intros a b. destruct (json_eqb a b) eqn:E.
  - left. by apply json_eqb_eq.
  - right. intros H. apply json_eqb_eq in H. congruence.
Defined.

(** The member of an object that a Go map, or a decoder that overwrites,
    ends up with: the last one with that key. *)
Fixpoint lookup_last {A : Type} (k : string) (ms : list (string * A)) : option A :=
  match ms with
  | [] => None
  | (k', v) :: rest =>
      match lookup_last k rest with
      | Some w => Some w
      | None => if decide (k' = k) then Some v else None
      end
  end.

End Json.
Export Json.

(** ** Byte slices, errors and the library functions taken as given *)

Module GoJson.

(** A []byte or json.RawMessage, by what [encoding/json] reads in it. *)
Inductive RawMessage : Type :=
| Nil                          (* the nil slice *)
| Empty                        (* a slice of length 0 that is not nil *)
| Malformed (text : string)    (* bytes that are not a JSON text *)
| Doc (v : json).              (* a JSON text spelling [v] *)

#[export] Instance RawMessage_eq_dec : EqDecision RawMessage.
Proof. solve_decision. Defined.

(** len(b) == 0 *)
Definition len_zero (b : RawMessage) : bool :=
  match b with
  | Nil | Empty => true
  | Malformed _ | Doc _ => false
  end.

(** bytes.Equal, on slices that are either the same text or both produced by
    json.Marshal (whose output is determined by the document). *)
Definition bytes_Equal (a b : RawMessage) : bool :=
  match a, b with
  | (Nil | Empty), (Nil | Empty) => true
  | Malformed s, Malformed t => bool_decide (s = t)
  | Doc v, Doc w => bool_decide (v = w)
  | _, _ => false
  end.

Inductive json_error : Type :=
| SyntaxError (text : string)                        (* the rejected text *)
| UnmarshalTypeError (value : string) (target : string).

Inductive error : Type :=
| JsonError (e : json_error)
| MarshalerError (gotype : string) (e : json_error)
| Wrapped (context : string) (cause : error)         (* fmt.Errorf("context: %w", cause) *)
| Failure (msg : string).                            (* an error of a collaborator *)

(** What the Go library computes and this development does not spell out:
    - [strconv_Quote s] is the Go-quoted form of [s] (the verb %q);
    - [float64] stands for the values of the Go type float64 that a number
      literal can be read as, [ParseFloat l] is the value the decoder reads in
      the literal [l] (strconv.ParseFloat), none when the literal is beyond
      the range of float64, which the decoder reports as an error, and
      [FormatFloat x] is the literal the encoder writes for [x];
    - [json_error_text e] is the message of an [encoding/json] error. *)
Record GoLib : Type := {
  strconv_Quote : string -> string;
  float64 : Type;
  ParseFloat : string -> option float64;
  FormatFloat : float64 -> string;
  json_error_text : json_error -> string;
}.

(** err.Error() *)
Fixpoint Error (lib : GoLib) (e : error) : string :=
  match e with
  | JsonError j => json_error_text lib j
  | MarshalerError ty j =>
      "json: error calling MarshalJSON for type " +:+ ty +:+ ": " +:+ json_error_text lib j
  | Wrapped ctx cause => ctx +:+ ": " +:+ Error lib cause
  | Failure msg => msg
  end.

(** A Go result pair (value, error). *)
Inductive res (A : Type) : Type :=
| Ok (a : A)
| Err (e : error).
Arguments Ok {A} a.
Arguments Err {A} e.

#[export] Instance res_ret : MRet res := fun A a => Ok a.
#[export] Instance res_bind : MBind res := fun A B f m =>
  match m with
  | Ok a => f a
  | Err e => Err e
  end.

(** A Go call that may also panic. *)
Inductive exec (A : Type) : Type :=
| Done (a : A)
| Panic (msg : string).
Arguments Done {A} a.
Arguments Panic {A} msg.

(** The name encoding/json gives a value's kind in an UnmarshalTypeError. *)
Definition kind (v : json) : string :=
  match v with
  | JNull => "null"
  | JBool _ => "bool"
  | JNum _ => "number"
  | JStr _ => "string"
  | JArr _ => "array"
  | JObj _ => "object"
  end.

Definition syntax_error {A} (data : RawMessage) : res A :=
  match data with
  | Malformed t => Err (JsonError (SyntaxError t))
  | _ => Err (JsonError (SyntaxError ""))
  end.

Definition type_error {A} (v : json) (target : string) : res A :=
  Err (JsonError (UnmarshalTypeError (kind v) target)).

(** *** Go maps: [None] is the nil map *)

Abbreviation GoMap := (option (gmap string RawMessage)).

(** v, ok := m[k] *)
Definition map_get (m : GoMap) (k : string) : option RawMessage :=
  match m with
  | None => None
  | Some g => g !! k
  end.

(** m[k] = v, which panics on the nil map ([None] result). *)
Definition map_assign (m : GoMap) (k : string) (v : RawMessage) : option GoMap :=
  match m with
  | None => None
  | Some g => Some (Some (<[k := v]> g))
  end.

Definition entries (m : GoMap) : gmap string RawMessage := default ∅ m.

(** json.Unmarshal(data, &m) for a nil m of type map[string]json.RawMessage:
    null leaves the map nil, an object stores the text of each member's value
    under its key, later members replacing earlier ones. *)
Definition members_to_map (ms : list (string * json)) : gmap string RawMessage :=
  foldl (fun g kv => <[fst kv := Doc (snd kv)]> g) ∅ ms.

Definition Unmarshal_map (data : RawMessage) : res GoMap :=
  match data with
  | Doc JNull => Ok None
  | Doc (JObj ms) => Ok (Some (members_to_map ms))
  | Doc v => type_error v "map[string]json.RawMessage"
  | _ => syntax_error data
  end.

(** json.Unmarshal(data, &s) for a string s: null leaves s as it is. *)
Definition decode_string (target : string) (cur : string) (v : json) : res string :=
  match v with
  | JStr s => Ok s
  | JNull => Ok cur
  | _ => type_error v target
  end.

Definition Unmarshal_string (cur : string) (data : RawMessage) : res string :=
  match data with
  | Doc v => decode_string "string" cur v
  | _ => syntax_error data
  end.

(** A *bool field: null sets the pointer to nil. *)
Definition decode_bool_ptr (v : json) : res (option bool) :=
  match v with
  | JBool b => Ok (Some b)
  | JNull => Ok None
  | _ => type_error v "bool"
  end.

(** json.RawMessage as a marshaler: nil prints null; any other slice is
    checked and compacted by the encoder. *)
Definition marshal_raw (m : RawMessage) : res json :=
  match m with
  | Nil => Ok JNull
  | Doc v => Ok v
  | Empty => Err (MarshalerError "json.RawMessage" (SyntaxError ""))
  | Malformed t => Err (MarshalerError "json.RawMessage" (SyntaxError t))
  end.

(** json.Marshal of a map writes the keys in increasing order. *)
Definition key_le {A : Type} (a b : string * A) : Prop :=
  String.leb (fst a) (fst b) = true.

#[export] Instance key_le_dec {A : Type} (a b : string * A) : Decision (key_le a b).
Proof. unfold key_le. apply _. Defined.

Definition sorted_entries {A : Type} (g : gmap string A) : list (string * A) :=
  merge_sort key_le (map_to_list g).

Fixpoint marshal_members (es : list (string * RawMessage)) : res (list (string * json)) :=
  match es with
  | [] => Ok []
  | (k, m) :: rest =>
      v ← marshal_raw m;
      vs ← marshal_members rest;
      Ok ((k, v) :: vs)
  end.

Definition Marshal_map (m : GoMap) : res RawMessage :=
  match m with
  | None => Ok (Doc JNull)
  | Some g => ms ← marshal_members (sorted_entries g); Ok (Doc (JObj ms))
  end.

(** Struct fields are found by name, exactly or under case folding: ASCII
    letters fold to upper case, and so do the two runes outside ASCII that
    fold to an ASCII letter, U+017F (to S) and U+212A (to K), here in UTF-8. *)
Definition upper (c : ascii) : ascii :=
  let n := nat_of_ascii c in
  if ((97 <=? n) && (n <=? 122))%nat then ascii_of_nat (n - 32) else c.

Definition long_s (c1 c2 : ascii) : bool :=
  ((nat_of_ascii c1 =? 197) && (nat_of_ascii c2 =? 191))%nat.

Definition kelvin (c1 c2 c3 : ascii) : bool :=
  ((nat_of_ascii c1 =? 226) && (nat_of_ascii c2 =? 132) && (nat_of_ascii c3 =? 170))%nat.

Fixpoint foldName (s : string) : string :=
  match s with
  | EmptyString => EmptyString
  | String c r1 =>
      match r1 with
      | EmptyString => String (upper c) EmptyString
      | String c2 r2 =>
          if long_s c c2 then String "S" (foldName r2)
          else match r2 with
               | EmptyString => String (upper c) (foldName r1)
               | String c3 r3 =>
                   if kelvin c c2 c3 then String "K" (foldName r3)
                   else String (upper c) (foldName r1)
               end
      end
  end.

Definition field_named (name key : string) : bool :=
  bool_decide (foldName key = foldName name).

(** Decoding an object into a struct: members are taken in order, each into
    the field its key names, on top of what the field holds. *)
Fixpoint decode_members {S : Type} (step : S -> string -> json -> res S)
    (cur : S) (ms : list (string * json)) : res S :=
  match ms with
  | [] => Ok cur
  | (k, v) :: rest => next ← step cur k v; decode_members step next rest
  end.

End GoJson.
Export GoJson.

(** ** internal/hook/types.go *)

Module hook.

Record Input : Type := {
  SessionID : string;
  TranscriptPath : string;
  CWD : string;
  PermissionMode : string;
  HookEventName : string;
  ToolName : string;
  ToolUseID : string;
  ToolInput : RawMessage;
  rawFields : GoMap;
}.

(** The zero value, as declared by [var input hook.Input]. *)
Definition zero_Input : Input :=
  {| SessionID := ""; TranscriptPath := ""; CWD := ""; PermissionMode := "";
     HookEventName := ""; ToolName := ""; ToolUseID := ""; ToolInput := Nil;
     rawFields := None |}.

(** One of the seven blocks
      if v, ok := raw[key]; ok { if err := json.Unmarshal(v, &field); ... } *)
Definition known_field (raw : GoMap) (key : string) (cur : string) : res string :=
  match map_get raw key with
  | Some v =>
      match Unmarshal_string cur v with
      | Ok s => Ok s
      | Err e => Err (Wrapped ("hook.Input unmarshal " +:+ key) e)
      end
  | None => Ok cur
  end.

Definition UnmarshalJSON (inp : Input) (data : RawMessage) : res Input :=
  match Unmarshal_map data with
  | Err e => Err (Wrapped "hook.Input unmarshal" e)
  | Ok raw =>
      sid ← known_field raw "session_id" (SessionID inp);
      tp ← known_field raw "transcript_path" (TranscriptPath inp);
      cwd ← known_field raw "cwd" (CWD inp);
      pm ← known_field raw "permission_mode" (PermissionMode inp);
      ev ← known_field raw "hook_event_name" (HookEventName inp);
      tn ← known_field raw "tool_name" (ToolName inp);
      tu ← known_field raw "tool_use_id" (ToolUseID inp);
      Ok {| SessionID := sid; TranscriptPath := tp; CWD := cwd;
            PermissionMode := pm; HookEventName := ev; ToolName := tn;
            ToolUseID := tu;
            ToolInput := match map_get raw "tool_input" with
                         | Some v => v
                         | None => ToolInput inp
                         end;
            rawFields := raw |}
  end.

(** Decode: json.Unmarshal(data, &input) on a zero Input.  The text is
    checked first; any JSON value, null included, is then handed to
    UnmarshalJSON. *)
Definition Decode (data : RawMessage) : res Input :=
  match data with
  | Doc _ => UnmarshalJSON zero_Input data
  | _ => syntax_error data
  end.

(** if field != "" { out[key] = json.Marshal(field) } *)
Definition overlay (key : string) (field : string)
    (out : gmap string RawMessage) : gmap string RawMessage :=
  if decide (field = "") then out else <[key := Doc (JStr field)]> out.

Definition MarshalJSON (inp : Input) : res RawMessage :=
  let out := entries (rawFields inp) in
  let out := overlay "session_id" (SessionID inp) out in
  let out := overlay "transcript_path" (TranscriptPath inp) out in
  let out := overlay "cwd" (CWD inp) out in
  let out := overlay "permission_mode" (PermissionMode inp) out in
  let out := overlay "hook_event_name" (HookEventName inp) out in
  let out := overlay "tool_name" (ToolName inp) out in
  let out := overlay "tool_use_id" (ToolUseID inp) out in
  let out := if decide (ToolInput inp = Nil) then out
             else <["tool_input" := ToolInput inp]> out in
  Marshal_map (Some out).

(** Encode: json.Marshal(inp), which calls MarshalJSON. *)
Definition Encode (inp : Input) : res RawMessage :=
  match MarshalJSON inp with
  | Ok b => Ok b
  | Err e => Err (Wrapped "json: error calling MarshalJSON for type hook.Input" e)
  end.

Definition WithToolInput (inp : Input) (merged : RawMessage) : Input :=
  {| SessionID := SessionID inp; TranscriptPath := TranscriptPath inp;
     CWD := CWD inp; PermissionMode := PermissionMode inp;
     HookEventName := HookEventName inp; ToolName := ToolName inp;
     ToolUseID := ToolUseID inp;
     ToolInput := merged;
     rawFields := Some (<["tool_input" := merged]> (entries (rawFields inp))) |}.

(** Fields carry their wire names. *)
Record HookSpecificOutput : Type := {
  hookEventName : string;
  permissionDecision : string;
  permissionDecisionReason : string;
  updatedInput : RawMessage;
  additionalContext : string;
}.

Record Output : Type := {
  hookSpecificOutput : HookSpecificOutput;
  continue : option bool;
  suppressOutput : option bool;
  systemMessage : string;
}.

Definition zero_HookSpecificOutput : HookSpecificOutput :=
  {| hookEventName := ""; permissionDecision := ""; permissionDecisionReason := "";
     updatedInput := Nil; additionalContext := "" |}.

Definition zero_Output : Output :=
  {| hookSpecificOutput := zero_HookSpecificOutput; continue := None;
     suppressOutput := None; systemMessage := "" |}.

(** json.Unmarshal into the Output struct (the default struct decoder). *)
Definition step_HookSpecificOutput (cur : HookSpecificOutput) (k : string) (v : json)
  : res HookSpecificOutput :=
  if field_named "hookEventName" k then
    s ← decode_string "string" (hookEventName cur) v;
    Ok {| hookEventName := s; permissionDecision := permissionDecision cur;
          permissionDecisionReason := permissionDecisionReason cur;
          updatedInput := updatedInput cur; additionalContext := additionalContext cur |}
  else if field_named "permissionDecision" k then
    s ← decode_string "string" (permissionDecision cur) v;
    Ok {| hookEventName := hookEventName cur; permissionDecision := s;
          permissionDecisionReason := permissionDecisionReason cur;
          updatedInput := updatedInput cur; additionalContext := additionalContext cur |}
  else if field_named "permissionDecisionReason" k then
    s ← decode_string "string" (permissionDecisionReason cur) v;
    Ok {| hookEventName := hookEventName cur; permissionDecision := permissionDecision cur;
          permissionDecisionReason := s;
          updatedInput := updatedInput cur; additionalContext := additionalContext cur |}
  else if field_named "updatedInput" k then
    Ok {| hookEventName := hookEventName cur; permissionDecision := permissionDecision cur;
          permissionDecisionReason := permissionDecisionReason cur;
          updatedInput := Doc v; additionalContext := additionalContext cur |}
  else if field_named "additionalContext" k then
    s ← decode_string "string" (additionalContext cur) v;
    Ok {| hookEventName := hookEventName cur; permissionDecision := permissionDecision cur;
          permissionDecisionReason := permissionDecisionReason cur;
          updatedInput := updatedInput cur; additionalContext := s |}
  else Ok cur.

Definition decode_HookSpecificOutput (cur : HookSpecificOutput) (v : json)
  : res HookSpecificOutput :=
  match v with
  | JNull => Ok cur
  | JObj ms => decode_members step_HookSpecificOutput cur ms
  | _ => type_error v "hook.HookSpecificOutput"
  end.

Definition step_Output (cur : Output) (k : string) (v : json) : res Output :=
  if field_named "hookSpecificOutput" k then
    h ← decode_HookSpecificOutput (hookSpecificOutput cur) v;
    Ok {| hookSpecificOutput := h; continue := continue cur;
          suppressOutput := suppressOutput cur; systemMessage := systemMessage cur |}
  else if field_named "continue" k then
    b ← decode_bool_ptr v;
    Ok {| hookSpecificOutput := hookSpecificOutput cur; continue := b;
          suppressOutput := suppressOutput cur; systemMessage := systemMessage cur |}
  else if field_named "suppressOutput" k then
    b ← decode_bool_ptr v;
    Ok {| hookSpecificOutput := hookSpecificOutput cur; continue := continue cur;
          suppressOutput := b; systemMessage := systemMessage cur |}
  else if field_named "systemMessage" k then
    s ← decode_string "string" (systemMessage cur) v;
    Ok {| hookSpecificOutput := hookSpecificOutput cur; continue := continue cur;
          suppressOutput := suppressOutput cur; systemMessage := s |}
  else Ok cur.

Definition Unmarshal_Output (data : RawMessage) : res Output :=
  match data with
  | Doc JNull => Ok zero_Output
  | Doc (JObj ms) => decode_members step_Output zero_Output ms
  | Doc v => type_error v "hook.Output"
  | _ => syntax_error data
  end.

(** json.Marshal of an Output: every field but hookSpecificOutput is
    omitted when empty. *)
Definition omit_string (key : string) (s : string) : list (string * json) :=
  if decide (s = "") then [] else [(key, JStr s)].

Definition omit_bool_ptr (key : string) (b : option bool) : list (string * json) :=
  match b with
  | None => []
  | Some x => [(key, JBool x)]
  end.

Definition omit_raw (key : string) (m : RawMessage) : res (list (string * json)) :=
  if len_zero m then Ok [] else v ← marshal_raw m; Ok [(key, v)].

Definition marshal_HookSpecificOutput (h : HookSpecificOutput) : res json :=
  ui ← omit_raw "updatedInput" (updatedInput h);
  Ok (JObj (omit_string "hookEventName" (hookEventName h)
            ++ omit_string "permissionDecision" (permissionDecision h)
            ++ omit_string "permissionDecisionReason" (permissionDecisionReason h)
            ++ ui
            ++ omit_string "additionalContext" (additionalContext h))).

Definition Marshal_Output (o : Output) : res RawMessage :=
  h ← marshal_HookSpecificOutput (hookSpecificOutput o);
  Ok (Doc (JObj ([("hookSpecificOutput", h)]
                 ++ omit_bool_ptr "continue" (continue o)
                 ++ omit_bool_ptr "suppressOutput" (suppressOutput o)
                 ++ omit_string "systemMessage" (systemMessage o)))).

End hook.

(** ** internal/config/config.go *)

Module config.

Record HookEntry : Type := {
  Name : string;
  Command : string;
  Args : list string;
  Timeout : Z;
  Env : list string;
  OnError : string;                 (* "deny" (default) | "skip" *)
}.

Definition EffectiveOnError (h : HookEntry) : string :=
  if decide (OnError h = "") then "deny" else OnError h.

(** ChainEntry maps an event+tool pattern to a sequence of hooks. *)
Record ChainEntry : Type := {
  Event : string;
  Tools : list string;
  Hooks : list HookEntry;
}.

(** AuditConfig controls the audit logging subsystem. *)
Record AuditConfig : Type := {
  Disabled : bool;
  DBPath : string;
  Retention : string;               (* e.g. "7d", "30d" *)
}.

Record Config : Type := {
  Chains : list ChainEntry;
  Audit : option AuditConfig;       (* a pointer: nil when the section is absent *)
}.

(** for _, t := range chain.Tools { if t == toolName { return chain.Hooks } } *)
Fixpoint listed (tools : list string) (toolName : string) : bool :=
  match tools with
  | [] => false
  | t :: rest => if decide (t = toolName) then true else listed rest toolName
  end.

(** for _, chain := range c.Chains { ... }; return nil.  The nil slice and a
    slice without elements are both the empty list: the caller only takes the
    length of what Resolve returns. *)
Fixpoint resolve (chains : list ChainEntry) (eventName toolName : string)
  : list HookEntry :=
  match chains with
  | [] => []
  | chain :: rest =>
      if decide (Event chain <> eventName) then resolve rest eventName toolName
      else if listed (Tools chain) toolName then Hooks chain
      else resolve rest eventName toolName
  end.

Definition Resolve (c : Config) (eventName toolName : string) : list HookEntry :=
  resolve (Chains c) eventName toolName.

End config.

(** ** internal/audit/audit.go *)

Module audit.

(** The fields recordAudit and Run fill in.  ID, ChainID and Timestamp are
    left to the store, and DurationMs is a reading of the wall clock. *)
Record HookResult : Type := {
  HookIndex : Z;
  HookName : string;
  ExitCode : Z;
  HookOutcome : string;             (* Outcome: pass|deny|skip|error|ask|merge|context *)
  Stderr : string;
}.

Record ChainExecution : Type := {
  EventName : string;
  ToolName : string;
  ToolDetail : string;
  ChainLen : Z;
  Outcome : string;                 (* allow|deny|ask|error *)
  Reason : string;
  SessionID : string;
  Hooks : list HookResult;
}.

Definition TruncateStderr (s : string) (max : Z) : string :=
  if max <=? 0 then ""
  else if Z.of_nat (String.length s) <=? max then s
  else if max <=? 3 then substring 0 (Z.to_nat max) s
  else substring 0 (Z.to_nat (max - 3)) s +:+ "...".

End audit.

(** ** internal/pathutil/tilde.go *)

Module pathutil.

(** strings.HasPrefix *)
Definition HasPrefix (s prefix : string) : bool := String.prefix prefix s.

(** path[1:], taken of a path that is not empty. *)
Definition from_1 (path : string) : string :=
  match path with
  | EmptyString => EmptyString
  | String _ rest => rest
  end.

(** ExpandTilde replaces a leading ~/ with the user's home directory.
    [HOME] is what os.Getenv("HOME") returns, the empty string when the
    variable is not set. *)
Definition ExpandTilde (HOME : string) (path : string) : string :=
  if negb (bool_decide (path = "~")) && negb (HasPrefix path "~/") then path
  else if decide (HOME = EmptyString) then path
  else HOME +:+ from_1 path.

End pathutil.

(** ** internal/runner *)

Module runner.

(** Result holds the output from executing a hook process.  Run reads
    [Stdout] through bytes.TrimSpace only, and the field holds what that
    leaves of the bytes. *)
Record Result : Type := {
  ExitCode : Z;
  Stdout : RawMessage;
  Stderr : string;
}.

(** expandTilde replaces a leading ~ with the user's home directory. *)
Definition expandTilde (HOME : string) (path : string) : string :=
  if negb (pathutil.HasPrefix path "~") then path
  else if decide (HOME = EmptyString) then path
  else HOME +:+ pathutil.from_1 path.

(** const defaultTimeout = 30 * time.Second, in nanoseconds. *)
Definition defaultTimeout : Z := 30 * 1000000000.

(** How cmd.Run() ends: without an error, with an *exec.ExitError, or with
    any other error.  The standard output is given as bytes.TrimSpace leaves
    it, as in [Result]. *)
Inductive Ended : Type :=
| Succeeded (stdout : RawMessage) (stderr : string)
| ExitError (code : Z) (stdout : RawMessage) (stderr : string)
| NotRun (err : error).

Section Process.

Context (lib : GoLib).
Context (HOME : string).                            (* os.Getenv("HOME") *)
Context (Fields : string -> list string).           (* strings.Fields *)
(** exec.CommandContext(ctx, name, args...) under a timeout, with additions
    to the environment and with bytes on standard input, then cmd.Run(). *)
Context {World : Type}.
Context (cmd_Run : World -> string -> list string -> Z -> list string -> RawMessage ->
                   World * Ended).

(** ProcessRunner.Run executes the hook command, feeding input via stdin. *)
Definition ProcessRunner_Run (w : World) (hook : config.HookEntry) (input : RawMessage)
  : World * res Result :=
  let cmdStr := expandTilde HOME (config.Command hook) in
  match Fields cmdStr with
  | [] =>
      (w, Err (Failure ("runner: empty command for hook "
                        +:+ strconv_Quote lib (config.Name hook))))
  | name :: rest =>
      let args := rest ++ config.Args hook in
      let timeout := if decide (config.Timeout hook = 0) then defaultTimeout
                     else config.Timeout hook in
      let (w', ended) := cmd_Run w name args timeout (config.Env hook) input in
      match ended with
      | NotRun err =>
          (w', Err (Wrapped ("runner: execute hook " +:+ strconv_Quote lib (config.Name hook))
                            err))
      | ExitError code stdout stderr =>
          (w', Ok {| ExitCode := code; Stdout := stdout; Stderr := stderr |})
      | Succeeded stdout stderr =>
          (w', Ok {| ExitCode := 0; Stdout := stdout; Stderr := stderr |})
      end
  end.

End Process.

End runner.

(** ** internal/pipeline *)

Module pipeline.

Import hook config.

(** for k, v := range patchMap { baseMap[k] = v }; [None] when an assignment
    panics. *)
Definition range_assign (baseMap patchMap : GoMap) : option GoMap :=
  map_fold (fun k v acc => acc ≫= fun m => map_assign m k v)
           (Some baseMap) (entries patchMap).

Definition shallowMergeJSON (base patch : RawMessage) : exec (res RawMessage) :=
  if len_zero base && len_zero patch then Done (Ok Nil)
  else if len_zero base then Done (Ok patch)
  else if len_zero patch then Done (Ok base)
  else
    match Unmarshal_map base with
    | Err err => Done (Err (Wrapped "shallowMergeJSON base" err))
    | Ok baseMap =>
        match Unmarshal_map patch with
        | Err err => Done (Err (Wrapped "shallowMergeJSON patch" err))
        | Ok patchMap =>
            match range_assign baseMap patchMap with
            | None => Panic "assignment to entry in nil map"
            | Some merged =>
                match Marshal_map merged with
                | Err err => Done (Err (Wrapped "shallowMergeJSON marshal" err))
                | Ok result => Done (Ok result)
                end
            end
        end
    end.

(** Result holds the final outcome of executing a hook chain; an Output of
    length 0 means nothing to write. *)
Record Result : Type := {
  ExitCode : Z;
  Output : RawMessage;
}.

Definition newline : string := String "010"%char EmptyString.

(** strings.Join *)
Fixpoint Join (parts : list string) (sep : string) : string :=
  match parts with
  | [] => EmptyString
  | [p] => p
  | p :: rest => p +:+ sep +:+ Join rest sep
  end.

(** strings.Count(s, newline) *)
Fixpoint count_newlines (s : string) : Z :=
  match s with
  | EmptyString => 0
  | String c rest => (if Ascii.eqb c "010"%char then 1 else 0) + count_newlines rest
  end.

Definition countLines (s : string) : Z :=
  if decide (s = EmptyString) then 0 else count_newlines s + 1.

(** json.Unmarshal into a struct whose fields are all strings, named
    [names]; the result lists the fields in that order. *)
Fixpoint step_strings (names : list string) (cur : list string) (k : string) (v : json)
  : res (list string) :=
  match names, cur with
  | n :: names', c :: cur' =>
      if field_named n k then s ← decode_string "string" c v; Ok (s :: cur')
      else rest ← step_strings names' cur' k v; Ok (c :: rest)
  | _, _ => Ok cur
  end.

Definition Unmarshal_strings (names : list string) (data : RawMessage) : res (list string) :=
  let zero := List.map (fun _ => EmptyString) names in
  match data with
  | Doc JNull => Ok zero
  | Doc (JObj ms) => decode_members (step_strings names) zero ms
  | Doc v => type_error v "struct"
  | _ => syntax_error data
  end.

Definition extractToolDetail (input : Input) : string :=
  if len_zero (ToolInput input) then EmptyString
  else
    let detail :=
      if decide (ToolName input = "Bash") then
        match Unmarshal_strings ["command"] (ToolInput input) with
        | Ok [command] => Some command
        | _ => None
        end
      else if decide (ToolName input = "Read") then
        match Unmarshal_strings ["file_path"] (ToolInput input) with
        | Ok [file_path] => Some file_path
        | _ => None
        end
      else if decide (ToolName input = "Write") then
        match Unmarshal_strings ["file_path"; "content"] (ToolInput input) with
        | Ok [file_path; content] =>
            Some (file_path +:+ " (+" +:+ pretty (countLines content) +:+ " lines)")
        | _ => None
        end
      else if decide (ToolName input = "Edit") then
        match Unmarshal_strings ["file_path"; "old_string"; "new_string"] (ToolInput input) with
        | Ok [file_path; old_string; new_string] =>
            Some (file_path +:+ " (-" +:+ pretty (countLines old_string) +:+ "/+"
                  +:+ pretty (countLines new_string) +:+ " lines)")
        | _ => None
        end
      else None in
    match detail with
    | None => EmptyString
    | Some d => if (256 <? String.length d)%nat then substring 0 256 d else d
    end.

(** denyResult builds a deny Result with exit code 2. *)
Definition denyResult (eventName reason : string) : Result :=
  let out := {| hookSpecificOutput :=
                  {| hookEventName := eventName; permissionDecision := "deny";
                     permissionDecisionReason := reason; updatedInput := Nil;
                     additionalContext := EmptyString |};
                continue := None; suppressOutput := None; systemMessage := EmptyString |} in
  match Marshal_Output out with
  | Err _ =>
      {| ExitCode := 2;
         Output := Doc (JObj [("hookSpecificOutput",
                               JObj [("permissionDecision", JStr "deny");
                                     ("permissionDecisionReason",
                                      JStr "hook-chain: internal error")])]) |}
  | Ok data => {| ExitCode := 2; Output := data |}
  end.

(** buildDecisionResult builds a Result for a specific permission decision. *)
Definition buildDecisionResult (eventName decision reason : string) : Result :=
  let out := {| hookSpecificOutput :=
                  {| hookEventName := eventName; permissionDecision := decision;
                     permissionDecisionReason := reason; updatedInput := Nil;
                     additionalContext := EmptyString |};
                continue := None; suppressOutput := None; systemMessage := EmptyString |} in
  match Marshal_Output out with
  | Err _ => {| ExitCode := 2; Output := Nil |}
  | Ok data =>
      {| ExitCode := if decide (decision = "deny") then 2 else 0; Output := data |}
  end.

Section Engine.

Context (lib : GoLib).

(** json.Unmarshal into [any] followed by json.Marshal: numbers pass through
    float64, objects become maps and are written with sorted keys.  The
    result is [None] when json.Unmarshal returns an error, which it does for a
    JSON text when a number in it, wherever it stands, is beyond float64;
    json.Marshal of what has been decoded does not fail. *)
Fixpoint normal (v : json) : option json :=
  match v with
  | JNum l => x ← ParseFloat lib l; Some (JNum (FormatFloat lib x))
  | JArr items => items' ← mapM normal items; Some (JArr items')
  | JObj members =>
      members' ← mapM (fun kv => w ← normal (snd kv); Some (fst kv, w)) members;
      Some (JObj (sorted_entries
                    (foldl (fun g kv => <[fst kv := snd kv]> g) ∅ members')))
  | _ => Some v
  end.

(** normalizeJSON re-marshals JSON to normalize key ordering for comparison;
    data that json.Unmarshal refuses is returned as it is, so that Run then
    compares text as it came.  Here as everywhere a text is the document it
    spells: two texts of one document are taken to be spelled alike. *)
Definition normalizeJSON (data : RawMessage) : RawMessage :=
  match data with
  | Nil | Empty => Nil
  | Malformed _ => data
  | Doc v =>
      match normal v with
      | None => data
      | Some w => Doc w
      end
  end.

(** The collaborators.  A Runner is called with the hook and the encoded
    envelope and answers with a runner.Result or an error; an Auditor is given
    a record and may answer with an error.  Both may keep state. *)
Context {RunnerState AuditorState : Type}.
Context (runner_Run : RunnerState -> HookEntry -> RawMessage ->
                      RunnerState * res runner.Result).
Context (RecordChain : AuditorState -> audit.ChainExecution ->
                       AuditorState * option error).

(** One call of the Runner: the hook, the bytes on its standard input, the
    answer. *)
Record Call : Type := {
  call_hook : HookEntry;
  call_input : RawMessage;
  call_answer : res runner.Result;
}.

(** The variables of Run inside the loop, with the state of the Runner and
    the calls made so far. *)
Record Fold : Type := {
  accumulated : RawMessage;
  contextParts : list string;
  hookResults : list audit.HookResult;
  runner_state : RunnerState;
  calls : list Call;
}.

(** hookResults = append(hookResults, hr) *)
Definition record_hook (st : Fold) (hr : audit.HookResult) : Fold :=
  {| accumulated := accumulated st; contextParts := contextParts st;
     hookResults := hookResults st ++ [hr];
     runner_state := runner_state st; calls := calls st |}.

Definition HookResult_of (i : Z) (h : HookEntry) (code : Z) (outcome stderr : string)
  : audit.HookResult :=
  {| audit.HookIndex := i; audit.HookName := Name h; audit.ExitCode := code;
     audit.HookOutcome := outcome; audit.Stderr := stderr |}.

(** How one pass through the loop body ends: at its end or at a continue
    ([Next]); at a return, with the arguments of the recordAudit call before
    it ([Return]); or in a panic. *)
Inductive Step : Type :=
| Next (st : Fold)
| Return (res : Result) (outcome reason : string) (st : Fold)
| Crash (msg : string) (st : Fold).

Definition q (s : string) : string := strconv_Quote lib s.

Definition step (input : Input) (i : Z) (h : HookEntry) (st : Fold) : Step :=
  let subInput := WithToolInput input (accumulated st) in
  match Encode subInput with
  | Err err =>
      Return (denyResult (HookEventName input)
                ("hook-chain: failed to marshal input for hook " +:+ q (Name h)
                 +:+ ": " +:+ Error lib err))
             "error"
             ("marshal input for hook " +:+ q (Name h) +:+ ": " +:+ Error lib err)
             st
  | Ok inputBytes =>
      let (r', answer) := runner_Run (runner_state st) h inputBytes in
      let st := {| accumulated := accumulated st; contextParts := contextParts st;
                   hookResults := hookResults st; runner_state := r';
                   calls := calls st ++ [{| call_hook := h; call_input := inputBytes;
                                            call_answer := answer |}] |} in
      match answer with
      | Err err =>
          if decide (EffectiveOnError h = "skip") then
            Next (record_hook st
                    (HookResult_of i h (-1) "skip" (audit.TruncateStderr (Error lib err) 512)))
          else
            Return (denyResult (HookEventName input)
                      ("hook-chain: hook " +:+ q (Name h) +:+ " failed: " +:+ Error lib err))
                   "error"
                   ("hook " +:+ q (Name h) +:+ " runner error: " +:+ Error lib err)
                   (record_hook st
                      (HookResult_of i h (-1) "error"
                         (audit.TruncateStderr (Error lib err) 512)))
      | Ok runRes =>
          if decide (runner.ExitCode runRes = 2) then
            let reason :=
              if decide (runner.Stderr runRes = EmptyString)
              then "hook " +:+ q (Name h) +:+ " denied (exit 2)"
              else runner.Stderr runRes in
            Return (denyResult (HookEventName input) reason) "deny" reason
                   (record_hook st
                      (HookResult_of i h 2 "deny"
                         (audit.TruncateStderr (runner.Stderr runRes) 512)))
          else if decide (runner.ExitCode runRes <> 0) then
            if decide (EffectiveOnError h = "skip") then
              Next (record_hook st
                      (HookResult_of i h (runner.ExitCode runRes) "skip"
                         (audit.TruncateStderr (runner.Stderr runRes) 512)))
            else
              let reason :=
                if decide (runner.Stderr runRes = EmptyString)
                then "hook " +:+ q (Name h) +:+ " failed (exit "
                     +:+ pretty (runner.ExitCode runRes) +:+ ")"
                else runner.Stderr runRes in
              Return (denyResult (HookEventName input) reason) "deny" reason
                     (record_hook st
                        (HookResult_of i h (runner.ExitCode runRes) "deny"
                           (audit.TruncateStderr (runner.Stderr runRes) 512)))
          else
            let stdout := runner.Stdout runRes in
            if len_zero stdout then
              Next (record_hook st (HookResult_of i h 0 "pass" EmptyString))
            else
              match Unmarshal_Output stdout with
              | Err err =>
                  if decide (EffectiveOnError h = "skip") then
                    Next (record_hook st
                            (HookResult_of i h 0 "skip"
                               (audit.TruncateStderr (Error lib err) 512)))
                  else
                    Return (denyResult (HookEventName input)
                              ("hook-chain: hook " +:+ q (Name h)
                               +:+ " returned invalid JSON: " +:+ Error lib err))
                           "error"
                           ("hook " +:+ q (Name h) +:+ " invalid JSON: " +:+ Error lib err)
                           (record_hook st
                              (HookResult_of i h 0 "error"
                                 (audit.TruncateStderr (Error lib err) 512)))
              | Ok output =>
                  let hso := hookSpecificOutput output in
                  if decide (permissionDecision hso = "deny") then
                    Return (buildDecisionResult (HookEventName input) "deny"
                              (permissionDecisionReason hso))
                           "deny" (permissionDecisionReason hso)
                           (record_hook st (HookResult_of i h 0 "deny" EmptyString))
                  else if decide (permissionDecision hso = "ask") then
                    Return (buildDecisionResult (HookEventName input) "ask"
                              (permissionDecisionReason hso))
                           "ask" (permissionDecisionReason hso)
                           (record_hook st (HookResult_of i h 0 "ask" EmptyString))
                  else
                    (* the rest of the body, once updatedInput is dealt with *)
                    let collect (acc : RawMessage) (hookOutcome : string) :=
                      let parts :=
                        if decide (additionalContext hso = EmptyString)
                        then contextParts st
                        else contextParts st ++ [additionalContext hso] in
                      let hookOutcome :=
                        if decide (additionalContext hso = EmptyString) then hookOutcome
                        else if decide (hookOutcome = "pass") then "context"
                        else hookOutcome in
                      Next {| accumulated := acc; contextParts := parts;
                              hookResults := hookResults st
                                             ++ [HookResult_of i h 0 hookOutcome EmptyString];
                              runner_state := runner_state st; calls := calls st |} in
                    if len_zero (updatedInput hso) then collect (accumulated st) "pass"
                    else
                      match shallowMergeJSON (accumulated st) (updatedInput hso) with
                      | Panic msg => Crash msg st
                      | Done (Err err) =>
                          Return (denyResult (HookEventName input)
                                    ("hook-chain: failed to merge updatedInput from hook "
                                     +:+ q (Name h) +:+ ": " +:+ Error lib err))
                                 "error"
                                 ("merge updatedInput from hook " +:+ q (Name h)
                                  +:+ ": " +:+ Error lib err)
                                 (record_hook st
                                    (HookResult_of i h 0 "error"
                                       (audit.TruncateStderr (Error lib err) 512)))
                      | Done (Ok merged) => collect merged "merge"
                      end
              end
      end
  end.

(** for i, h := range hooks { ... } from index [i] on. *)
Fixpoint loop (input : Input) (i : Z) (hooks : list HookEntry) (st : Fold) : Step :=
  match hooks with
  | [] => Next st
  | h :: rest =>
      match step input i h st with
      | Next st' => loop input (i + 1) rest st'
      | stop => stop
      end
  end.

(** recordAudit sends a chain execution record to the auditor.  The answer of
    RecordChain is only logged.  Returns the auditor and the records sent. *)
Definition recordAudit (auditor : option AuditorState) (input : Input) (chainLen : Z)
    (outcome reason : string) (hookResults : list audit.HookResult)
  : option AuditorState * list audit.ChainExecution :=
  match auditor with
  | None => (None, [])
  | Some a =>
      let entry := {| audit.EventName := HookEventName input;
                      audit.ToolName := ToolName input;
                      audit.ToolDetail := extractToolDetail input;
                      audit.ChainLen := chainLen;
                      audit.Outcome := outcome;
                      audit.Reason := reason;
                      audit.SessionID := SessionID input;
                      audit.Hooks := hookResults |} in
      let (a', _) := RecordChain a entry in
      (Some a', [entry])
  end.

(** What a call of Run leaves behind: the Result it returns, or a panic; the
    calls made to the Runner; the records sent to the Auditor; the states of
    both. *)
Record Execution : Type := {
  returned : exec Result;
  runner_calls : list Call;
  audit_records : list audit.ChainExecution;
  runner_after : RunnerState;
  auditor_after : option AuditorState;
}.

(** The part of Run after the loop. *)
Definition finish (input : Input) (st : Fold) : Result * string * string :=
  let originalToolInput := ToolInput input in
  let changed := negb (bytes_Equal (normalizeJSON (accumulated st))
                                   (normalizeJSON originalToolInput)) in
  let hasContext := negb (bool_decide (contextParts st = [])) in
  if negb changed && negb hasContext then
    ({| ExitCode := 0; Output := Nil |}, "allow", EmptyString)
  else
    let out := {| hookSpecificOutput :=
                    {| hookEventName := HookEventName input;
                       permissionDecision := EmptyString;
                       permissionDecisionReason := EmptyString;
                       updatedInput := if changed then accumulated st else Nil;
                       additionalContext :=
                         if hasContext then Join (contextParts st) newline
                         else EmptyString |};
                  continue := None; suppressOutput := None;
                  systemMessage := EmptyString |} in
    match Marshal_Output out with
    | Err err =>
        (denyResult (HookEventName input)
           ("hook-chain: failed to marshal final output: " +:+ Error lib err),
         "error", "marshal final output: " +:+ Error lib err)
    | Ok data => ({| ExitCode := 0; Output := data |}, "allow", EmptyString)
    end.

(** Run executes hooks sequentially, threading accumulated toolInput state
    through the chain. *)
Definition Run (input : Input) (hooks : list HookEntry) (r : RunnerState)
    (auditor : option AuditorState) : Execution :=
  match hooks with
  | [] =>
      let (a', sent) := recordAudit auditor input 0 "allow" EmptyString [] in
      {| returned := Done {| ExitCode := 0; Output := Nil |};
         runner_calls := []; audit_records := sent;
         runner_after := r; auditor_after := a' |}
  | _ :: _ =>
      let st0 := {| accumulated := ToolInput input; contextParts := [];
                    hookResults := []; runner_state := r; calls := [] |} in
      match loop input 0 hooks st0 with
      | Next st =>
          let '(res, outcome, reason) := finish input st in
          let (a', sent) := recordAudit auditor input (Z.of_nat (length hooks))
                              outcome reason (hookResults st) in
          {| returned := Done res; runner_calls := calls st; audit_records := sent;
             runner_after := runner_state st; auditor_after := a' |}
      | Return res outcome reason st =>
          let (a', sent) := recordAudit auditor input (Z.of_nat (length hooks))
                              outcome reason (hookResults st) in
          {| returned := Done res; runner_calls := calls st; audit_records := sent;
             runner_after := runner_state st; auditor_after := a' |}
      | Crash msg st =>
          {| returned := Panic msg; runner_calls := calls st; audit_records := [];
             runner_after := runner_state st; auditor_after := auditor |}
      end
  end.

End Engine.

End pipeline.

(** ** internal/cli *)

Module cli.

Import hook config pipeline.

(** strings.CutSuffix *)
Definition CutSuffix (s suffix : string) : option string :=
  let n := String.length s in
  let m := String.length suffix in
  if ((m <=? n)%nat && String.eqb (substring (n - m) m s) suffix)%bool
  then Some (substring 0 (n - m) s)
  else None.

(** An int64 after an operation that overflows. *)
Definition wrap64 (z : Z) : Z := (z + 2 ^ 63) mod 2 ^ 64 - 2 ^ 63.

(** time.Hour, in nanoseconds. *)
Definition Hour : Z := 3600 * 1000000000.

Definition digit (c : ascii) : option Z :=
  let n := Z.of_nat (nat_of_ascii c) in
  if (48 <=? n) && (n <=? 57) then Some (n - 48) else None.

Fixpoint digits (acc : Z) (s : string) : option Z :=
  match s with
  | EmptyString => Some acc
  | String c rest =>
      match digit c with
      | Some d => digits (acc * 10 + d) rest
      | None => None
      end
  end.

Section Durations.

Context (lib : GoLib).
Context (TrimSpace : string -> string).             (* strings.TrimSpace *)
Context (ParseDuration : string -> res Z).          (* time.ParseDuration *)

(** strconv.Atoi where int has 64 bits: an optional sign and decimal digits,
    at least one; a value that does not fit is an error. *)
Definition Atoi (s : string) : res Z :=
  let syntax := Failure ("strconv.Atoi: parsing " +:+ strconv_Quote lib s
                         +:+ ": invalid syntax") in
  let range := Failure ("strconv.Atoi: parsing " +:+ strconv_Quote lib s
                        +:+ ": value out of range") in
  match s with
  | EmptyString => Err syntax
  | String c rest =>
      let neg := bool_decide (c = "-"%char) in
      let body := if bool_decide (c = "-"%char) || bool_decide (c = "+"%char)
                  then rest else s in
      match body with
      | EmptyString => Err syntax
      | _ =>
          match digits 0 body with
          | None => Err syntax
          | Some n =>
              let v := if neg then - n else n in
              if (- 2 ^ 63 <=? v) && (v <? 2 ^ 63) then Ok v else Err range
          end
      end
  end.

(** parseDuration parses a duration string supporting Nd (days) and Nh
    (hours) formats, in addition to Go's standard time.Duration formats.
    The result is in nanoseconds. *)
Definition parseDuration (s : string) : res Z :=
  let s := TrimSpace s in
  if decide (s = EmptyString) then Err (Failure "empty duration")
  else
    match CutSuffix s "d" with
    | Some numStr =>
        match Atoi numStr with
        | Err err => Err (Wrapped ("invalid days " +:+ strconv_Quote lib numStr) err)
        | Ok n => Ok (wrap64 (wrap64 (n * 24) * Hour))
        end
    | None =>
        match CutSuffix s "h" with
        | Some numStr =>
            match Atoi numStr with
            | Err _ => ParseDuration s
            | Ok n => Ok (wrap64 (n * Hour))
            end
        | None => ParseDuration s
        end
    end.

(** resolveRetention returns the audit retention duration from config,
    defaulting to 7 days. *)
Definition resolveRetention (cfg : Config) : Z :=
  match Audit cfg with
  | None => 7 * 24 * Hour
  | Some a =>
      if decide (Retention a = EmptyString) then 7 * 24 * Hour
      else match parseDuration (Retention a) with
           | Err _ => 7 * 24 * Hour
           | Ok d => d
           end
  end.

End Durations.

(** writeDenyJSON writes a deny response to stdout in the hook protocol
    format; the result is what is written. *)
Definition writeDenyJSON (reason : string) : RawMessage :=
  let out := {| hookSpecificOutput :=
                  {| hookEventName := EmptyString; permissionDecision := "deny";
                     permissionDecisionReason := reason; updatedInput := Nil;
                     additionalContext := EmptyString |};
                continue := None; suppressOutput := None; systemMessage := EmptyString |} in
  match Marshal_Output out with
  | Err _ =>
      Doc (JObj [("hookSpecificOutput",
                  JObj [("permissionDecision", JStr "deny");
                        ("permissionDecisionReason",
                         JStr "hook-chain: internal error")])])
  | Ok data => data
  end.

Section Root.

Context (lib : GoLib) {RunnerState AuditorState : Type}.
Context (runner_Run : RunnerState -> HookEntry -> RawMessage ->
                      RunnerState * res runner.Result).
Context (RecordChain : AuditorState -> audit.ChainExecution ->
                       AuditorState * option error).

(** What the process finds around it. *)
Record Host : Type := {
  Stdin : res RawMessage;                           (* io.ReadAll(os.Stdin) *)
  config_Load : res Config;                         (* config.Load() *)
  HOOK_CHAIN_AUDIT : string;                        (* os.Getenv("HOOK_CHAIN_AUDIT") *)
  DefaultDBPath : string;                           (* audit.DefaultDBPath() *)
  audit_Open : string -> res AuditorState;          (* audit.Open(dbPath) *)
  ProcessRunner : RunnerState;
}.

(** What runRoot leaves: the error it returns (nil, or an exitError with its
    code), what it wrote to standard output ([Nil] when nothing), and the
    call of pipeline.Run if it came to that. *)
Record Ran : Type := {
  exit_error : option Z;
  Stdout_written : RawMessage;
  pipeline_Run : option (@Execution RunnerState AuditorState);
}.

(** The auditor runRoot sets up. *)
Definition auditor_of (host : Host) (cfg : Config) : option AuditorState :=
  let auditDisabled :=
    bool_decide (HOOK_CHAIN_AUDIT host = "0")
    || match Audit cfg with
       | Some a => Disabled a
       | None => false
       end in
  if auditDisabled then None
  else
    let dbPath :=
      match Audit cfg with
      | Some a => if decide (DBPath a <> EmptyString) then DBPath a
                  else DefaultDBPath host
      | None => DefaultDBPath host
      end in
    match audit_Open host dbPath with
    | Err _ => None
    | Ok a => Some a
    end.

(** runRoot is the default command: read stdin, resolve chain, run pipeline.
    The rotation of the audit store that follows the run acts on the store
    only and is left out. *)
Definition runRoot (host : Host) : exec Ran :=
  match Stdin host with
  | Err _ =>
      Done {| exit_error := Some 2;
              Stdout_written := writeDenyJSON "hook-chain: failed to read stdin";
              pipeline_Run := None |}
  | Ok data =>
      if len_zero data then
        Done {| exit_error := None; Stdout_written := Nil; pipeline_Run := None |}
      else
        match Decode data with
        | Err _ =>
            Done {| exit_error := Some 2;
                    Stdout_written := writeDenyJSON "hook-chain: failed to parse hook input";
                    pipeline_Run := None |}
        | Ok input =>
            match config_Load host with
            | Err _ =>
                Done {| exit_error := Some 2; Stdout_written := Nil;
                        pipeline_Run := None |}
            | Ok cfg =>
                let auditor := auditor_of host cfg in
                let hooks := Resolve cfg (HookEventName input) (ToolName input) in
                if decide (length hooks = 0%nat) then
                  Done {| exit_error := None; Stdout_written := Nil;
                          pipeline_Run := None |}
                else
                  let e := Run lib runner_Run RecordChain input hooks
                               (ProcessRunner host) auditor in
                  match returned e with
                  | Panic msg => Panic msg
                  | Done result =>
                      Done {| exit_error := if decide (ExitCode result <> 0)
                                            then Some (ExitCode result) else None;
                              Stdout_written := if len_zero (Output result) then Nil
                                                else Output result;
                              pipeline_Run := Some e |}
                  end
            end
        end
  end.

(** Execute runs the CLI and returns the process exit code. *)
Definition Execute (host : Host) : exec Z :=
  match runRoot host with
  | Panic msg => Panic msg
  | Done ran =>
      Done match exit_error ran with
           | Some code => code
           | None => 0
           end
  end.

End Root.

End cli.

(** ** Test doubles of internal/pipeline, and a library instance *)

Module doubles.

Import hook config pipeline.

(** mockRunner implements runner.Runner for testing. *)
Record mockRunner : Type := {
  results : list (res runner.Result);
  mock_calls : list (string * RawMessage);
  callIdx : nat;
}.

Definition mockRunner_Run (m : mockRunner) (h : HookEntry) (input : RawMessage)
  : mockRunner * res runner.Result :=
  let seen := mock_calls m ++ [(Name h, input)] in
  match results m !! callIdx m with
  | None =>
      ({| results := results m; mock_calls := seen; callIdx := callIdx m |},
       Ok {| runner.ExitCode := 0; runner.Stdout := Nil; runner.Stderr := EmptyString |})
  | Some r =>
      ({| results := results m; mock_calls := seen; callIdx := S (callIdx m) |}, r)
  end.

Definition mock (rs : list (res runner.Result)) : mockRunner :=
  {| results := rs; mock_calls := []; callIdx := 0 |}.

(** mockAuditor implements audit.Auditor for testing: RecordChain keeps the
    entry and returns the error it was set up with. *)
Record mockAuditor : Type := {
  entries : list audit.ChainExecution;
  err : option error;
}.

Definition mockAuditor_RecordChain (m : mockAuditor) (entry : audit.ChainExecution)
  : mockAuditor * option error :=
  ({| entries := entries m ++ [entry]; err := err m |}, err m).

(** makeInput: the envelope of a PreToolUse event for the tool Bash. *)
Definition makeInput (toolInput : json) : Input :=
  match Decode (Doc (JObj [("hook_event_name", JStr "PreToolUse");
                           ("tool_name", JStr "Bash");
                           ("tool_input", toolInput)])) with
  | Ok inp => inp
  | Err _ => zero_Input
  end.

Definition hookEntry (name onError : string) : HookEntry :=
  {| Name := name; Command := name; Args := []; Timeout := 0; Env := [];
     OnError := onError |}.

(** A hook that exits with code 0 and writes [v]. *)
Definition writes (v : json) : res runner.Result :=
  Ok {| runner.ExitCode := 0; runner.Stdout := Doc v; runner.Stderr := EmptyString |}.

(** A hook that exits with [code] and writes [stderr] to standard error. *)
Definition exits (code : Z) (stderr : string) : res runner.Result :=
  Ok {| runner.ExitCode := code; runner.Stdout := Nil; runner.Stderr := stderr |}.

Definition hookSpecific (fields : list (string * json)) : json :=
  JObj [("hookSpecificOutput", JObj fields)].

(** A stand-in for the Go library on plain input: names without characters
    that %q escapes, number literals that print the way they are written, and
    one literal, 1e999, that is beyond float64. *)
Definition plain_lib : GoLib :=
  {| strconv_Quote := fun s => String (ascii_of_nat 34) (s +:+ String (ascii_of_nat 34) EmptyString);
     float64 := string;
     ParseFloat := fun l => if decide (l = "1e999") then None else Some l;
     FormatFloat := fun x => x;
     json_error_text := fun e =>
       match e with
       | SyntaxError _ => "invalid JSON text"
       | UnmarshalTypeError value target =>
           "json: cannot unmarshal " +:+ value +:+ " into Go value of type " +:+ target
       end |}.

(** Run with the doubles. *)
Definition run (input : Input) (hooks : list HookEntry) (rs : list (res runner.Result))
    (auditor : option mockAuditor) : Execution :=
  Run plain_lib mockRunner_Run mockAuditor_RecordChain input hooks (mock rs) auditor.

End doubles.

(** * Properties *)

(** ** Maps, objects and the encoder *)

Module GoJsonFacts.

Lemma lookup_last_fmap {A B : Type} (f : A -> B) (k : string) (ms : list (string * A)) :
  lookup_last k (List.map (fun kv => (fst kv, f (snd kv))) ms) = f <$> lookup_last k ms.
Proof.
  induction ms as [|[k' v] ms IH]; simpl; [done|].
  rewrite IH. destruct (lookup_last k ms); simpl; [done|].
  by case_decide.
Qed.

Lemma foldl_insert_lookup {A B : Type} (f : A -> B) (ms : list (string * A))
    (g : gmap string B) (k : string) :
  foldl (fun g kv => <[fst kv := f (snd kv)]> g) g ms !! k
  = match lookup_last k ms with
    | Some v => Some (f v)
    | None => g !! k
    end.
Proof.
  revert g. induction ms as [|[k' v] ms IH]; intros g; simpl; [done|].
  rewrite IH. destruct (lookup_last k ms); [done|].
  case_decide; subst.
  - by rewrite lookup_insert_eq.
  - by rewrite lookup_insert_ne.
Qed.

Lemma members_to_map_lookup (ms : list (string * json)) (k : string) :
  members_to_map ms !! k = Doc <$> lookup_last k ms.
Proof.
  unfold members_to_map. rewrite (foldl_insert_lookup Doc).
  destruct (lookup_last k ms); simpl; [done|]. apply lookup_empty.
Qed.

Lemma lookup_last_elem_of {A : Type} (ms : list (string * A)) (k : string) (v : A) :
  NoDup ms.*1 -> lookup_last k ms = Some v <-> (k, v) ∈ ms.
Proof.
  revert v. induction ms as [|[k' w] ms IH]; simpl; intros v Hnd.
  - split; [done|]. intros H. by apply elem_of_nil in H.
  - apply NoDup_cons in Hnd as [Hk' Hnd].
    assert (IH' := fun x => IH x Hnd). clear IH. rename IH' into IH.
    rewrite elem_of_cons. destruct (lookup_last k ms) as [u|] eqn:E.
    + split.
      * intros [= ->]. right. by apply IH.
      * intros [Heq|Hin]; [|by apply IH]. injection Heq as <- <-.
        exfalso. apply Hk'. apply list_elem_of_fmap. exists (k, u).
        split; [done|]. by apply IH.
    + case_decide; subst.
      * split; [intros [= ->]; by left|].
        intros [Heq|Hin]; [by injection Heq as <-|]. apply IH in Hin. congruence.
      * split; [done|]. intros [Heq|Hin]; [by injection Heq as <- <-|].
        apply IH in Hin. congruence.
Qed.

Lemma sorted_entries_perm {A : Type} (g : gmap string A) :
  sorted_entries g ≡ₚ map_to_list g.
Proof. apply merge_sort_Permutation. Qed.

Lemma sorted_entries_NoDup {A : Type} (g : gmap string A) :
  NoDup (sorted_entries g).*1.
Proof.
  rewrite (sorted_entries_perm g). apply NoDup_fst_map_to_list.
Qed.

Lemma sorted_entries_lookup {A : Type} (g : gmap string A) (k : string) :
  lookup_last k (sorted_entries g) = g !! k.
Proof.
  apply option_eq. intros v.
  rewrite lookup_last_elem_of by apply sorted_entries_NoDup.
  rewrite (sorted_entries_perm g). apply elem_of_map_to_list.
Qed.

Lemma sorted_entries_inj {A : Type} (g1 g2 : gmap string A) :
  sorted_entries g1 = sorted_entries g2 -> g1 = g2.
Proof.
  intros H. apply map_eq. intros k.
  by rewrite <- !sorted_entries_lookup, H.
Qed.

Lemma range_fold (baseMap : GoMap) (m : gmap string RawMessage) :
  map_fold (fun k v acc => acc ≫= fun b => map_assign b k v) (Some baseMap) m
  = match baseMap with
    | Some b => Some (Some (m ∪ b))
    | None => if decide (m = ∅) then Some None else None
    end.
Proof.
  revert m.
  apply (map_fold_weak_ind
           (fun (r : option GoMap) (m : gmap string RawMessage) =>
              r = match baseMap with
                  | Some b => Some (Some (m ∪ b))
                  | None => if decide (m = ∅) then Some None else None
                  end)).
  - destruct baseMap as [b|]; [by rewrite (left_id_L ∅ (∪))|].
    by rewrite decide_True.
  - intros i x m r Hi ->. destruct baseMap as [b|]; simpl.
    + by rewrite insert_union_l.
    + rewrite (decide_False (P := <[i:=x]> m = ∅)) by apply insert_non_empty.
      by case_decide.
Qed.

(** for k, v := range patchMap { baseMap[k] = v } *)
Lemma range_assign_spec (baseMap patchMap : GoMap) :
  pipeline.range_assign baseMap patchMap
  = match baseMap with
    | Some b => Some (Some (entries patchMap ∪ b))
    | None => if decide (entries patchMap = ∅) then Some None else None
    end.
Proof. apply range_fold. Qed.

(** What the encoder makes of a raw value, if anything. *)
Definition marshalled (r : RawMessage) : option json :=
  match marshal_raw r with
  | Ok v => Some v
  | Err _ => None
  end.

Lemma marshal_members_Forall2 (es : list (string * RawMessage))
    (ms : list (string * json)) :
  marshal_members es = Ok ms <->
  Forall2 (fun e m => fst e = fst m /\ marshal_raw (snd e) = Ok (snd m)) es ms.
Proof.
  revert ms. induction es as [|[k r] es IH]; simpl; intros ms.
  - split; [intros [= <-]; constructor|]. intros H. by inversion H.
  - split.
    + destruct (marshal_raw r) as [v|] eqn:Er; simpl; [|done].
      destruct (marshal_members es) as [vs|] eqn:Ees; simpl; [|done].
      intros [= <-]. constructor; [done|]. by apply IH.
    + intros H. inversion H as [|? [k' v] ? vs [Hk Hv] Hrest]; subst.
      simpl in *. subst. rewrite Hv. simpl.
      apply IH in Hrest. by rewrite Hrest.
Qed.

Lemma lookup_last_Forall2 {A B : Type} (R : A -> B -> Prop)
    (es : list (string * A)) (ms : list (string * B)) (k : string) :
  Forall2 (fun e m => fst e = fst m /\ R (snd e) (snd m)) es ms ->
  option_Forall2 R (lookup_last k es) (lookup_last k ms).
Proof.
  induction 1 as [|[k1 a] [k2 b] es ms [Hk HR] _ IH]; simpl in *; [constructor|].
  subst. destruct IH; [by constructor|]. case_decide; by constructor.
Qed.

Lemma Marshal_map_lookup (g : gmap string RawMessage) (out : RawMessage) :
  Marshal_map (Some g) = Ok out ->
  exists ms, out = Doc (JObj ms) /\ NoDup ms.*1 /\
    forall k, option_Forall2 (fun r v => marshal_raw r = Ok v) (g !! k) (lookup_last k ms).
Proof.
  simpl. destruct (marshal_members (sorted_entries g)) as [ms|] eqn:E; simpl; [|done].
  intros [= <-]. exists ms. apply marshal_members_Forall2 in E.
  split; [done|]. split.
  - replace (ms.*1) with ((sorted_entries g).*1); [apply sorted_entries_NoDup|].
    clear -E. induction E as [|[??] [??] ?? [? _] _ IH]; simpl in *; [done|].
    by f_equal.
  - intros k. rewrite <- (sorted_entries_lookup g k).
    by apply lookup_last_Forall2.
Qed.

Lemma Marshal_map_ok (g : gmap string RawMessage) :
  map_Forall (fun _ r => exists v, marshal_raw r = Ok v) g ->
  exists out, Marshal_map (Some g) = Ok out.
Proof.
  intros Hg. simpl.
  assert (Forall (fun e : string * RawMessage => exists v, marshal_raw (snd e) = Ok v)
                 (sorted_entries g)) as Hall.
  { apply Forall_forall. intros [k r] Hin. simpl.
    rewrite (sorted_entries_perm g) in Hin. apply elem_of_map_to_list in Hin.
    by apply (Hg k r). }
  induction Hall as [|[k r] es [v Hv] _ IH]; simpl in *; [by eexists|].
  rewrite Hv. simpl. destruct (marshal_members es); simpl; [by eexists|].
  by destruct IH.
Qed.

End GoJsonFacts.

(** ** The envelope codec *)

Module CodecFacts.

Import hook GoJsonFacts.

Definition top_level_object (data : RawMessage) : bool :=
  match data with
  | Doc (JObj _) => true
  | _ => false
  end.

(** The keys of the fields decoded as strings. *)
Definition string_keys : list string :=
  ["session_id"; "transcript_path"; "cwd"; "permission_mode"; "hook_event_name";
   "tool_name"; "tool_use_id"].

(** A member a string field accepts: absent, a string, or null. *)
Definition string_or_null (member : option json) : Prop :=
  match member with
  | None | Some (JStr _) | Some JNull => True
  | Some _ => False
  end.

(** The string a string field ends up with, decoding into the zero value. *)
Definition string_of (member : option json) : string :=
  match member with
  | Some (JStr s) => s
  | _ => EmptyString
  end.

Lemma known_field_members (ms : list (string * json)) (key : string) :
  string_or_null (lookup_last key ms) ->
  known_field (Some (members_to_map ms)) key EmptyString
  = Ok (string_of (lookup_last key ms)).
Proof.
  unfold known_field, map_get. rewrite members_to_map_lookup.
  by destruct (lookup_last key ms) as [[]|].
Qed.

(** Writing a decoded string field back changes nothing in the map. *)
Lemma overlay_known_field (g : gmap string RawMessage) (key s : string) :
  known_field (Some g) key EmptyString = Ok s -> overlay key s g = g.
Proof.
  unfold known_field, map_get, overlay.
  destruct (g !! key) as [[| |t|[]]|] eqn:E; simpl; try done.
  - intros [= <-]. by rewrite decide_True.
  - intros [= <-]. case_decide; [done|]. by apply insert_id.
  - intros [= <-]. by rewrite decide_True.
Qed.

Ltac known_fields :=
  repeat match goal with
         | |- context [known_field ?r ?k ?c] =>
             let E := fresh "Ek" in
             destruct (known_field r k c) eqn:E; simpl; [|discriminate]
         end.

(** Decoding an object keeps its members as the raw fields, and encoding
    the decoded envelope encodes exactly these. *)
Lemma Decode_object (ms : list (string * json)) (inp : Input) :
  Decode (Doc (JObj ms)) = Ok inp ->
  rawFields inp = Some (members_to_map ms)
  /\ MarshalJSON inp = Marshal_map (Some (members_to_map ms)).
Proof.
  unfold Decode, UnmarshalJSON. simpl. known_fields.
  intros [= <-]. split; [done|]. unfold MarshalJSON. simpl.
  repeat match goal with
         | H : known_field (Some ?g) ?k _ = Ok ?s |- context [overlay ?k ?s ?g] =>
             rewrite (overlay_known_field g k s H)
         end.
  destruct (members_to_map ms !! "tool_input") as [v|] eqn:E.
  - case_decide; [done|]. by rewrite insert_id.
  - by rewrite decide_True.
Qed.

Lemma Decode_cases (data : RawMessage) (inp : Input) :
  Decode data = Ok inp ->
  (data = Doc JNull /\ inp = zero_Input) \/ exists ms, data = Doc (JObj ms).
Proof.
  destruct data as [| |t|[]]; simpl; try done.
  - intros [= <-]. by left.
  - intros _. right. by eexists.
Qed.

(** C7: when Decode accepts an envelope, encoding the decoded value gives a
    JSON object, and every top-level key of the envelope is a key of that
    object, under which the object has the value the envelope had (the last
    one, if the envelope repeats the key); this holds for keys that are not
    fields of Input as for the others, and does not depend on the order of
    the keys. *)
Theorem Decode_then_Encode_retains_every_key (data : RawMessage) (inp : Input) :
  Decode data = Ok inp ->
  exists out,
    Encode inp = Ok (Doc (JObj out))
    /\ NoDup out.*1
    /\ forall ms, data = Doc (JObj ms) ->
         (forall k, k ∈ ms.*1 -> k ∈ out.*1)
         /\ (forall k, lookup_last k out = lookup_last k ms).
Proof.
  intros Hd. destruct (Decode_cases data inp Hd) as [[-> ->]|[ms ->]].
  - exists []. split; [by vm_compute|]. split; [constructor|]. intros ms [=].
  - destruct (Decode_object ms inp Hd) as [_ Hm]. unfold Encode. rewrite Hm.
    destruct (Marshal_map_ok (members_to_map ms)) as [b Hb].
    { intros k r Hr. rewrite members_to_map_lookup in Hr.
      destruct (lookup_last k ms) as [v|]; simpl in Hr; [|done].
      injection Hr as <-. by exists v. }
    rewrite Hb. destruct (Marshal_map_lookup _ _ Hb) as (out & -> & Hnd & Hl).
    exists out. split; [done|]. split; [done|]. intros ms' [= <-].
    assert (Hval : forall k, lookup_last k out = lookup_last k ms).
    { intros k. specialize (Hl k). rewrite members_to_map_lookup in Hl.
      destruct (lookup_last k ms) as [v|]; simpl in Hl;
        inversion Hl as [r w Hrw|]; subst; [|done].
      simpl in Hrw. by injection Hrw as ->. }
    split; [|done]. intros k Hk.
    assert (is_Some (lookup_last k ms)) as [v Hv].
    { clear -Hk. induction ms as [|[k' w] ms IH]; simpl in *.
      - by apply elem_of_nil in Hk.
      - apply elem_of_cons in Hk as [->|Hk].
        + destruct (lookup_last k' ms); [by eexists|]. rewrite decide_True by done.
          by eexists.
        + destruct (IH Hk) as [u ->]. by eexists. }
    rewrite <- Hval in Hv. apply lookup_last_elem_of in Hv; [|done].
    apply list_elem_of_fmap. by exists (k, v).
Qed.

(** TestInputRoundTrip *)
Lemma Decode_then_Encode_witness :
  exists inp out,
    Decode (Doc (JObj [("session_id", JStr "abc-123");
                       ("transcript_path", JStr "/tmp/session");
                       ("hook_event_name", JStr "PreToolUse");
                       ("tool_name", JStr "Bash");
                       ("tool_use_id", JStr "tu-456");
                       ("cwd", JStr "/home/user/project");
                       ("tool_input", JObj [("command", JStr "ls -la")]);
                       ("unknownField", JStr "should survive");
                       ("anotherUnknown", JNum "42")])) = Ok inp
    /\ Encode inp = Ok (Doc (JObj out))
    /\ lookup_last "unknownField" out = Some (JStr "should survive")
    /\ lookup_last "anotherUnknown" out = Some (JNum "42")
    /\ lookup_last "tool_input" out = Some (JObj [("command", JStr "ls -la")]).
Proof.
  eexists.
  destruct (Decode_then_Encode_retains_every_key
              (Doc (JObj [("session_id", JStr "abc-123");
                          ("transcript_path", JStr "/tmp/session");
                          ("hook_event_name", JStr "PreToolUse");
                          ("tool_name", JStr "Bash");
                          ("tool_use_id", JStr "tu-456");
                          ("cwd", JStr "/home/user/project");
                          ("tool_input", JObj [("command", JStr "ls -la")]);
                          ("unknownField", JStr "should survive");
                          ("anotherUnknown", JNum "42")])) _ eq_refl)
    as (out & Henc & _ & Hkeys).
  exists out. split; [reflexivity|]. split; [exact Henc|].
  destruct (Hkeys _ eq_refl) as [_ Hval].
  rewrite !Hval. repeat split.
Defined.

(** The claim C8 fails on null: its top level is not an object, and Decode
    accepts it. *)
Lemma Decode_accepts_null :
  top_level_object (Doc JNull) = false /\ Decode (Doc JNull) = Ok zero_Input.
Proof. split; reflexivity. Qed.

(** C8, amended: Decode fails with an error on every byte sequence that is
    not a JSON text and on every JSON text whose top level is neither an
    object nor null; it accepts null, as the envelope with no field; and it
    accepts an object whenever the members for the string fields, if any, are
    strings or null, then holding every top-level key of the object, with the
    value the object gives it, in its raw fields, and the known ones in the
    fields of Input. *)
Theorem Decode_accepts_objects_and_null :
  (forall data, top_level_object data = false -> data <> Doc JNull ->
     exists err, Decode data = Err err)
  /\ Decode (Doc JNull) = Ok zero_Input
  /\ (forall ms,
        Forall (fun key => string_or_null (lookup_last key ms)) string_keys ->
        exists inp,
          Decode (Doc (JObj ms)) = Ok inp
          /\ (forall k, map_get (rawFields inp) k = Doc <$> lookup_last k ms)
          /\ ToolInput inp = default Nil (Doc <$> lookup_last "tool_input" ms)
          /\ [SessionID inp; TranscriptPath inp; CWD inp; PermissionMode inp;
              HookEventName inp; ToolName inp; ToolUseID inp]
             = List.map (fun key => string_of (lookup_last key ms)) string_keys).
Proof.
  split; [|split].
  - intros [| |t|[]] Ho Hn; simpl in *; try done; by eexists.
  - reflexivity.
  - intros ms Hk. unfold string_keys in Hk.
    repeat (apply Forall_cons in Hk as [? Hk]).
    unfold Decode, UnmarshalJSON. simpl.
    rewrite !known_field_members by done. simpl.
    eexists. split; [reflexivity|]. simpl. split; [|split; [|done]].
    + intros k. apply members_to_map_lookup.
    + rewrite members_to_map_lookup. by destruct (lookup_last "tool_input" ms).
Qed.

(** An envelope with a null session id and a key that Input does not
    know. *)
Lemma Decode_accepts_witness :
  (exists err, Decode (Doc (JArr [])) = Err err)
  /\ (exists err, Decode (Malformed "{") = Err err)
  /\ exists inp,
       Decode (Doc (JObj [("session_id", JNull); ("tool_name", JStr "Bash");
                          ("extraField", JBool true)])) = Ok inp
       /\ map_get (rawFields inp) "extraField" = Some (Doc (JBool true))
       /\ map_get (rawFields inp) "session_id" = Some (Doc JNull)
       /\ ToolName inp = "Bash".
Proof.
  destruct Decode_accepts_objects_and_null as (Hrej & _ & Hacc).
  split; [by apply Hrej|]. split; [by apply Hrej|].
  destruct (Hacc [("session_id", JNull); ("tool_name", JStr "Bash");
                  ("extraField", JBool true)]) as (inp & Hd & Hraw & _ & Hf).
  { unfold string_keys.
    repeat (apply List.Forall_cons; [vm_compute; exact I|]). apply List.Forall_nil. }
  exists inp. split; [exact Hd|]. rewrite !Hraw.
  split; [reflexivity|]. split; [reflexivity|].
  injection Hf as _ _ _ _ _ Hname _. rewrite Hname. reflexivity.
Defined.

End CodecFacts.

(** ** The merge engine *)

Module MergeFacts.

Import pipeline GoJsonFacts.

Lemma union_members_lookup (bms pms : list (string * json)) (k : string) :
  (members_to_map pms ∪ members_to_map bms) !! k
  = Doc <$> match lookup_last k pms with
            | Some v => Some v
            | None => lookup_last k bms
            end.
Proof.
  rewrite lookup_union, !members_to_map_lookup.
  destruct (lookup_last k pms), (lookup_last k bms); done.
Qed.

(** Merging two objects never fails and never panics. *)
Lemma merge_objects (bms pms : list (string * json)) :
  exists ms,
    shallowMergeJSON (Doc (JObj bms)) (Doc (JObj pms)) = Done (Ok (Doc (JObj ms)))
    /\ NoDup ms.*1
    /\ forall k, lookup_last k ms = match lookup_last k pms with
                                    | Some v => Some v
                                    | None => lookup_last k bms
                                    end.
Proof.
  unfold shallowMergeJSON. simpl. rewrite range_assign_spec. simpl.
  set (g := members_to_map pms ∪ members_to_map bms).
  destruct (Marshal_map_ok g) as [out Hout].
  { intros k r Hr. unfold g in Hr. rewrite union_members_lookup in Hr.
    destruct (match lookup_last k pms with Some v => Some v | None => lookup_last k bms end)
      as [v|]; simpl in Hr; [|done].
    injection Hr as <-. by exists v. }
  change (match marshal_members (sorted_entries g) ≫= (fun ms => Ok (Doc (JObj ms))) with
          | Ok result => Done (Ok result)
          | Err err => Done (Err (Wrapped "shallowMergeJSON marshal" err))
          end) with
         (match Marshal_map (Some g) with
          | Ok result => Done (Ok result)
          | Err err => Done (Err (Wrapped "shallowMergeJSON marshal" err))
          end).
  rewrite Hout. destruct (Marshal_map_lookup g out Hout) as (ms & -> & Hnd & Hl).
  exists ms. split; [done|]. split; [done|]. intros k.
  specialize (Hl k). unfold g in Hl. rewrite union_members_lookup in Hl.
  destruct (match lookup_last k pms with Some v => Some v | None => lookup_last k bms end)
    as [v|]; simpl in Hl; inversion Hl as [r w Hrw|]; subst; [|done].
  simpl in Hrw. by injection Hrw as ->.
Qed.

(** C4: Merge of two absent operands is the distinguished no-value, which
    is not the empty object; an absent patch leaves the base and an absent
    base gives the patch; and for two JSON objects the result is the object
    that holds, under every top-level key, the value of the patch if the patch
    has the key and the value of the base otherwise, the values being taken
    whole. *)
Theorem merge_identities_and_shallow_union :
  (forall base patch, len_zero base = true -> len_zero patch = true ->
     shallowMergeJSON base patch = Done (Ok Nil))
  /\ Nil <> Doc (JObj [])
  /\ (forall base patch, len_zero base = false -> len_zero patch = true ->
        shallowMergeJSON base patch = Done (Ok base))
  /\ (forall base patch, len_zero base = true -> len_zero patch = false ->
        shallowMergeJSON base patch = Done (Ok patch))
  /\ (forall bms pms, exists ms,
        shallowMergeJSON (Doc (JObj bms)) (Doc (JObj pms)) = Done (Ok (Doc (JObj ms)))
        /\ NoDup ms.*1
        /\ forall k, lookup_last k ms = match lookup_last k pms with
                                        | Some v => Some v
                                        | None => lookup_last k bms
                                        end).
Proof.
  repeat split.
  - intros base patch Hb Hp. unfold shallowMergeJSON. by rewrite Hb, Hp.
  - discriminate.
  - intros base patch Hb Hp. unfold shallowMergeJSON. by rewrite Hb, Hp.
  - intros base patch Hb Hp. unfold shallowMergeJSON. by rewrite Hb, Hp.
  - apply merge_objects.
Qed.

(** TestShallowMerge_TopLevelKeyOverride, with a patch value of another
    shape than the value it replaces. *)
Lemma merge_identities_witness :
  shallowMergeJSON Nil Empty = Done (Ok Nil)
  /\ shallowMergeJSON (Doc (JObj [("command", JStr "ls")])) Nil
     = Done (Ok (Doc (JObj [("command", JStr "ls")])))
  /\ shallowMergeJSON Empty (Doc (JObj [("command", JStr "ls")]))
     = Done (Ok (Doc (JObj [("command", JStr "ls")])))
  /\ exists ms,
       shallowMergeJSON
         (Doc (JObj [("command", JStr "original"); ("flag", JStr "old")]))
         (Doc (JObj [("flag", JArr [JBool true])]))
       = Done (Ok (Doc (JObj ms)))
       /\ lookup_last "command" ms = Some (JStr "original")
       /\ lookup_last "flag" ms = Some (JArr [JBool true]).
Proof.
  destruct merge_identities_and_shallow_union as (H1 & _ & H2 & H3 & H4).
  split; [apply H1; reflexivity|]. split; [apply H2; reflexivity|].
  split; [apply H3; reflexivity|].
  destruct (H4 [("command", JStr "original"); ("flag", JStr "old")]
               [("flag", JArr [JBool true])]) as (ms & Hm & _ & Hl).
  exists ms. split; [exact Hm|]. rewrite !Hl. split; reflexivity.
Defined.

(** The example of the specification: a nested object is replaced, not
    combined. *)
Example merge_replaces_nested_object :
  shallowMergeJSON
    (Doc (JObj [("opts", JObj [("a", JNum "1"); ("b", JNum "2")])]))
    (Doc (JObj [("opts", JObj [("c", JNum "3")])]))
  = Done (Ok (Doc (JObj [("opts", JObj [("c", JNum "3")])]))).
Proof. vm_compute. reflexivity. Qed.

(** An operand that is present and is neither an object nor null is
    rejected with an error. *)
Definition rejected_by_map (data : RawMessage) : bool :=
  match data with
  | Doc JNull | Doc (JObj _) => false
  | _ => true
  end.

Lemma Unmarshal_map_rejects (data : RawMessage) :
  rejected_by_map data = true -> exists err, Unmarshal_map data = Err err.
Proof.
  destruct data as [| |t|[]]; simpl; try done; intros _; by eexists.
Qed.

Lemma merge_rejects_non_object (base patch : RawMessage) :
  len_zero base = false -> len_zero patch = false ->
  rejected_by_map base = true \/ rejected_by_map patch = true ->
  exists err, shallowMergeJSON base patch = Done (Err err).
Proof.
  intros Hb Hp H. unfold shallowMergeJSON. rewrite Hb, Hp. simpl.
  destruct H as [H|H].
  - destruct (Unmarshal_map_rejects base H) as [e ->]. by eexists.
  - destruct (Unmarshal_map base) as [bm|e]; [|by eexists].
    destruct (Unmarshal_map_rejects patch H) as [e ->]. by eexists.
Qed.

(** The JSON value null is present and is not an object, yet as a base it
    makes Merge panic on the first key of the patch, and as a patch it is
    accepted without any error. *)
Lemma merge_null_operand :
  shallowMergeJSON (Doc JNull) (Doc (JObj [("a", JNum "1")]))
  = Panic "assignment to entry in nil map"
  /\ shallowMergeJSON (Doc (JObj [("a", JNum "1")])) (Doc JNull)
     = Done (Ok (Doc (JObj [("a", JNum "1")])))
  /\ shallowMergeJSON (Doc JNull) (Doc (JObj [])) = Done (Ok (Doc JNull)).
Proof. vm_compute. repeat split. Qed.

End MergeFacts.

(** ** The execution engine *)

Module EngineFacts.

Import hook config pipeline GoJsonFacts MergeFacts.

Section Facts.

Context (lib : GoLib) {RunnerState AuditorState : Type}.
Context (runner_Run : RunnerState -> HookEntry -> RawMessage ->
                      RunnerState * res runner.Result).
Context (RecordChain : AuditorState -> audit.ChainExecution ->
                       AuditorState * option error).

Abbreviation step := (pipeline.step lib runner_Run).
Abbreviation loop := (pipeline.loop lib runner_Run).
Abbreviation Run := (pipeline.Run lib runner_Run RecordChain).
Abbreviation Fold := (@pipeline.Fold RunnerState).
Abbreviation Step := (@pipeline.Step RunnerState).

(** The variables of Run where a pass through the loop body stops. *)
Definition state_of (s : Step) : Fold :=
  match s with
  | Next st | Return _ _ _ st | Crash _ st => st
  end.

(** The sub-envelope a hook is given in state [st]. *)
Definition stdin_of (input : Input) (st : Fold) : res RawMessage :=
  Encode (WithToolInput input (accumulated st)).

(** The Runner's answer to hook [h] in state [st], on [bytes]. *)
Definition answer_of (h : HookEntry) (bytes : RawMessage) (st : Fold) : res runner.Result :=
  snd (runner_Run (runner_state st) h bytes).

Definition exit2_reason (h : HookEntry) (runRes : runner.Result) : string :=
  if decide (runner.Stderr runRes = EmptyString)
  then "hook " +:+ strconv_Quote lib (Name h) +:+ " denied (exit 2)"
  else runner.Stderr runRes.

(** A pass through the loop body calls the Runner once, unless the
    sub-envelope cannot be encoded. *)
Lemma step_calls (input : Input) (i : Z) (h : HookEntry) (st : Fold) :
  match stdin_of input st with
  | Err _ => calls (state_of (step input i h st)) = calls st
             /\ exists res o r, step input i h st = Return res o r st
  | Ok bytes =>
      calls (state_of (step input i h st))
      = calls st ++ [{| call_hook := h; call_input := bytes;
                        call_answer := answer_of h bytes st |}]
  end.
Proof.
  unfold stdin_of, answer_of, pipeline.step.
  destruct (Encode _) as [bytes|err]; [|simpl; eauto].
  destruct (runner_Run _ _ _) as [r' answer]. simpl.
  repeat (case_match || case_decide); simpl; try done.
Qed.

Lemma step_exit2 (input : Input) (i : Z) (h : HookEntry) (st : Fold)
    (bytes : RawMessage) (runRes : runner.Result) :
  stdin_of input st = Ok bytes ->
  answer_of h bytes st = Ok runRes ->
  runner.ExitCode runRes = 2 ->
  exists st', step input i h st
              = Return (denyResult (HookEventName input) (exit2_reason h runRes))
                       "deny" (exit2_reason h runRes) st'.
Proof.
  unfold stdin_of, answer_of, pipeline.step. intros -> Ha Hc.
  destruct (runner_Run _ _ _) as [r' answer]. simpl in Ha. subst answer.
  rewrite decide_True by done. by eexists.
Qed.

(** The loop only adds to the calls made. *)
Lemma loop_calls_prefix (input : Input) (hooks : list HookEntry) (i : Z) (st : Fold) :
  exists more, calls (state_of (loop input i hooks st)) = calls st ++ more.
Proof.
  revert i st. induction hooks as [|h rest IH]; intros i st; simpl.
  - exists []. by rewrite app_nil_r.
  - pose proof (step_calls input i h st) as Hs.
    destruct (stdin_of input st) as [bytes|err].
    + destruct (step input i h st) as [st'| |] eqn:Es; simpl in *.
      * destruct (IH (i + 1) st') as [more Hm]. rewrite Hm, Hs, <- app_assoc. eauto.
      * eauto.
      * eauto.
    + destruct Hs as [_ (res & o & r & ->)]. exists []. by rewrite app_nil_r.
Qed.

(** The [k]-th call of a run of the loop is the call for the [k]-th hook,
    made in the state [st_k] the hooks before it lead to, and what the loop
    does from there on is decided by the pass for that hook. *)
Lemma loop_call_at (input : Input) (hooks : list HookEntry) (i : Z) (st : Fold)
    (k : nat) (c : Call) :
  calls (state_of (loop input i hooks st)) !! (length (calls st) + k)%nat = Some c ->
  exists st_k h bytes,
    hooks !! k = Some h
    /\ loop input i (take k hooks) st = Next st_k
    /\ length (calls st_k) = (length (calls st) + k)%nat
    /\ stdin_of input st_k = Ok bytes
    /\ c = {| call_hook := h; call_input := bytes; call_answer := answer_of h bytes st_k |}
    /\ loop input i hooks st
       = match step input (i + Z.of_nat k) h st_k with
         | Next st' => loop input (i + Z.of_nat k + 1) (drop (S k) hooks) st'
         | stop => stop
         end.
Proof.
  revert i st k. induction hooks as [|h rest IH]; intros i st k; simpl.
  - intros H. apply lookup_lt_Some in H. lia.
  - pose proof (step_calls input i h st) as Hs. intros Hc.
    destruct (stdin_of input st) as [bytes|err] eqn:Ein.
    + destruct k as [|k].
      * exists st, h, bytes. simpl. rewrite Nat.add_0_r, Z.add_0_r in *.
        repeat split; try done.
        destruct (step input i h st) as [st'| |] eqn:Es; simpl in *.
        -- destruct (loop_calls_prefix input rest (i + 1) st') as [more Hm].
           rewrite Hm, Hs, <- app_assoc in Hc.
           rewrite lookup_app_r in Hc by lia. rewrite Nat.sub_diag in Hc.
           simpl in Hc. congruence.
        -- rewrite Hs, lookup_app_r in Hc by lia. rewrite Nat.sub_diag in Hc.
           simpl in Hc. congruence.
        -- rewrite Hs, lookup_app_r in Hc by lia. rewrite Nat.sub_diag in Hc.
           simpl in Hc. congruence.
      * destruct (step input i h st) as [st'| |] eqn:Es; simpl in *.
        -- destruct (IH (i + 1) st' k) as (st_k & h' & bytes' & H1 & H2 & H3 & H4 & H5 & H6).
           { rewrite Hs, length_app. simpl.
             by replace (length (calls st) + 1 + k)%nat with (length (calls st) + S k)%nat by lia. }
           exists st_k, h', bytes'. rewrite Es.
           replace (i + Z.of_nat (S k)) with (i + 1 + Z.of_nat k) by lia.
           repeat split; try done.
           rewrite H3, Hs, length_app. simpl. lia.
        -- rewrite Hs in Hc. apply lookup_lt_Some in Hc.
           rewrite length_app in Hc. simpl in Hc. lia.
        -- rewrite Hs in Hc. apply lookup_lt_Some in Hc.
           rewrite length_app in Hc. simpl in Hc. lia.
    + destruct Hs as [Hs (res & o & r & Es)]. rewrite Es in *. simpl in *.
      apply lookup_lt_Some in Hc. lia.
Qed.

(** The state in which Run enters its loop. *)
Definition initial (input : Input) (r : RunnerState) : Fold :=
  {| accumulated := ToolInput input; contextParts := []; hookResults := [];
     runner_state := r; calls := [] |}.

Lemma bytes_Equal_refl (b : RawMessage) : bytes_Equal b b = true.
Proof. destruct b; simpl; try done; by apply bool_decide_eq_true. Qed.

Lemma finish_initial (input : Input) (r : RunnerState) :
  finish lib input (initial input r)
  = ({| ExitCode := 0; Output := Nil |}, "allow", EmptyString).
Proof.
  unfold finish. simpl. by rewrite bytes_Equal_refl.
Qed.

(** Run, read off the loop. *)
Lemma Run_calls (input : Input) (hooks : list HookEntry) (r : RunnerState)
    (auditor : option AuditorState) :
  runner_calls (Run input hooks r auditor)
  = calls (state_of (loop input 0 hooks (initial input r))).
Proof.
  unfold pipeline.Run. destruct hooks as [|h rest].
  - by destruct (recordAudit _ _ _ _ _ _ _).
  - fold (initial input r). destruct (loop _ _ _ _) as [st|res o rs st|msg st]; simpl.
    + destruct (finish lib input st) as [[res o] rs].
      by destruct (recordAudit _ _ _ _ _ _ _).
    + by destruct (recordAudit _ _ _ _ _ _ _).
    + done.
Qed.

Lemma Run_returned (input : Input) (hooks : list HookEntry) (r : RunnerState)
    (auditor : option AuditorState) :
  returned (Run input hooks r auditor)
  = match loop input 0 hooks (initial input r) with
    | Next st => Done (fst (fst (finish lib input st)))
    | Return res _ _ _ => Done res
    | Crash msg _ => Panic msg
    end.
Proof.
  unfold pipeline.Run. destruct hooks as [|h rest].
  - simpl. rewrite finish_initial. by destruct (recordAudit _ _ _ _ _ _ _).
  - fold (initial input r). destruct (loop _ _ _ _) as [st|res o rs st|msg st]; simpl.
    + destruct (finish lib input st) as [[res o] rs].
      by destruct (recordAudit _ _ _ _ _ _ _).
    + by destruct (recordAudit _ _ _ _ _ _ _).
    + done.
Qed.

(** The bodies denyResult and buildDecisionResult write. *)
Definition decision_body (eventName decision reason : string) : RawMessage :=
  Doc (JObj [("hookSpecificOutput",
              JObj (omit_string "hookEventName" eventName
                    ++ [("permissionDecision", JStr decision)]
                    ++ omit_string "permissionDecisionReason" reason))]).

Lemma omit_string_empty (key : string) : omit_string key EmptyString = [].
Proof. unfold omit_string. by rewrite decide_True. Qed.

Lemma omit_string_present (key s : string) :
  s <> EmptyString -> omit_string key s = [(key, JStr s)].
Proof. intros H. unfold omit_string. by rewrite decide_False. Qed.

Lemma denyResult_body (eventName reason : string) :
  denyResult eventName reason
  = {| ExitCode := 2; Output := decision_body eventName "deny" reason |}.
Proof.
  unfold denyResult, decision_body, Marshal_Output, marshal_HookSpecificOutput.
  simpl. by rewrite !omit_string_empty, app_nil_r.
Qed.

Lemma buildDecisionResult_body (eventName decision reason : string) :
  decision <> EmptyString ->
  buildDecisionResult eventName decision reason
  = {| ExitCode := if decide (decision = "deny") then 2 else 0;
       Output := decision_body eventName decision reason |}.
Proof.
  intros Hd.
  unfold buildDecisionResult, decision_body, Marshal_Output, marshal_HookSpecificOutput.
  simpl. rewrite (omit_string_present "permissionDecision") by done.
  by rewrite !omit_string_empty, app_nil_r.
Qed.

Lemma exit2_reason_spec (h : HookEntry) (runRes : runner.Result) :
  exit2_reason h runRes <> EmptyString
  /\ (runner.Stderr runRes <> EmptyString -> exit2_reason h runRes = runner.Stderr runRes)
  /\ (runner.Stderr runRes = EmptyString ->
      exit2_reason h runRes = "hook " +:+ strconv_Quote lib (Name h) +:+ " denied (exit 2)").
Proof.
  unfold exit2_reason. case_decide; repeat split; try done.
Qed.

Lemma Unmarshal_Output_not_blank (stdout : RawMessage) (output : hook.Output) :
  Unmarshal_Output stdout = Ok output -> len_zero stdout = false.
Proof. by destruct stdout. Qed.

Lemma step_decision (input : Input) (i : Z) (h : HookEntry) (st : Fold)
    (bytes : RawMessage) (runRes : runner.Result) (output : hook.Output) :
  stdin_of input st = Ok bytes ->
  answer_of h bytes st = Ok runRes ->
  runner.ExitCode runRes = 0 ->
  Unmarshal_Output (runner.Stdout runRes) = Ok output ->
  permissionDecision (hookSpecificOutput output) = "deny"
  \/ permissionDecision (hookSpecificOutput output) = "ask" ->
  exists st', step input i h st
              = Return (buildDecisionResult (HookEventName input)
                          (permissionDecision (hookSpecificOutput output))
                          (permissionDecisionReason (hookSpecificOutput output)))
                       (permissionDecision (hookSpecificOutput output))
                       (permissionDecisionReason (hookSpecificOutput output)) st'.
Proof.
  unfold stdin_of, answer_of, pipeline.step. intros -> Ha Hc Hout Hd.
  destruct (runner_Run _ _ _) as [r' answer]. simpl in Ha. subst answer.
  rewrite decide_False by lia. rewrite decide_False by lia.
  rewrite (Unmarshal_Output_not_blank _ _ Hout), Hout.
  destruct Hd as [Hd|Hd]; rewrite Hd.
  - rewrite decide_True by done. by eexists.
  - rewrite decide_False by done. rewrite decide_True by done. by eexists.
Qed.

(** What a call that ends the run leaves: the run returns what the pass for
    that hook returns, and the call is the last one. *)
Lemma Run_stops_at (input : Input) (hooks : list HookEntry) (r : RunnerState)
    (auditor : option AuditorState) (k : nat) (c : Call) :
  runner_calls (Run input hooks r auditor) !! k = Some c ->
  exists st_k bytes,
    hooks !! k = Some (call_hook c)
    /\ stdin_of input st_k = Ok bytes
    /\ call_answer c = answer_of (call_hook c) bytes st_k
    /\ forall res o rs st',
         step input (Z.of_nat k) (call_hook c) st_k = Return res o rs st' ->
         returned (Run input hooks r auditor) = Done res
         /\ length (runner_calls (Run input hooks r auditor)) = S k.
Proof.
  rewrite Run_calls, Run_returned. intros Hc.
  destruct (loop_call_at input hooks 0 (initial input r) k c Hc)
    as (st_k & h & bytes & Hh & _ & Hlen & Hin & -> & Hloop).
  exists st_k, bytes. simpl. repeat split; try done.
  - rewrite Z.add_0_l in Hloop. rewrite Hloop, H. done.
  - rewrite Z.add_0_l in Hloop. rewrite Hloop, H. simpl.
    pose proof (step_calls input (Z.of_nat k) h st_k) as Hs.
    rewrite Hin, H in Hs. simpl in Hs. rewrite Hs, length_app, Hlen. simpl. lia.
Qed.

(** C1: whenever the Runner answers a hook with exit code 2, Run returns
    at once with a deny Result of exit code 2, whatever the hook's on_error
    policy is; the call for that hook is the last call made; and the reason of
    the deny is the hook's stderr when that is not empty, and otherwise the
    text naming the hook as denied with exit 2. *)
Theorem exit_code_2_denies_unconditionally (input : Input) (hooks : list HookEntry)
    (r : RunnerState) (auditor : option AuditorState)
    (k : nat) (c : Call) (runRes : runner.Result) :
  runner_calls (Run input hooks r auditor) !! k = Some c ->
  call_answer c = Ok runRes ->
  runner.ExitCode runRes = 2 ->
  exists reason,
    hooks !! k = Some (call_hook c)
    /\ returned (Run input hooks r auditor)
       = Done {| ExitCode := 2;
                 Output := decision_body (HookEventName input) "deny" reason |}
    /\ length (runner_calls (Run input hooks r auditor)) = S k
    /\ reason <> EmptyString
    /\ (runner.Stderr runRes <> EmptyString -> reason = runner.Stderr runRes)
    /\ (runner.Stderr runRes = EmptyString ->
        reason = "hook " +:+ strconv_Quote lib (Name (call_hook c)) +:+ " denied (exit 2)").
Proof.
  intros Hc Ha Hcode.
  destruct (Run_stops_at input hooks r auditor k c Hc) as (st_k & bytes & Hh & Hin & Hans & Hstop).
  rewrite Ha in Hans. symmetry in Hans.
  destruct (step_exit2 input (Z.of_nat k) (call_hook c) st_k bytes runRes Hin Hans Hcode)
    as [st' Hstep].
  destruct (Hstop _ _ _ _ Hstep) as [Hret Hlen].
  exists (exit2_reason (call_hook c) runRes).
  rewrite Hret, denyResult_body.
  destruct (exit2_reason_spec (call_hook c) runRes) as (? & ? & ?).
  repeat split; done.
Qed.

Lemma decision_body_decodes (eventName decision reason : string) :
  decision = "deny" \/ decision = "ask" ->
  Unmarshal_Output (decision_body eventName decision reason)
  = Ok {| hookSpecificOutput :=
            {| hookEventName := eventName; permissionDecision := decision;
               permissionDecisionReason := reason;
               updatedInput := Nil; additionalContext := EmptyString |};
          continue := None; suppressOutput := None; systemMessage := EmptyString |}.
Proof.
  intros [-> | ->]; unfold decision_body, omit_string;
    repeat case_decide; subst; reflexivity.
Qed.

Lemma Run_decision (input : Input) (hooks : list HookEntry)
    (r : RunnerState) (auditor : option AuditorState)
    (k : nat) (c : Call) (runRes : runner.Result) (output : hook.Output) :
  runner_calls (Run input hooks r auditor) !! k = Some c ->
  call_answer c = Ok runRes ->
  runner.ExitCode runRes = 0 ->
  Unmarshal_Output (runner.Stdout runRes) = Ok output ->
  permissionDecision (hookSpecificOutput output) = "deny"
  \/ permissionDecision (hookSpecificOutput output) = "ask" ->
  returned (Run input hooks r auditor)
  = Done {| ExitCode := if decide (permissionDecision (hookSpecificOutput output) = "deny")
                        then 2 else 0;
            Output := decision_body (HookEventName input)
                        (permissionDecision (hookSpecificOutput output))
                        (permissionDecisionReason (hookSpecificOutput output)) |}
  /\ length (runner_calls (Run input hooks r auditor)) = S k.
Proof.
  intros Hc Ha Hcode Hout Hd.
  destruct (Run_stops_at input hooks r auditor k c Hc) as (st_k & bytes & Hh & Hin & Hans & Hstop).
  rewrite Ha in Hans. symmetry in Hans.
  destruct (step_decision input (Z.of_nat k) (call_hook c) st_k bytes runRes output
              Hin Hans Hcode Hout Hd) as [st' Hstep].
  destruct (Hstop _ _ _ _ Hstep) as [Hret Hlen].
  rewrite Hret, buildDecisionResult_body by (destruct Hd as [-> | ->]; done).
  done.
Qed.

(** C2: whenever a hook exits with code 0 and its output decodes to an
    envelope whose permission decision is deny or ask, Run returns at once,
    with exit code 2 for deny and 0 for ask, and with a decision body that
    carries that decision and the envelope's reason; the call for that hook is
    the last call made; the hook's on_error policy plays no part. *)
Theorem explicit_decision_short_circuits (input : Input) (hooks : list HookEntry)
    (r : RunnerState) (auditor : option AuditorState)
    (k : nat) (c : Call) (runRes : runner.Result) (output : hook.Output) :
  runner_calls (Run input hooks r auditor) !! k = Some c ->
  call_answer c = Ok runRes ->
  runner.ExitCode runRes = 0 ->
  Unmarshal_Output (runner.Stdout runRes) = Ok output ->
  permissionDecision (hookSpecificOutput output) = "deny"
  \/ permissionDecision (hookSpecificOutput output) = "ask" ->
  returned (Run input hooks r auditor)
  = Done {| ExitCode := if decide (permissionDecision (hookSpecificOutput output) = "deny")
                        then 2 else 0;
            Output := decision_body (HookEventName input)
                        (permissionDecision (hookSpecificOutput output))
                        (permissionDecisionReason (hookSpecificOutput output)) |}
  /\ Unmarshal_Output
       (decision_body (HookEventName input)
          (permissionDecision (hookSpecificOutput output))
          (permissionDecisionReason (hookSpecificOutput output)))
     = Ok {| hookSpecificOutput :=
               {| hookEventName := HookEventName input;
                  permissionDecision := permissionDecision (hookSpecificOutput output);
                  permissionDecisionReason :=
                    permissionDecisionReason (hookSpecificOutput output);
                  updatedInput := Nil; additionalContext := EmptyString |};
             continue := None; suppressOutput := None; systemMessage := EmptyString |}
  /\ length (runner_calls (Run input hooks r auditor)) = S k.
Proof.
  intros Hc Ha Hcode Hout Hd.
  destruct (Run_decision input hooks r auditor k c runRes output Hc Ha Hcode Hout Hd)
    as [Hret Hlen].
  repeat split; try done.
  by apply decision_body_decodes.
Qed.

(** C10: the body Run writes when a hook short-circuits the chain with an
    explicit deny or ask holds one member, hookSpecificOutput, whose only
    fields are the event name, the permission decision and the decision
    reason: neither the input merged by earlier hooks nor the context they
    contributed is written, whatever the fold had accumulated. *)
Theorem decision_body_drops_accumulated_state (input : Input) (hooks : list HookEntry)
    (r : RunnerState) (auditor : option AuditorState)
    (k : nat) (c : Call) (runRes : runner.Result) (output : hook.Output) :
  runner_calls (Run input hooks r auditor) !! k = Some c ->
  call_answer c = Ok runRes ->
  runner.ExitCode runRes = 0 ->
  Unmarshal_Output (runner.Stdout runRes) = Ok output ->
  permissionDecision (hookSpecificOutput output) = "deny"
  \/ permissionDecision (hookSpecificOutput output) = "ask" ->
  exists code fields,
    returned (Run input hooks r auditor)
    = Done {| ExitCode := code;
              Output := Doc (JObj [("hookSpecificOutput", JObj fields)]) |}
    /\ (forall key v, (key, v) ∈ fields ->
          (key = "hookEventName" /\ v = JStr (HookEventName input))
          \/ (key = "permissionDecision"
              /\ v = JStr (permissionDecision (hookSpecificOutput output)))
          \/ (key = "permissionDecisionReason"
              /\ v = JStr (permissionDecisionReason (hookSpecificOutput output))))
    /\ lookup_last "updatedInput" fields = None
    /\ lookup_last "additionalContext" fields = None.
Proof.
  intros Hc Ha Hcode Hout Hd.
  destruct (Run_decision input hooks r auditor k c runRes output Hc Ha Hcode Hout Hd)
    as [Hret _].
  rewrite Hret. unfold decision_body. do 2 eexists. split; [reflexivity|].
  generalize (HookEventName input) (permissionDecision (hookSpecificOutput output))
             (permissionDecisionReason (hookSpecificOutput output)).
  intros ev d rs. unfold omit_string. split; [|split].
  - intros key v Hin. repeat case_decide; simpl in Hin;
      repeat (apply elem_of_cons in Hin as [Hin|Hin]; [injection Hin as -> ->; tauto|]);
      by apply elem_of_nil in Hin.
  - repeat case_decide; reflexivity.
  - repeat case_decide; reflexivity.
Qed.

(** The answers of the Runner that on_error=skip absorbs: an error of the
    Runner itself, an exit code other than 0 and 2, and, on exit code 0,
    output that is not blank and does not decode as an Output. *)
Definition absorbed_by_skip (answer : res runner.Result) : Prop :=
  match answer with
  | Err _ => True
  | Ok runRes =>
      (runner.ExitCode runRes <> 0 /\ runner.ExitCode runRes <> 2)
      \/ (runner.ExitCode runRes = 0
          /\ len_zero (runner.Stdout runRes) = false
          /\ exists err, Unmarshal_Output (runner.Stdout runRes) = Err err)
  end.

(** C6: for a hook whose on_error policy is skip, a Runner error, an exit
    code other than 0 and 2, or output on exit 0 that does not decode, makes
    the pass record the hook as skipped, in one record added to the records
    kept so far, with the index of the hook in the chain, the name of the
    hook, the outcome skip and the exit code the Runner answered with (-1 for
    an error of the Runner), and the loop go on with the next hook, the
    accumulated state and the context list being what they were; exit code 2
    and an explicit deny or ask are not absorbed: the pass returns the deny or
    the decision. *)
Theorem skip_absorbs_failures_only (input : Input) (i : Z) (h : HookEntry)
    (rest : list HookEntry) (st : Fold) (bytes : RawMessage) :
  EffectiveOnError h = "skip" ->
  stdin_of input st = Ok bytes ->
  (absorbed_by_skip (answer_of h bytes st) ->
   exists st' hr,
     step input i h st = Next st'
     /\ loop input i (h :: rest) st = loop input (i + 1) rest st'
     /\ accumulated st' = accumulated st
     /\ contextParts st' = contextParts st
     /\ hookResults st' = hookResults st ++ [hr]
     /\ audit.HookIndex hr = i
     /\ audit.HookName hr = Name h
     /\ audit.HookOutcome hr = "skip"
     /\ audit.ExitCode hr = match answer_of h bytes st with
                            | Ok runRes => runner.ExitCode runRes
                            | Err _ => -1
                            end)
  /\ (forall runRes,
        answer_of h bytes st = Ok runRes -> runner.ExitCode runRes = 2 ->
        exists reason st',
          loop input i (h :: rest) st
          = Return {| ExitCode := 2;
                      Output := decision_body (HookEventName input) "deny" reason |}
                   "deny" reason st')
  /\ (forall runRes output,
        answer_of h bytes st = Ok runRes -> runner.ExitCode runRes = 0 ->
        Unmarshal_Output (runner.Stdout runRes) = Ok output ->
        permissionDecision (hookSpecificOutput output) = "deny"
        \/ permissionDecision (hookSpecificOutput output) = "ask" ->
        exists st',
          loop input i (h :: rest) st
          = Return {| ExitCode :=
                        if decide (permissionDecision (hookSpecificOutput output) = "deny")
                        then 2 else 0;
                      Output := decision_body (HookEventName input)
                                  (permissionDecision (hookSpecificOutput output))
                                  (permissionDecisionReason (hookSpecificOutput output)) |}
                   (permissionDecision (hookSpecificOutput output))
                   (permissionDecisionReason (hookSpecificOutput output)) st').
Proof.
  intros Hskip Hin. split; [|split].
  - intros Habs. simpl.
    unfold stdin_of, answer_of, pipeline.step in *. rewrite Hin.
    destruct (runner_Run _ _ _) as [r' answer]. simpl in Habs.
    destruct answer as [runRes|err]; simpl in Habs.
    + destruct Habs as [[Hn0 Hn2]|(H0 & Hnb & err & Herr)].
      * rewrite decide_False by done. rewrite decide_True by done.
        rewrite decide_True by done. do 2 eexists. repeat split; reflexivity.
      * rewrite decide_False by lia. rewrite decide_False by lia.
        rewrite Hnb, Herr. rewrite decide_True by done.
        do 2 eexists. repeat split; try reflexivity. simpl. lia.
    + rewrite decide_True by done. do 2 eexists. repeat split; reflexivity.
  - intros runRes Ha Hcode.
    destruct (step_exit2 input i h st bytes runRes Hin Ha Hcode) as [st' Hstep].
    simpl. rewrite Hstep, denyResult_body. eauto.
  - intros runRes output Ha Hcode Hout Hd.
    destruct (step_decision input i h st bytes runRes output Hin Ha Hcode Hout Hd)
      as [st' Hstep].
    simpl. rewrite Hstep, buildDecisionResult_body by (destruct Hd as [-> | ->]; done).
    eauto.
Qed.

(** A failure of the merge denies the chain, whatever the hook's on_error
    policy is. *)
Lemma merge_error_denies (input : Input) (i : Z) (h : HookEntry) (rest : list HookEntry)
    (st : Fold) (bytes : RawMessage) (runRes : runner.Result) (output : hook.Output)
    (err : error) :
  stdin_of input st = Ok bytes ->
  answer_of h bytes st = Ok runRes ->
  runner.ExitCode runRes = 0 ->
  Unmarshal_Output (runner.Stdout runRes) = Ok output ->
  permissionDecision (hookSpecificOutput output) <> "deny" ->
  permissionDecision (hookSpecificOutput output) <> "ask" ->
  len_zero (updatedInput (hookSpecificOutput output)) = false ->
  shallowMergeJSON (accumulated st) (updatedInput (hookSpecificOutput output))
  = Done (Err err) ->
  exists reason logged st',
    loop input i (h :: rest) st
    = Return {| ExitCode := 2;
                Output := decision_body (HookEventName input) "deny" reason |}
             "error" logged st'.
Proof.
  unfold stdin_of, answer_of. intros Hin Ha Hcode Hout Hnd Hna Hui Hm. simpl.
  unfold pipeline.step. rewrite Hin.
  destruct (runner_Run _ _ _) as [r' answer]. simpl in Ha. subst answer.
  rewrite decide_False by lia. rewrite decide_False by lia.
  rewrite (Unmarshal_Output_not_blank _ _ Hout), Hout.
  rewrite decide_False by done. rewrite decide_False by done.
  rewrite Hui. simpl. rewrite Hm, denyResult_body. eauto.
Qed.

(** C3, amended: when both operands are present, Merge fails with an error
    whenever one of them is neither a JSON object nor null; when the merge
    of a hook's updatedInput into the accumulated state fails in this way, the
    loop returns a Deny with exit code 2, whatever the hook's on_error policy
    is; and when only one operand is present, Merge returns that operand as it
    is, whatever it holds, and there is no error. *)
Theorem merge_failure_is_fatal :
  (forall base patch,
     len_zero base = false -> len_zero patch = false ->
     rejected_by_map base = true \/ rejected_by_map patch = true ->
     exists err, shallowMergeJSON base patch = Done (Err err))
  /\ (forall input i h rest (st : Fold) bytes runRes output,
        stdin_of input st = Ok bytes ->
        answer_of h bytes st = Ok runRes ->
        runner.ExitCode runRes = 0 ->
        Unmarshal_Output (runner.Stdout runRes) = Ok output ->
        permissionDecision (hookSpecificOutput output) <> "deny" ->
        permissionDecision (hookSpecificOutput output) <> "ask" ->
        len_zero (accumulated st) = false ->
        len_zero (updatedInput (hookSpecificOutput output)) = false ->
        rejected_by_map (accumulated st) = true
        \/ rejected_by_map (updatedInput (hookSpecificOutput output)) = true ->
        exists reason logged st',
          loop input i (h :: rest) st
          = Return {| ExitCode := 2;
                      Output := decision_body (HookEventName input) "deny" reason |}
                   "error" logged st')
  /\ (forall base patch,
        len_zero base = true -> len_zero patch = false ->
        shallowMergeJSON base patch = Done (Ok patch))
  /\ (forall base patch,
        len_zero base = false -> len_zero patch = true ->
        shallowMergeJSON base patch = Done (Ok base)).
Proof.
  split; [apply merge_rejects_non_object|]. split; [|split].
  - intros input i h rest st bytes runRes output Hin Ha Hcode Hout Hnd Hna Hacc Hui Hrej.
    destruct (merge_rejects_non_object _ _ Hacc Hui Hrej) as [err Herr].
    by apply (merge_error_denies input i h rest st bytes runRes output err).
  - intros base patch Hb Hp. unfold shallowMergeJSON. by rewrite Hb, Hp.
  - intros base patch Hb Hp. unfold shallowMergeJSON. by rewrite Hb, Hp.
Qed.

(** Every way out of Run other than a panic passes through recordAudit
    once. *)
Lemma one_audit_record (input : Input) (hooks : list HookEntry) (r : RunnerState)
    (a : AuditorState) (res : Result) :
  returned (Run input hooks r (Some a)) = Done res ->
  exists entry,
    audit_records (Run input hooks r (Some a)) = [entry]
    /\ audit.ChainLen entry = Z.of_nat (length hooks)
    /\ auditor_after (Run input hooks r (Some a)) = Some (fst (RecordChain a entry)).
Proof.
  unfold pipeline.Run. destruct hooks as [|h rest].
  - simpl. destruct (RecordChain a _) eqn:E. simpl. intros _.
    eexists. split; [reflexivity|]. split; [reflexivity|]. by rewrite E.
  - destruct (pipeline.loop _ _ _ _ _ _) as [st|res' o rs st|msg st].
    + destruct (finish lib input st) as [[res' o] rs]. simpl.
      destruct (RecordChain a _) eqn:E. simpl. intros _.
      eexists. split; [reflexivity|]. split; [reflexivity|]. by rewrite E.
    + simpl. destruct (RecordChain a _) eqn:E. simpl. intros _.
      eexists. split; [reflexivity|]. split; [reflexivity|]. by rewrite E.
    + simpl. discriminate.
Qed.

(** Without hooks: exit 0, no body, one record with outcome allow and chain
    length 0. *)
Lemma empty_chain (input : Input) (r : RunnerState) (a : AuditorState) :
  returned (Run input [] r (Some a)) = Done {| ExitCode := 0; Output := Nil |}
  /\ runner_calls (Run input [] r (Some a)) = []
  /\ exists entry,
       audit_records (Run input [] r (Some a)) = [entry]
       /\ audit.Outcome entry = "allow"
       /\ audit.ChainLen entry = 0
       /\ audit.Hooks entry = [].
Proof.
  unfold pipeline.Run. simpl. destruct (RecordChain a _). simpl.
  repeat split. eexists. repeat split.
Qed.

End Facts.

(** *** Structural equality and normalizeJSON *)

Section Structural.

Context (lib : GoLib).

(** Equality of JSON values as the specification words it: structural and
    independent of the order of keys.  Two numbers are equal when they are
    written alike or are read as the same float64; an object is what its keys
    map to, the last member with a key counting. *)
Unset Elimination Schemes.
Inductive same_json : json -> json -> Prop :=
| same_null : same_json JNull JNull
| same_bool (b : bool) : same_json (JBool b) (JBool b)
| same_num (l1 l2 : string) :
    l1 = l2 \/ (exists x, ParseFloat lib l1 = Some x /\ ParseFloat lib l2 = Some x) ->
    same_json (JNum l1) (JNum l2)
| same_str (s : string) : same_json (JStr s) (JStr s)
| same_arr (xs ys : list json) :
    Forall2 same_json xs ys -> same_json (JArr xs) (JArr ys)
| same_obj (ms1 ms2 : list (string * json)) :
    (forall k, option_Forall2 same_json (lookup_last k ms1) (lookup_last k ms2)) ->
    same_json (JObj ms1) (JObj ms2).

(** A JSON value all of whose numbers, at any depth, are within the range
    of float64. *)
Inductive in_float64 : json -> Prop :=
| fits_null : in_float64 JNull
| fits_bool (b : bool) : in_float64 (JBool b)
| fits_num (l : string) (x : float64 lib) : ParseFloat lib l = Some x -> in_float64 (JNum l)
| fits_str (s : string) : in_float64 (JStr s)
| fits_arr (xs : list json) : Forall in_float64 xs -> in_float64 (JArr xs)
| fits_obj (ms : list (string * json)) :
    Forall (fun kv => in_float64 (snd kv)) ms -> in_float64 (JObj ms).
Set Elimination Schemes.

(** The same for raw values: two absent values are equal, two JSON texts
    are equal when their documents are, and text that is not JSON equals only
    itself. *)
Definition structurally_equal (a b : RawMessage) : Prop :=
  match a, b with
  | (Nil | Empty), (Nil | Empty) => True
  | Malformed s, Malformed t => s = t
  | Doc v, Doc w => same_json v w
  | _, _ => False
  end.

Definition numbers_fit (data : RawMessage) : Prop :=
  match data with
  | Doc v => in_float64 v
  | _ => True
  end.

Lemma lookup_last_In {A : Type} (k : string) (ms : list (string * A)) (v : A) :
  lookup_last k ms = Some v -> (k, v) ∈ ms.
Proof.
  induction ms as [|[k' w] ms IH]; simpl; [done|].
  destruct (lookup_last k ms) as [u|].
  - intros [= <-]. right. by apply IH.
  - case_decide; [|done]. intros [= <-]. subst. by left.
Qed.

(** json.Unmarshal into [any] succeeds exactly on the values whose numbers
    are all within float64. *)
Lemma normal_in_float64 (v : json) : in_float64 v <-> is_Some (normal lib v).
Proof.
  induction v as [|b|l|s|xs IH|ms IH] using json_deep_ind; simpl.
  - split; [by eexists|constructor].
  - split; [by eexists|constructor].
  - split.
    + inversion 1 as [| |l' x Hx| | |]; subst. rewrite Hx. by eexists.
    + destruct (ParseFloat lib l) as [x|] eqn:E; simpl; [|by intros [? ?]].
      intros _. by apply (fits_num l x).
  - split; [by eexists|constructor].
  - split.
    + inversion 1 as [| | | |xs' Hxs|]; subst.
      assert (is_Some (mapM (normal lib) xs)) as [xs' ->]; [|by eexists].
      apply mapM_is_Some. rewrite Forall_forall in *. intros x Hx. unfold compose.
      by apply (IH x Hx), (Hxs x Hx).
    + destruct (mapM (normal lib) xs) as [xs'|] eqn:E; simpl; [|by intros [? ?]].
      intros _. constructor. assert (is_Some (mapM (normal lib) xs)) as Hs by by eexists.
      apply mapM_is_Some in Hs. rewrite Forall_forall in *. intros x Hx.
      by apply (IH x Hx), (Hs x Hx).
  - split.
    + inversion 1 as [| | | | |ms' Hms]; subst.
      assert (is_Some (mapM (fun kv => w ← normal lib (snd kv); Some (fst kv, w)) ms))
        as [ms' ->]; [|by eexists].
      apply mapM_is_Some. rewrite Forall_forall in *. intros kv Hkv.
      unfold compose. destruct (proj1 (IH kv Hkv) (Hms kv Hkv)) as [w Hw].
      rewrite Hw. by eexists.
    + destruct (mapM _ ms) as [ms'|] eqn:E; simpl; [|by intros [? ?]].
      intros _. constructor.
      assert (is_Some (mapM (fun kv => w ← normal lib (snd kv); Some (fst kv, w)) ms))
        as Hs by by eexists.
      apply mapM_is_Some in Hs. rewrite Forall_forall in *. intros kv Hkv.
      apply (IH kv Hkv). destruct (Hs kv Hkv) as [kv' Hkv']. unfold compose in Hkv'.
      destruct (normal lib (snd kv)); [by eexists|done].
Qed.

(** The members normalizeJSON decodes an object into. *)
Lemma normal_members_lookup (ms ms' : list (string * json)) (k : string) :
  mapM (fun kv => w ← normal lib (snd kv); Some (fst kv, w)) ms = Some ms' ->
  option_Forall2 (fun v w => normal lib v = Some w) (lookup_last k ms)
    (foldl (fun g kv => <[fst kv := snd kv]> g) (∅ : gmap string json) ms' !! k).
Proof.
  intros H. apply mapM_Some in H.
  rewrite (foldl_insert_lookup (fun v => v)).
  assert (option_Forall2 (fun v w => normal lib v = Some w) (lookup_last k ms)
            (lookup_last k ms')) as Hl.
  { apply lookup_last_Forall2. eapply Forall2_impl; [exact H|].
    intros [k1 v] [k2 w]. simpl. destruct (normal lib v); simpl; [|done].
    by intros [= -> ->]. }
  destruct Hl; [by constructor|]. rewrite lookup_empty. constructor.
Qed.

Lemma normal_num (l : string) (v' : json) :
  normal lib (JNum l) = Some v' ->
  exists x, ParseFloat lib l = Some x /\ v' = JNum (FormatFloat lib x).
Proof.
  simpl. destruct (ParseFloat lib l) as [x|]; simpl; [|done]. intros [= <-]. eauto.
Qed.

Lemma normal_arr (xs : list json) (v' : json) :
  normal lib (JArr xs) = Some v' ->
  exists xs', mapM (normal lib) xs = Some xs' /\ v' = JArr xs'.
Proof.
  simpl. destruct (mapM (normal lib) xs) as [xs'|]; simpl; [|done]. intros [= <-]. eauto.
Qed.

Lemma normal_obj (ms : list (string * json)) (v' : json) :
  normal lib (JObj ms) = Some v' ->
  exists ms',
    mapM (fun kv => w ← normal lib (snd kv); Some (fst kv, w)) ms = Some ms'
    /\ v' = JObj (sorted_entries
                   (foldl (fun g kv => <[fst kv := snd kv]> g) (∅ : gmap string json) ms')).
Proof.
  simpl. destruct (mapM _ ms) as [ms'|]; simpl; [|done]. intros [= <-]. eauto.
Qed.

Ltac norm H :=
  first [ apply normal_num in H as (? & ? & ->)
        | apply normal_arr in H as (? & ? & ->)
        | apply normal_obj in H as (? & ? & ->)
        | simpl in H; injection H as <- ].

Section Injective.

Context (FormatFloat_inj :
  forall x y : float64 lib, FormatFloat lib x = FormatFloat lib y -> x = y).

Lemma normal_same (v w v' w' : json) :
  normal lib v = Some v' -> normal lib w = Some w' ->
  v' = w' <-> same_json v w.
Proof.
  revert w v' w'. induction v as [|b|l|s|xs IH|ms IH] using json_deep_ind;
    intros w v' w' Hv Hw.
  - destruct w; norm Hv; norm Hw; try (split; [discriminate | by inversion 1]).
    split; [constructor | done].
  - destruct w; norm Hv; norm Hw; try (split; [discriminate | by inversion 1]).
    split; [intros [= ->]; constructor | by inversion 1].
  - destruct w as [| |l'| | |];
      try (norm Hv; norm Hw; split; [discriminate | by inversion 1]).
    apply normal_num in Hv as (x & Hx & ->). apply normal_num in Hw as (y & Hy & ->).
    split.
    + intros [= H]. apply FormatFloat_inj in H. subst. constructor. right. eauto.
    + inversion 1 as [| |l1 l2 [->|(z & Hz1 & Hz2)]| | |]; subst; congruence.
  - destruct w; norm Hv; norm Hw; try (split; [discriminate | by inversion 1]).
    split; [intros [= ->]; constructor | by inversion 1].
  - destruct w as [| | | |ys|];
      try (norm Hv; norm Hw; split; [discriminate | by inversion 1]).
    apply normal_arr in Hv as (xs' & Hxs & ->). apply normal_arr in Hw as (ys' & Hys & ->).
    apply mapM_Some in Hxs, Hys.
    assert (xs' = ys' <-> Forall2 same_json xs ys) as Hiff.
    { clear -IH Hxs Hys. revert ys ys' Hys.
      induction Hxs as [|x x' xs xs' Hx _ IHxs]; intros ys ys' Hys.
      - inversion Hys; subst; split; try done; try constructor; by inversion 1.
      - apply Forall_cons in IH as [Hx0 IH].
        inversion Hys as [|y y' ys0 ys0' Hy Hrest]; subst.
        + split; [done|by inversion 1].
        + split.
          * intros [= -> ->].
            constructor; [by apply (Hx0 y y' y')|by apply (IHxs IH ys0 ys0')].
          * inversion 1; subst.
            f_equal; [by apply (Hx0 y x' y')|by apply (IHxs IH ys0 ys0')]. }
    split; [intros [= H]; constructor; by apply Hiff|].
    inversion 1; subst. f_equal. by apply Hiff.
  - destruct w as [| | | | |ms'];
      try (norm Hv; norm Hw; split; [discriminate | by inversion 1]).
    apply normal_obj in Hv as (m1 & Hm1 & ->). apply normal_obj in Hw as (m2 & Hm2 & ->).
    pose proof (fun k => normal_members_lookup ms m1 k Hm1) as H1.
    pose proof (fun k => normal_members_lookup ms' m2 k Hm2) as H2.
    set (g1 := foldl (fun g kv => <[fst kv := snd kv]> g) (∅ : gmap string json) m1) in *.
    set (g2 := foldl (fun g kv => <[fst kv := snd kv]> g) (∅ : gmap string json) m2) in *.
    rewrite Forall_forall in IH.
    assert (g1 = g2 <-> forall k, option_Forall2 same_json (lookup_last k ms)
                                   (lookup_last k ms')) as Hiff.
    { split.
      - intros Hg k. specialize (H1 k). specialize (H2 k). rewrite <- Hg in H2.
        destruct (lookup_last k ms) as [v|] eqn:E, (lookup_last k ms') as [w|] eqn:E';
          inversion H1 as [? v1 Hv1 Ev1|]; inversion H2 as [? w1 Hw1 Ew1|]; subst;
          try constructor; try congruence.
        apply lookup_last_In in E.
        apply (IH (k, v) E w v1 w1 Hv1 Hw1). congruence.
      - intros Hs. apply map_eq. intros k. specialize (H1 k). specialize (H2 k).
        specialize (Hs k).
        destruct (lookup_last k ms) as [v|] eqn:E, (lookup_last k ms') as [w|] eqn:E';
          inversion Hs; inversion H1 as [? v1 Hv1|]; inversion H2 as [? w1 Hw1|]; subst;
          [|done].
        f_equal. apply lookup_last_In in E. by apply (IH (k, v) E w v1 w1). }
    split.
    + intros [= H]. apply sorted_entries_inj in H. constructor. by apply Hiff.
    + inversion 1; subst. f_equal. f_equal. by apply Hiff.
Qed.

(** The comparison Run makes after the loop decides structural equality of
    values whose numbers are within float64. *)
Lemma unchanged_iff (a b : RawMessage) :
  numbers_fit a -> numbers_fit b ->
  bytes_Equal (normalizeJSON lib a) (normalizeJSON lib b) = true
  <-> structurally_equal a b.
Proof.
  intros Ha Hb.
  assert (forall d, numbers_fit d ->
                    match d with
                    | Doc v => exists v', normal lib v = Some v'
                    | _ => True
                    end) as Hn.
  { intros [| | |v] H; try done. by apply normal_in_float64. }
  apply Hn in Ha, Hb.
  destruct a as [| |s|v], b as [| |t|w]; simpl;
    repeat match goal with
           | H : exists _, normal lib _ = Some _ |- _ =>
               let n := fresh "n" in
               let E := fresh "E" in
               destruct H as [n E]; rewrite E
           end; simpl; try (split; done).
  - by rewrite bool_decide_eq_true.
  - rewrite bool_decide_eq_true.
    match goal with
    | Hv : normal lib v = Some ?v', Hw : normal lib w = Some ?w' |- _ =>
        rewrite <- (normal_same v w v' w' Hv Hw)
    end.
    split; congruence.
Qed.

End Injective.

End Structural.

(** *** The end of a fold that no hook cut short *)

Section Completion.

Context (lib : GoLib) {RunnerState AuditorState : Type}.
Context (runner_Run : RunnerState -> HookEntry -> RawMessage ->
                      RunnerState * res runner.Result).
Context (RecordChain : AuditorState -> audit.ChainExecution ->
                       AuditorState * option error).

Abbreviation step := (pipeline.step lib runner_Run).
Abbreviation loop := (pipeline.loop lib runner_Run).
Abbreviation Run := (pipeline.Run lib runner_Run RecordChain).
Abbreviation Fold := (@pipeline.Fold RunnerState).

Lemma decode_members_inv {S : Type} (P : S -> Prop)
    (f : S -> string -> json -> res S) :
  (forall cur k v next, P cur -> f cur k v = Ok next -> P next) ->
  forall ms cur r, P cur -> decode_members f cur ms = Ok r -> P r.
Proof.
  intros Hf. induction ms as [|[k v] ms IH]; simpl; intros cur r Hcur.
  - by intros [= <-].
  - destruct (f cur k v) as [next|] eqn:E; simpl; [|done].
    apply IH. by apply (Hf cur k v).
Qed.

(** A json.RawMessage filled in by the decoder holds a JSON text. *)
Definition nil_or_doc (m : RawMessage) : Prop := m = Nil \/ exists v, m = Doc v.

Lemma step_HookSpecificOutput_raw (cur : HookSpecificOutput) (k : string) (v : json)
    (next : HookSpecificOutput) :
  nil_or_doc (updatedInput cur) -> step_HookSpecificOutput cur k v = Ok next ->
  nil_or_doc (updatedInput next).
Proof.
  intros Hcur. unfold step_HookSpecificOutput.
  repeat case_match; simpl; try (intros [= <-]; simpl; first [done | right; by eexists]);
    destruct (decode_string _ _ _); simpl; try done; by intros [= <-].
Qed.

Lemma Unmarshal_Output_raw (stdout : RawMessage) (output : hook.Output) :
  Unmarshal_Output stdout = Ok output ->
  nil_or_doc (updatedInput (hookSpecificOutput output)).
Proof.
  assert (Hstep : forall cur k v next,
             nil_or_doc (updatedInput (hookSpecificOutput cur)) ->
             step_Output cur k v = Ok next ->
             nil_or_doc (updatedInput (hookSpecificOutput next))).
  { intros cur k v next Hcur. unfold step_Output.
    repeat case_match; simpl; try (by intros [= <-]).
    - unfold decode_HookSpecificOutput.
      destruct v; simpl; try done.
      + by intros [= <-].
      + destruct (decode_members _ _ _) as [h|] eqn:E; simpl; [|done].
        intros [= <-]. simpl.
        by apply (decode_members_inv _ _ step_HookSpecificOutput_raw _ _ _ Hcur E).
    - destruct (decode_bool_ptr v); simpl; [|done]. by intros [= <-].
    - destruct (decode_bool_ptr v); simpl; [|done]. by intros [= <-].
    - destruct (decode_string _ _ _); simpl; [|done]. by intros [= <-]. }
  destruct stdout as [| |t|[]]; simpl; try done.
  - intros [= <-]. by left.
  - apply (decode_members_inv _ _ Hstep). by left.
Qed.

Lemma Marshal_map_doc (m : GoMap) (out : RawMessage) :
  Marshal_map m = Ok out -> exists v, out = Doc v.
Proof.
  destruct m as [g|]; simpl.
  - destruct (marshal_members _); simpl; [|done]. intros [= <-]. by eexists.
  - intros [= <-]. by eexists.
Qed.

Lemma merge_gives_doc (base patch merged : RawMessage) :
  (exists v, patch = Doc v) ->
  shallowMergeJSON base patch = Done (Ok merged) -> exists v, merged = Doc v.
Proof.
  intros [v ->]. unfold shallowMergeJSON.
  change (len_zero (Doc v)) with false. rewrite andb_false_r.
  destruct (len_zero base); [intros [= <-]; by eexists|].
  destruct (Unmarshal_map base); [|discriminate].
  destruct (Unmarshal_map (Doc v)); [|discriminate].
  destruct (range_assign _ _) as [m|]; [|discriminate].
  destruct (Marshal_map m) eqn:E; [|discriminate].
  intros [= <-]. by apply (Marshal_map_doc m).
Qed.

(** What holds of the variables of Run throughout the loop: the accumulated
    state is the original tool input or a JSON text, and no context fragment
    is empty. *)
Definition Inv (input : Input) (st : Fold) : Prop :=
  (accumulated st = ToolInput input \/ exists v, accumulated st = Doc v)
  /\ Forall (fun part => part <> EmptyString) (contextParts st).

Lemma step_Inv (input : Input) (i : Z) (h : HookEntry) (st st' : Fold) :
  step input i h st = Next st' -> Inv input st -> Inv input st'.
Proof.
  unfold pipeline.step. intros Hstep [Hacc Hctx].
  destruct (Encode _); [|done].
  destruct (runner_Run _ _ _) as [r' [runRes|err]].
  - case_decide; [done|]. case_decide.
    { case_decide; [|done]. by injection Hstep as <-. }
    + destruct (len_zero (runner.Stdout runRes)); [by injection Hstep as <-|].
      destruct (Unmarshal_Output _) as [output|err] eqn:Eout.
      * case_decide; [done|]. case_decide; [done|].
        assert (Hparts : Forall (fun part => part <> EmptyString)
                           (if decide (additionalContext (hookSpecificOutput output)
                                       = EmptyString)
                            then contextParts st
                            else contextParts st
                                 ++ [additionalContext (hookSpecificOutput output)])).
        { case_decide; [done|]. apply Forall_app. split; [done|]. by constructor. }
        destruct (len_zero (updatedInput (hookSpecificOutput output))) eqn:Eui.
        -- injection Hstep as <-. by split.
        -- destruct (shallowMergeJSON _ _) as [[merged|]|] eqn:Em; try done.
           injection Hstep as <-. split; [|done]. right. simpl.
           apply (merge_gives_doc _ _ _ ltac:(
             destruct (Unmarshal_Output_raw _ _ Eout) as [Hn|Hd];
             [rewrite Hn in Eui; done | exact Hd]) Em).
      * case_decide; [|done]. by injection Hstep as <-.
  - case_decide; [|done]. by injection Hstep as <-.
Qed.

Lemma loop_Inv (input : Input) (hooks : list HookEntry) (i : Z) (st st' : Fold) :
  loop input i hooks st = Next st' -> Inv input st -> Inv input st'.
Proof.
  revert i st. induction hooks as [|h rest IH]; simpl; intros i st.
  - by intros [= <-].
  - destruct (step input i h st) as [st1| |] eqn:Es; try done.
    intros Hl Hi. apply (IH _ _ Hl). by apply (step_Inv input i h st).
Qed.

Lemma Join_not_empty (parts : list string) (sep : string) :
  parts <> [] -> Forall (fun part => part <> EmptyString) parts ->
  Join parts sep <> EmptyString.
Proof.
  destruct parts as [|p [|p' rest]]; [done| |]; intros _ Hall;
    apply Forall_cons in Hall as [Hp _]; simpl; [done|].
  by destruct p.
Qed.

(** What a call contributes to the fold when the loop goes on after it:
    the hook-specific part of the output of a hook that exits with code 0 and
    writes an Output. *)
Definition contribution (c : Call) : option HookSpecificOutput :=
  match call_answer c with
  | Ok runRes =>
      if decide (runner.ExitCode runRes = 0) then
        if len_zero (runner.Stdout runRes) then None
        else match Unmarshal_Output (runner.Stdout runRes) with
             | Ok output => Some (hookSpecificOutput output)
             | Err _ => None
             end
      else None
  | Err _ => None
  end.

(** The context fragments of a sequence of calls, in the order of the
    calls. *)
Definition fragments (cs : list Call) : list string :=
  flat_map (fun c => match contribution c with
                     | Some hso => if decide (additionalContext hso = EmptyString)
                                   then [] else [additionalContext hso]
                     | None => []
                     end) cs.

(** The accumulated state after a call. *)
Definition merged (acc : RawMessage) (c : Call) : RawMessage :=
  match contribution c with
  | Some hso =>
      if len_zero (updatedInput hso) then acc
      else match shallowMergeJSON acc (updatedInput hso) with
           | Done (Ok m) => m
           | _ => acc
           end
  | None => acc
  end.

Lemma step_contribution (input : Input) (i : Z) (h : HookEntry) (st st' : Fold) :
  step input i h st = Next st' ->
  exists c, calls st' = calls st ++ [c]
            /\ call_hook c = h
            /\ contextParts st' = contextParts st ++ fragments [c]
            /\ accumulated st' = merged (accumulated st) c.
Proof.
  unfold pipeline.step. intros Hstep.
  destruct (Encode _); [|done].
  destruct (runner_Run _ _ _) as [r' answer].
  eexists {| call_hook := h; call_input := _; call_answer := answer |}.
  unfold fragments, merged, contribution. simpl.
  destruct answer as [runRes|err].
  - case_decide; [done|]. case_decide.
    { case_decide; [|done]. injection Hstep as <-. simpl.
      rewrite decide_False by done. by rewrite app_nil_r. }
    rewrite decide_True by lia.
    destruct (len_zero (runner.Stdout runRes)).
    { injection Hstep as <-. simpl. by rewrite app_nil_r. }
    destruct (Unmarshal_Output _) as [output|err].
    + case_decide; [done|]. case_decide; [done|].
      destruct (len_zero (updatedInput (hookSpecificOutput output))).
      * injection Hstep as <-. simpl. case_decide; by rewrite ?app_nil_r.
      * destruct (shallowMergeJSON _ _) as [[m|]|]; try done.
        injection Hstep as <-. simpl. case_decide; by rewrite ?app_nil_r.
    + case_decide; [|done]. injection Hstep as <-. simpl. by rewrite app_nil_r.
  - case_decide; [|done]. injection Hstep as <-. simpl. by rewrite app_nil_r.
Qed.

(** The fold: after a loop that runs through, the context list holds the
    fragments of the calls made, in their order, and the accumulated state is
    the result of merging their updatedInput, one after the other. *)
Lemma loop_contribution (input : Input) (hooks : list HookEntry) (i : Z)
    (st st' : Fold) :
  loop input i hooks st = Next st' ->
  exists cs, calls st' = calls st ++ cs
             /\ List.map call_hook cs = hooks
             /\ contextParts st' = contextParts st ++ fragments cs
             /\ accumulated st' = foldl merged (accumulated st) cs.
Proof.
  revert i st. induction hooks as [|h rest IH]; simpl; intros i st.
  - intros [= <-]. exists []. by rewrite !app_nil_r.
  - destruct (step input i h st) as [st1| |] eqn:Es; try done.
    intros Hl. destruct (step_contribution _ _ _ _ _ Es) as (c & Hc & Hh & Hp & Ha).
    destruct (IH _ _ Hl) as (cs & Hcs & Hhs & Hps & Has).
    exists (c :: cs). rewrite Hcs, Hps, Has, Hc, Hp, Ha, <- !app_assoc.
    unfold fragments. simpl. rewrite app_nil_r, Hh, Hhs. done.
Qed.

Lemma Inv_initial (input : Input) (r : RunnerState) : Inv input (initial input r).
Proof. split; [by left | constructor]. Qed.

(** The body of an allow that carries state or context. *)
Definition allow_body (eventName : string) (ui ac : list (string * json)) : RawMessage :=
  Doc (JObj [("hookSpecificOutput",
              JObj (omit_string "hookEventName" eventName ++ ui ++ ac))]).

(** strings.Join with a newline is the text of the parts with one line feed,
    the byte 10, between two neighbours. *)
Lemma Join_newline (parts : list string) :
  Join parts newline = String.concat (String (ascii_of_nat 10) EmptyString) parts.
Proof.
  induction parts as [|p rest IH]; [done|]. destruct rest as [|q rest]; [done|].
  change (Join (p :: q :: rest) newline) with (p +:+ newline +:+ Join (q :: rest) newline).
  by rewrite IH.
Qed.

Lemma finish_spec (input : Input) (st : Fold) :
  (forall x y : float64 lib, FormatFloat lib x = FormatFloat lib y -> x = y) ->
  numbers_fit lib (accumulated st) -> numbers_fit lib (ToolInput input) ->
  Inv input st ->
  (structurally_equal lib (accumulated st) (ToolInput input) /\ contextParts st = [] ->
   fst (fst (finish lib input st)) = {| ExitCode := 0; Output := Nil |})
  /\ (~ (structurally_equal lib (accumulated st) (ToolInput input)
         /\ contextParts st = []) ->
      exists ui ac,
        fst (fst (finish lib input st))
        = {| ExitCode := 0; Output := allow_body (HookEventName input) ui ac |}
        /\ (structurally_equal lib (accumulated st) (ToolInput input) -> ui = [])
        /\ (~ structurally_equal lib (accumulated st) (ToolInput input) ->
            exists v, accumulated st = Doc v /\ ui = [("updatedInput", v)])
        /\ (contextParts st = [] -> ac = [])
        /\ (contextParts st <> [] ->
            ac = [("additionalContext",
                   JStr (String.concat (String (ascii_of_nat 10) EmptyString)
                                       (contextParts st)))])).
Proof.
  intros Hinj Hfa Hfi [Hacc Hctx]. unfold finish.
  pose proof (unchanged_iff lib Hinj (accumulated st) (ToolInput input) Hfa Hfi) as Hiff.
  rewrite <- Join_newline.
  destruct (bytes_Equal _ _) eqn:Eeq; simpl.
  - (* unchanged *)
    assert (Hsame : structurally_equal lib (accumulated st) (ToolInput input))
      by by apply Hiff.
    case_bool_decide as Ec; simpl.
    + split; [done|]. intros Hn. exfalso. by apply Hn.
    + split; [by intros [_ ?]|]. intros _.
      exists [], [("additionalContext", JStr (Join (contextParts st) newline))].
      unfold Marshal_Output, marshal_HookSpecificOutput, allow_body. simpl.
      rewrite !omit_string_empty.
      rewrite (omit_string_present "additionalContext")
        by by apply Join_not_empty.
      simpl. repeat split; done.
  - (* changed *)
    assert (Hdiff : ~ structurally_equal lib (accumulated st) (ToolInput input)).
    { intros H. apply Hiff in H. congruence. }
    assert (exists v, accumulated st = Doc v) as [v Hv].
    { destruct Hacc as [Heq|Hd]; [|done]. exfalso.
      rewrite Heq, bytes_Equal_refl in Eeq. done. }
    split; [by intros [? _]|]. intros _. rewrite Hv in *.
    case_bool_decide as Ec; simpl.
    + exists [("updatedInput", v)], [].
      unfold Marshal_Output, marshal_HookSpecificOutput, allow_body. simpl.
      rewrite !omit_string_empty. simpl.
      repeat split; try done. intros _. by exists v.
    + exists [("updatedInput", v)],
             [("additionalContext", JStr (Join (contextParts st) newline))].
      unfold Marshal_Output, marshal_HookSpecificOutput, allow_body. simpl.
      rewrite !omit_string_empty.
      rewrite (omit_string_present "additionalContext")
        by by apply Join_not_empty.
      simpl. repeat split; try done. intros _. by exists v.
Qed.

(** C5, amended: when the loop runs through all hooks, and every number in
    the original tool input and in the accumulated state is within the range
    of float64, the encoder writing two different float64 values differently:
    every hook has been called once, in order; the context list holds the
    fragments of these calls in that order and the accumulated state is the
    tool input with their updatedInput merged in, one after the other; and Run
    returns exit code 0.  Nothing is written, as when no hook is run at all,
    when the accumulated state is structurally equal to the original tool
    input, whatever the order of the keys, numbers being equal when they are
    read as the same float64, and no context fragment was collected; otherwise
    the body written has hookSpecificOutput with the event name of the input,
    with updatedInput, equal to the accumulated state, exactly when that state
    is not structurally equal to the original, and with additionalContext, the
    fragments one after the other with one line feed between two of them,
    exactly when there is a fragment. *)
Theorem completed_fold_result (input : Input) (hooks : list HookEntry)
    (r : RunnerState) (auditor : option AuditorState) (st : Fold) :
  (forall x y : float64 lib, FormatFloat lib x = FormatFloat lib y -> x = y) ->
  numbers_fit lib (ToolInput input) ->
  numbers_fit lib (accumulated st) ->
  loop input 0 hooks (initial input r) = Next st ->
  (List.map call_hook (runner_calls (Run input hooks r auditor)) = hooks
   /\ contextParts st = fragments (runner_calls (Run input hooks r auditor))
   /\ accumulated st
      = foldl merged (ToolInput input) (runner_calls (Run input hooks r auditor)))
  /\ (structurally_equal lib (accumulated st) (ToolInput input) /\ contextParts st = [] ->
      returned (Run input hooks r auditor) = Done {| ExitCode := 0; Output := Nil |}
      /\ returned (Run input hooks r auditor) = returned (Run input [] r auditor))
  /\ (~ (structurally_equal lib (accumulated st) (ToolInput input)
         /\ contextParts st = []) ->
      exists ui ac,
        returned (Run input hooks r auditor)
        = Done {| ExitCode := 0; Output := allow_body (HookEventName input) ui ac |}
        /\ (structurally_equal lib (accumulated st) (ToolInput input) -> ui = [])
        /\ (~ structurally_equal lib (accumulated st) (ToolInput input) ->
            exists v, accumulated st = Doc v /\ ui = [("updatedInput", v)])
        /\ (contextParts st = [] -> ac = [])
        /\ (contextParts st <> [] ->
            ac = [("additionalContext",
                   JStr (String.concat (String (ascii_of_nat 10) EmptyString)
                                       (fragments
                                          (runner_calls (Run input hooks r auditor)))))])).
Proof.
  intros Hinj Hfi Hfa Hloop.
  assert (Hinv : Inv input st).
  { apply (loop_Inv input hooks 0 (initial input r) st Hloop), Inv_initial. }
  destruct (finish_spec input st Hinj Hfa Hfi Hinv) as [Hsame Hdiff].
  destruct (loop_contribution _ _ _ _ _ Hloop) as (cs & Hcs & Hh & Hp & Ha).
  simpl in Hcs, Hp, Ha.
  rewrite !(Run_returned lib runner_Run RecordChain),
          (Run_calls lib runner_Run RecordChain), Hloop. simpl.
  rewrite (finish_initial lib). simpl. rewrite Hcs. split; [|split].
  - done.
  - intros H. by rewrite (Hsame H).
  - intros H. destruct (Hdiff H) as (ui & ac & -> & ? & ? & ? & Hac).
    exists ui, ac. rewrite <- Hp. done.
Qed.

End Completion.

(** What Run returns, and the calls it makes, do not depend on the Auditor:
    not on whether there is one, nor on what RecordChain answers. *)
Lemma Result_independent_of_auditor (lib : GoLib) {RunnerState A1 A2 : Type}
    (runner_Run : RunnerState -> HookEntry -> RawMessage -> RunnerState * res runner.Result)
    (RecordChain1 : A1 -> audit.ChainExecution -> A1 * option error)
    (RecordChain2 : A2 -> audit.ChainExecution -> A2 * option error)
    (input : Input) (hooks : list HookEntry) (r : RunnerState)
    (auditor1 : option A1) (auditor2 : option A2) :
  returned (pipeline.Run lib runner_Run RecordChain1 input hooks r auditor1)
  = returned (pipeline.Run lib runner_Run RecordChain2 input hooks r auditor2)
  /\ runner_calls (pipeline.Run lib runner_Run RecordChain1 input hooks r auditor1)
     = runner_calls (pipeline.Run lib runner_Run RecordChain2 input hooks r auditor2).
Proof.
  by rewrite !Run_returned, !Run_calls.
Qed.

Import doubles.

(** The claim C3 fails where only the patch is present: it is returned as
    it is, a JSON number here, without any error; and it fails on a patch that
    is the JSON value null, which is taken as a patch without keys. *)
Lemma merge_accepts_non_objects :
  (len_zero Nil = true
   /\ len_zero (Doc (JNum "5")) = false
   /\ shallowMergeJSON Nil (Doc (JNum "5")) = Done (Ok (Doc (JNum "5"))))
  /\ (len_zero (Doc JNull) = false
      /\ shallowMergeJSON (Doc (JObj [("a", JNum "1")])) (Doc JNull)
         = Done (Ok (Doc (JObj [("a", JNum "1")])))).
Proof. vm_compute. repeat split. Qed.

(** A hook sends a JSON string as updatedInput: the merge fails and the
    chain is denied although the hook's on_error policy is skip.  The same
    string as the only operand is returned. *)
Lemma merge_failure_witness :
  (exists err,
     shallowMergeJSON (Doc (JObj [("command", JStr "ls")])) (Doc (JStr "oops"))
     = Done (Err err))
  /\ shallowMergeJSON Nil (Doc (JStr "oops")) = Done (Ok (Doc (JStr "oops")))
  /\ exists reason logged st',
       pipeline.loop plain_lib mockRunner_Run
         (makeInput (JObj [("command", JStr "ls")])) 0
         [hookEntry "h" "skip"; hookEntry "next" EmptyString]
         (initial (makeInput (JObj [("command", JStr "ls")]))
            (mock [writes (hookSpecific [("updatedInput", JStr "oops")])]))
       = Return {| ExitCode := 2; Output := decision_body "PreToolUse" "deny" reason |}
                "error" logged st'.
Proof.
  destruct (merge_failure_is_fatal plain_lib mockRunner_Run)
    as (Hmerge & Hengine & Hpatch & _).
  split; [|split].
  - apply Hmerge; [reflexivity | reflexivity | right; reflexivity].
  - apply Hpatch; reflexivity.
  - eapply (Hengine (makeInput (JObj [("command", JStr "ls")])) 0
              (hookEntry "h" "skip") [hookEntry "next" EmptyString]
              (initial (makeInput (JObj [("command", JStr "ls")]))
                 (mock [writes (hookSpecific [("updatedInput", JStr "oops")])]))).
    + vm_compute. reflexivity.
    + vm_compute. reflexivity.
    + reflexivity.
    + vm_compute. reflexivity.
    + vm_compute. discriminate.
    + vm_compute. discriminate.
    + reflexivity.
    + reflexivity.
    + right. reflexivity.
Defined.

(** The JSON value null as an operand, in the engine: with a null tool
    input Run panics as soon as a hook sends an updatedInput; a null
    updatedInput is accepted and Run goes on as if the hook had sent
    nothing. *)
Example null_operands_in_the_engine :
  returned (run (makeInput JNull) [hookEntry "h" EmptyString]
                [writes (hookSpecific [("updatedInput", JObj [("a", JNum "1")])])]
                None)
  = Panic "assignment to entry in nil map"
  /\ returned (run (makeInput (JObj [("a", JNum "1")])) [hookEntry "h" EmptyString]
                   [writes (hookSpecific [("updatedInput", JNull)])]
                   None)
     = Done {| ExitCode := 0; Output := Nil |}.
Proof. vm_compute. repeat split. Qed.

(** C9: when the tool input of the envelope is null and a hook sends an
    updatedInput, Run panics in the merge before any recordAudit call: the
    Auditor, which is present, is sent no record, and there is no Result. *)
Theorem panic_leaves_no_audit_record :
  returned (run (makeInput JNull) [hookEntry "h" EmptyString]
                [writes (hookSpecific [("updatedInput", JObj [("a", JNum "1")])])]
                (Some {| entries := []; err := None |}))
  = Panic "assignment to entry in nil map"
  /\ audit_records (run (makeInput JNull) [hookEntry "h" EmptyString]
                        [writes (hookSpecific [("updatedInput", JObj [("a", JNum "1")])])]
                        (Some {| entries := []; err := None |}))
     = []
  /\ auditor_after (run (makeInput JNull) [hookEntry "h" EmptyString]
                        [writes (hookSpecific [("updatedInput", JObj [("a", JNum "1")])])]
                        (Some {| entries := []; err := None |}))
     = Some {| entries := []; err := None |}.
Proof. vm_compute. repeat split. Qed.

(** TestExit2IgnoresOnErrorSkip *)
Lemma exit_code_2_denies_witness :
  exists c runRes,
    runner_calls (run (makeInput (JObj [("command", JStr "ls")]))
                      [hookEntry "hard-deny" "skip"; hookEntry "next" "skip"]
                      [exits 2 "absolutely not"] None) !! 0%nat = Some c
    /\ call_answer c = Ok runRes
    /\ runner.ExitCode runRes = 2
    /\ OnError (call_hook c) = "skip"
    /\ returned (run (makeInput (JObj [("command", JStr "ls")]))
                     [hookEntry "hard-deny" "skip"; hookEntry "next" "skip"]
                     [exits 2 "absolutely not"] None)
       = Done {| ExitCode := 2;
                 Output := decision_body "PreToolUse" "deny" "absolutely not" |}
    /\ length (runner_calls (run (makeInput (JObj [("command", JStr "ls")]))
                      [hookEntry "hard-deny" "skip"; hookEntry "next" "skip"]
                      [exits 2 "absolutely not"] None)) = 1%nat.
Proof.
  do 2 eexists.
  split; [vm_compute; reflexivity|].
  split; [vm_compute; reflexivity|].
  split; [vm_compute; reflexivity|].
  split; [vm_compute; reflexivity|].
  destruct (exit_code_2_denies_unconditionally plain_lib mockRunner_Run
              mockAuditor_RecordChain
              (makeInput (JObj [("command", JStr "ls")]))
              [hookEntry "hard-deny" "skip"; hookEntry "next" "skip"]
              (mock [exits 2 "absolutely not"]) None 0%nat _ _
              eq_refl eq_refl eq_refl)
    as (reason & _ & Hret & Hlen & _ & Hreason & _).
  unfold run. split; [|exact Hlen].
  rewrite Hret. rewrite (Hreason ltac:(discriminate)). reflexivity.
Defined.

(** TestExplicitDenyIgnoresOnErrorSkip, with a second hook that is never
    called. *)
Lemma explicit_decision_witness :
  exists c runRes output,
    runner_calls (run (makeInput (JObj [("command", JStr "ls")]))
                      [hookEntry "denier" "skip"; hookEntry "next" "skip"]
                      [writes (hookSpecific [("permissionDecision", JStr "deny");
                                             ("permissionDecisionReason", JStr "nope")])]
                      None) !! 0%nat = Some c
    /\ call_answer c = Ok runRes
    /\ runner.ExitCode runRes = 0
    /\ Unmarshal_Output (runner.Stdout runRes) = Ok output
    /\ permissionDecision (hookSpecificOutput output) = "deny"
    /\ returned (run (makeInput (JObj [("command", JStr "ls")]))
                     [hookEntry "denier" "skip"; hookEntry "next" "skip"]
                     [writes (hookSpecific [("permissionDecision", JStr "deny");
                                            ("permissionDecisionReason", JStr "nope")])]
                     None)
       = Done {| ExitCode := 2; Output := decision_body "PreToolUse" "deny" "nope" |}
    /\ length (runner_calls
                 (run (makeInput (JObj [("command", JStr "ls")]))
                      [hookEntry "denier" "skip"; hookEntry "next" "skip"]
                      [writes (hookSpecific [("permissionDecision", JStr "deny");
                                             ("permissionDecisionReason", JStr "nope")])]
                      None)) = 1%nat.
Proof.
  do 3 eexists.
  split; [vm_compute; reflexivity|].
  split; [vm_compute; reflexivity|].
  split; [vm_compute; reflexivity|].
  split; [vm_compute; reflexivity|].
  split; [vm_compute; reflexivity|].
  destruct (explicit_decision_short_circuits plain_lib mockRunner_Run
              mockAuditor_RecordChain
              (makeInput (JObj [("command", JStr "ls")]))
              [hookEntry "denier" "skip"; hookEntry "next" "skip"]
              (mock [writes (hookSpecific [("permissionDecision", JStr "deny");
                                           ("permissionDecisionReason", JStr "nope")])])
              None 0%nat _ _ _ eq_refl eq_refl eq_refl eq_refl (or_introl eq_refl))
    as (Hret & _ & Hlen).
  unfold run. split; [exact Hret | exact Hlen].
Defined.

(** A first hook changes the command and adds context, a second one denies:
    nothing of the first hook is written. *)
Lemma decision_body_witness :
  exists c runRes output fields,
    runner_calls (run (makeInput (JObj [("command", JStr "ls")]))
                      [hookEntry "rewrite" EmptyString; hookEntry "guard" EmptyString]
                      [writes (hookSpecific [("updatedInput", JObj [("command", JStr "ls -a")]);
                                             ("additionalContext", JStr "rewritten")]);
                       writes (hookSpecific [("permissionDecision", JStr "deny");
                                             ("permissionDecisionReason", JStr "blocked")])]
                      None) !! 1%nat = Some c
    /\ call_answer c = Ok runRes
    /\ runner.ExitCode runRes = 0
    /\ Unmarshal_Output (runner.Stdout runRes) = Ok output
    /\ permissionDecision (hookSpecificOutput output) = "deny"
    /\ call_input c
       = Doc (JObj [("hook_event_name", JStr "PreToolUse");
                    ("tool_input", JObj [("command", JStr "ls -a")]);
                    ("tool_name", JStr "Bash")])
    /\ returned (run (makeInput (JObj [("command", JStr "ls")]))
                     [hookEntry "rewrite" EmptyString; hookEntry "guard" EmptyString]
                     [writes (hookSpecific [("updatedInput", JObj [("command", JStr "ls -a")]);
                                            ("additionalContext", JStr "rewritten")]);
                      writes (hookSpecific [("permissionDecision", JStr "deny");
                                            ("permissionDecisionReason", JStr "blocked")])]
                     None)
       = Done {| ExitCode := 2;
                 Output := Doc (JObj [("hookSpecificOutput", JObj fields)]) |}
    /\ lookup_last "updatedInput" fields = None
    /\ lookup_last "additionalContext" fields = None.
Proof.
  do 3 eexists.
  destruct (decision_body_drops_accumulated_state plain_lib mockRunner_Run
              mockAuditor_RecordChain
              (makeInput (JObj [("command", JStr "ls")]))
              [hookEntry "rewrite" EmptyString; hookEntry "guard" EmptyString]
              (mock [writes (hookSpecific [("updatedInput", JObj [("command", JStr "ls -a")]);
                                           ("additionalContext", JStr "rewritten")]);
                     writes (hookSpecific [("permissionDecision", JStr "deny");
                                           ("permissionDecisionReason", JStr "blocked")])])
              None 1%nat _ _ _ eq_refl eq_refl eq_refl eq_refl (or_introl eq_refl))
    as (code & fields & Hret & _ & Hui & Hac).
  exists fields.
  split; [vm_compute; reflexivity|].
  split; [vm_compute; reflexivity|].
  split; [vm_compute; reflexivity|].
  split; [vm_compute; reflexivity|].
  split; [vm_compute; reflexivity|].
  split; [vm_compute; reflexivity|].
  unfold run. split; [|split; [exact Hui | exact Hac]].
  rewrite Hret. f_equal. f_equal.
  assert (Hc := f_equal (fun x => match x with
                                  | Done res => ExitCode res
                                  | Panic _ => 0
                                  end) Hret).
  vm_compute in Hc. congruence.
Defined.

(** TestOnErrorSkipForNonZeroExit, at the level of the loop, for a hook
    that is the second of its chain. *)
Lemma skip_absorbs_witness :
  exists bytes st' hr,
    EffectiveOnError (hookEntry "flaky" "skip") = "skip"
    /\ stdin_of (makeInput (JObj [("command", JStr "ls")]))
                (initial (makeInput (JObj [("command", JStr "ls")]))
                         (mock [exits 1 "crash"]))
       = Ok bytes
    /\ absorbed_by_skip
         (answer_of mockRunner_Run (hookEntry "flaky" "skip") bytes
            (initial (makeInput (JObj [("command", JStr "ls")])) (mock [exits 1 "crash"])))
    /\ pipeline.loop plain_lib mockRunner_Run
         (makeInput (JObj [("command", JStr "ls")])) 1
         [hookEntry "flaky" "skip"; hookEntry "pass" EmptyString]
         (initial (makeInput (JObj [("command", JStr "ls")])) (mock [exits 1 "crash"]))
       = pipeline.loop plain_lib mockRunner_Run
           (makeInput (JObj [("command", JStr "ls")])) 2
           [hookEntry "pass" EmptyString] st'
    /\ accumulated st' = Doc (JObj [("command", JStr "ls")])
    /\ contextParts st' = []
    /\ hookResults st' = [hr]
    /\ audit.HookIndex hr = 1
    /\ audit.HookName hr = "flaky"
    /\ audit.HookOutcome hr = "skip"
    /\ audit.ExitCode hr = 1.
Proof.
  eexists.
  assert (Hin : stdin_of (makeInput (JObj [("command", JStr "ls")]))
                  (initial (makeInput (JObj [("command", JStr "ls")]))
                     (mock [exits 1 "crash"]))
                = Ok (Doc (JObj [("hook_event_name", JStr "PreToolUse");
                                 ("tool_input", JObj [("command", JStr "ls")]);
                                 ("tool_name", JStr "Bash")]))).
  { vm_compute. reflexivity. }
  destruct (skip_absorbs_failures_only plain_lib mockRunner_Run
              (makeInput (JObj [("command", JStr "ls")])) 1
              (hookEntry "flaky" "skip") [hookEntry "pass" EmptyString]
              (initial (makeInput (JObj [("command", JStr "ls")])) (mock [exits 1 "crash"]))
              _ eq_refl Hin) as [Habs _].
  assert (Ha : absorbed_by_skip
                 (answer_of mockRunner_Run (hookEntry "flaky" "skip")
                    (Doc (JObj [("hook_event_name", JStr "PreToolUse");
                                ("tool_input", JObj [("command", JStr "ls")]);
                                ("tool_name", JStr "Bash")]))
                    (initial (makeInput (JObj [("command", JStr "ls")]))
                       (mock [exits 1 "crash"])))).
  { vm_compute. left. split; discriminate. }
  destruct (Habs Ha) as (st' & hr & _ & Hloop & Hacc & Hctx & Hres & Hi & Hn & Ho & Hc).
  exists st', hr.
  split; [reflexivity|]. split; [exact Hin|]. split; [exact Ha|].
  split; [exact Hloop|]. split; [by rewrite Hacc|]. split; [by rewrite Hctx|].
  split; [exact Hres|]. split; [exact Hi|]. split; [exact Hn|]. split; [exact Ho|].
  rewrite Hc. vm_compute. reflexivity.
Defined.

(** The claim C5 fails on a tool input that holds a number beyond float64:
    a hook sends back one key of the tool input with the value it has, the
    accumulated state then has the keys and values of the original, in another
    order, and no context was collected; yet Run writes a body with
    updatedInput. *)
Lemma equal_state_is_written :
  exists st,
    pipeline.loop plain_lib mockRunner_Run
      (makeInput (JObj [("n", JNum "1e999"); ("a", JNum "1")])) 0
      [hookEntry "echo" EmptyString]
      (initial (makeInput (JObj [("n", JNum "1e999"); ("a", JNum "1")]))
         (mock [writes (hookSpecific [("updatedInput", JObj [("a", JNum "1")])])]))
    = Next st
    /\ structurally_equal plain_lib (accumulated st)
         (ToolInput (makeInput (JObj [("n", JNum "1e999"); ("a", JNum "1")])))
    /\ contextParts st = []
    /\ returned
         (run (makeInput (JObj [("n", JNum "1e999"); ("a", JNum "1")]))
              [hookEntry "echo" EmptyString]
              [writes (hookSpecific [("updatedInput", JObj [("a", JNum "1")])])]
              None)
       = Done {| ExitCode := 0;
                 Output :=
                   Doc (JObj [("hookSpecificOutput",
                               JObj [("hookEventName", JStr "PreToolUse");
                                     ("updatedInput",
                                      JObj [("a", JNum "1"); ("n", JNum "1e999")])])]) |}.
Proof.
  eexists. split; [vm_compute; reflexivity|]. split; [|split].
  - simpl. constructor. intros k. simpl.
    destruct (decide ("n" = k)), (decide ("a" = k)); subst; try discriminate;
      repeat constructor.
  - reflexivity.
  - vm_compute. reflexivity.
Qed.

(** TestChainedUpdatedInputMerging and TestAdditionalContextAccumulation in
    one chain: the first hook changes the input and adds context, the second
    adds a key and more context. *)
Lemma completed_fold_witness :
  exists st,
    pipeline.loop plain_lib mockRunner_Run
      (makeInput (JObj [("command", JStr "original")])) 0
      [hookEntry "hook1" EmptyString; hookEntry "hook2" EmptyString]
      (initial (makeInput (JObj [("command", JStr "original")]))
         (mock [writes (hookSpecific [("updatedInput",
                                       JObj [("command", JStr "modified");
                                             ("extra_a", JStr "x")]);
                                      ("additionalContext", JStr "context from hook1")]);
                writes (hookSpecific [("updatedInput", JObj [("extra_b", JStr "y")]);
                                      ("additionalContext", JStr "context from hook2")])]))
    = Next st
    /\ returned
         (run (makeInput (JObj [("command", JStr "original")]))
              [hookEntry "hook1" EmptyString; hookEntry "hook2" EmptyString]
              [writes (hookSpecific [("updatedInput",
                                      JObj [("command", JStr "modified");
                                            ("extra_a", JStr "x")]);
                                     ("additionalContext", JStr "context from hook1")]);
               writes (hookSpecific [("updatedInput", JObj [("extra_b", JStr "y")]);
                                     ("additionalContext", JStr "context from hook2")])]
              None)
       = Done {| ExitCode := 0;
                 Output :=
                   Doc (JObj [("hookSpecificOutput",
                               JObj [("hookEventName", JStr "PreToolUse");
                                     ("updatedInput",
                                      JObj [("command", JStr "modified");
                                            ("extra_a", JStr "x");
                                            ("extra_b", JStr "y")]);
                                     ("additionalContext",
                                      JStr (String.append "context from hook1"
                                              (String (ascii_of_nat 10)
                                                      "context from hook2")))])]) |}.
Proof.
  destruct (pipeline.loop plain_lib mockRunner_Run _ 0 _ _) as [st| |] eqn:Hloop;
    [|vm_compute in Hloop; discriminate..].
  exists st. split; [reflexivity|].
  pose proof Hloop as Hst. vm_compute in Hst. injection Hst as Hst.
  assert (Hinj : forall x y : float64 plain_lib,
                   FormatFloat plain_lib x = FormatFloat plain_lib y -> x = y)
    by (intros x y H; exact H).
  assert (Hfi : numbers_fit plain_lib
                  (ToolInput (makeInput (JObj [("command", JStr "original")])))).
  { apply (normal_in_float64 plain_lib). vm_compute. eexists. reflexivity. }
  assert (Hfa : numbers_fit plain_lib (accumulated st)).
  { rewrite <- Hst. apply (normal_in_float64 plain_lib). vm_compute. eexists. reflexivity. }
  destruct (completed_fold_result plain_lib mockRunner_Run mockAuditor_RecordChain
              _ _ _ None st Hinj Hfi Hfa Hloop) as (_ & _ & H).
  destruct H as (ui & ac & Hret & _ & Hui & _ & Hac).
  { intros [_ Hctx]. rewrite <- Hst in Hctx. vm_compute in Hctx. discriminate. }
  unfold run. rewrite Hret.
  destruct Hui as (v & Hv & ->).
  { intros Hsame. apply (unchanged_iff plain_lib Hinj _ _ Hfa Hfi) in Hsame.
    rewrite <- Hst in Hsame. vm_compute in Hsame. discriminate. }
  rewrite Hac by (rewrite <- Hst; vm_compute; discriminate).
  rewrite <- Hst in Hv. vm_compute in Hv. injection Hv as <-.
  vm_compute. reflexivity.
Defined.

End EngineFacts.

(** ** The chain resolver *)

Module ResolverFacts.

Import config.

(** A chain entry is for an event and a tool when its event is the event and
    the tool is one of its tools, as the same strings. *)
Definition chain_for (eventName toolName : string) (chain : ChainEntry) : Prop :=
  Event chain = eventName /\ toolName ∈ Tools chain.

Lemma listed_elem_of (tools : list string) (toolName : string) :
  listed tools toolName = true <-> toolName ∈ tools.
Proof.
  induction tools as [|t rest IH]; simpl.
  - split; [done|]. intros H. by apply elem_of_nil in H.
  - rewrite elem_of_cons. case_decide; subst.
    + split; [by left|done].
    + rewrite IH. split; [by right|]. intros [->|H']; done.
Qed.

Lemma resolve_skips (chains : list ChainEntry) (eventName toolName : string)
    (rest : list ChainEntry) :
  Forall (fun ch => ~ chain_for eventName toolName ch) chains ->
  resolve (chains ++ rest) eventName toolName = resolve rest eventName toolName.
Proof.
  induction 1 as [|ch chains Hch _ IH]; simpl; [done|].
  case_decide; [done|].
  destruct (listed (Tools ch) toolName) eqn:El; [|done].
  exfalso. apply Hch. split.
  - by destruct (decide (Event ch = eventName)).
  - by apply listed_elem_of.
Qed.

(** X1: Resolve returns the hooks of the first chain entry, in the order of
    the configuration, whose event is the event name and whose tools contain
    the tool name; the entries after it are not looked at, whether they match
    or not. *)
Theorem Resolve_takes_first_matching_chain (c : Config) (eventName toolName : string)
    (before after : list ChainEntry) (chain : ChainEntry) :
  Chains c = before ++ chain :: after ->
  Forall (fun ch => ~ chain_for eventName toolName ch) before ->
  chain_for eventName toolName chain ->
  Resolve c eventName toolName = Hooks chain.
Proof.
  intros Hc Hb [He Ht]. unfold Resolve. rewrite Hc, resolve_skips by done.
  simpl. rewrite decide_False by (intros H; by apply H).
  apply listed_elem_of in Ht. by rewrite Ht.
Qed.

(** TestResolveFirstMatch *)
Lemma Resolve_takes_first_witness :
  Resolve {| Chains := [ {| Event := "PostToolUse"; Tools := ["Bash"];
                            Hooks := [doubles.hookEntry "other" ""] |};
                         {| Event := "PreToolUse"; Tools := ["Write"; "Bash"];
                            Hooks := [doubles.hookEntry "first" ""] |};
                         {| Event := "PreToolUse"; Tools := ["Bash"];
                            Hooks := [doubles.hookEntry "second" ""] |} ];
             Audit := None |} "PreToolUse" "Bash"
  = [doubles.hookEntry "first" ""].
Proof.
  apply (Resolve_takes_first_matching_chain _ "PreToolUse" "Bash"
           [ {| Event := "PostToolUse"; Tools := ["Bash"];
                Hooks := [doubles.hookEntry "other" ""] |} ]
           [ {| Event := "PreToolUse"; Tools := ["Bash"];
                Hooks := [doubles.hookEntry "second" ""] |} ]
           {| Event := "PreToolUse"; Tools := ["Write"; "Bash"];
              Hooks := [doubles.hookEntry "first" ""] |}).
  - reflexivity.
  - apply List.Forall_cons; [|apply List.Forall_nil].
    intros [He _]. simpl in He. discriminate He.
  - split; [reflexivity|]. simpl. rewrite !elem_of_cons. right. by left.
Defined.

(** X2: when no chain entry is for the event and the tool, Resolve returns
    no hook; and hooks that Resolve returns are the hooks of one entry that is
    for the event and the tool, no entry before it being so: hooks of several
    entries are never put together, and a tool name matches only as the same
    string. *)
Theorem Resolve_returns_one_chain_or_nothing (c : Config) (eventName toolName : string) :
  (Forall (fun ch => ~ chain_for eventName toolName ch) (Chains c) ->
   Resolve c eventName toolName = [])
  /\ (Resolve c eventName toolName <> [] ->
      exists before chain after,
        Chains c = before ++ chain :: after
        /\ Forall (fun ch => ~ chain_for eventName toolName ch) before
        /\ chain_for eventName toolName chain
        /\ Resolve c eventName toolName = Hooks chain).
Proof.
  unfold Resolve. split.
  - intros H. rewrite <- (app_nil_r (Chains c)). by rewrite resolve_skips.
  - induction (Chains c) as [|ch chains IH]; simpl; [done|].
    assert (~ chain_for eventName toolName ch ->
            resolve chains eventName toolName <> [] ->
            exists before chain after,
              ch :: chains = before ++ chain :: after
              /\ Forall (fun ch => ~ chain_for eventName toolName ch) before
              /\ chain_for eventName toolName chain
              /\ resolve chains eventName toolName = Hooks chain) as Hrest.
    { intros Hno Hne. destruct (IH Hne) as (before & chain & after & -> & Hb & Hc & Hr).
      exists (ch :: before), chain, after. repeat split; try done; try apply Hc.
      by constructor. }
    case_decide as He.
    + apply Hrest. intros [He' _]. done.
    + destruct (listed (Tools ch) toolName) eqn:El.
      * intros _. exists [], ch, chains. repeat split; try done.
        by apply listed_elem_of.
      * apply Hrest. intros [_ Ht]. apply listed_elem_of in Ht. congruence.
Qed.

(** TestResolveMiss: an event that no entry has, a tool that the entry for
    the event does not list, and a tool name in another case. *)
Lemma Resolve_returns_nothing_witness :
  Resolve {| Chains := [ {| Event := "PreToolUse"; Tools := ["Bash"];
                            Hooks := [doubles.hookEntry "hook-a" ""] |} ];
             Audit := None |} "PreToolUse" "bash"
  = [].
Proof.
  apply (proj1 (Resolve_returns_one_chain_or_nothing _ "PreToolUse" "bash")).
  apply List.Forall_cons; [|apply List.Forall_nil].
  intros [_ Ht]. simpl in Ht. rewrite elem_of_cons in Ht. destruct Ht as [Ht|Ht]; [discriminate Ht|].
  by apply elem_of_nil in Ht.
Defined.

End ResolverFacts.

(** ** Strings as byte sequences *)

Module StringFacts.

Lemma length_append (a b : string) :
  String.length (a +:+ b) = (String.length a + String.length b)%nat.
Proof. induction a as [|c a IH]; simpl; [done|]. by rewrite IH. Qed.

Lemma append_empty_r (a : string) : a +:+ EmptyString = a.
Proof.
  induction a as [|c a IH]; [done|].
  change (String c a +:+ EmptyString) with (String c (a +:+ EmptyString)). by rewrite IH.
Qed.

Lemma substring_0_length (n : nat) (s : string) :
  String.length (substring 0 n s) = Nat.min n (String.length s).
Proof.
  revert n. induction s as [|c s IH]; intros [|n]; simpl; try done.
  by rewrite IH.
Qed.

(** s[:n] is a prefix of s. *)
Lemma substring_0_split (n : nat) (s : string) :
  exists dropped, s = substring 0 n s +:+ dropped.
Proof.
  revert n. induction s as [|c s IH]; intros [|n]; simpl.
  - by exists EmptyString.
  - by exists EmptyString.
  - by eexists.
  - destruct (IH n) as [d Hd]. exists d.
    change (String c s = String c (substring 0 n s +:+ d)). by rewrite <- Hd.
Qed.

Lemma substring_0_all (n : nat) (s : string) :
  (String.length s <= n)%nat -> substring 0 n s = s.
Proof.
  revert n. induction s as [|c s IH]; intros [|n]; simpl; try done; try lia.
  intros H. rewrite IH; [done|lia].
Qed.

Lemma substring_append (a b : string) :
  substring (String.length a) (String.length b) (a +:+ b) = b
  /\ substring 0 (String.length a) (a +:+ b) = a.
Proof.
  induction a as [|c a [IH1 IH2]]; simpl.
  - split; [by apply substring_0_all|]. by destruct b.
  - split; [done|]. by rewrite IH2.
Qed.

End StringFacts.

(** ** Tilde expansion *)

Module PathFacts.

Import pathutil runner.

Lemma prefix_cons (a b : ascii) (s1 s2 : string) :
  String.prefix (String a s1) (String b s2)
  = if ascii_dec a b then String.prefix s1 s2 else false.
Proof. reflexivity. Qed.

Lemma prefix_empty (s : string) : String.prefix EmptyString s = true.
Proof. by destruct s. Qed.

Lemma not_tilde_path (c : ascii) (rest : string) :
  c <> "~"%char ->
  bool_decide (String c rest = "~") = false /\ HasPrefix (String c rest) "~/" = false
  /\ HasPrefix (String c rest) "~" = false.
Proof.
  intros Hc. split; [|split].
  - apply bool_decide_eq_false. intros [= ->]. done.
  - unfold HasPrefix. rewrite prefix_cons. by destruct (ascii_dec "~" c).
  - unfold HasPrefix. rewrite prefix_cons. by destruct (ascii_dec "~" c).
Qed.

(** X3: expanding twice is expanding once, as long as the home directory
    does not itself begin with a tilde; with no HOME, and on a path that is
    neither ~ nor begins with ~/, ExpandTilde changes nothing. *)
Theorem ExpandTilde_idempotent (HOME path : string) :
  HasPrefix HOME "~" = false ->
  ExpandTilde HOME (ExpandTilde HOME path) = ExpandTilde HOME path
  /\ (HOME = EmptyString -> ExpandTilde HOME path = path)
  /\ (path <> "~" -> HasPrefix path "~/" = false -> ExpandTilde HOME path = path).
Proof.
  intros Hh. split; [|split].
  - unfold ExpandTilde at 2.
    destruct (negb (bool_decide (path = "~")) && negb (HasPrefix path "~/")) eqn:E.
    + done.
    + destruct (decide (HOME = EmptyString)) as [Hhome|Hhome]; [done|].
      * destruct HOME as [|c home]; [done|].
        assert (c <> "~"%char) as Hc.
        { intros ->. unfold HasPrefix in Hh. rewrite prefix_cons, prefix_empty in Hh.
          by destruct (ascii_dec "~" "~"). }
        change (String c home +:+ from_1 path) with (String c (home +:+ from_1 path)).
        destruct (not_tilde_path c (home +:+ from_1 path) Hc) as (H1 & H2 & _).
        unfold ExpandTilde at 1. rewrite H1, H2. simpl.
        unfold ExpandTilde. rewrite E. by rewrite decide_False.
  - intros ->. unfold ExpandTilde.
    destruct (negb (bool_decide (path = "~")) && negb (HasPrefix path "~/")); [done|].
    by rewrite decide_True.
  - intros H1 H2. unfold ExpandTilde. rewrite H2.
    by rewrite bool_decide_eq_false_2.
Qed.

(** TestExpandTilde *)
Lemma ExpandTilde_idempotent_witness :
  ExpandTilde "/home/user" (ExpandTilde "/home/user" "~/bin/hook")
  = ExpandTilde "/home/user" "~/bin/hook"
  /\ ExpandTilde "/home/user" "~/bin/hook" = "/home/user/bin/hook"
  /\ ExpandTilde "/home/user" "~bob/bin/hook" = "~bob/bin/hook".
Proof.
  destruct (ExpandTilde_idempotent "/home/user" "~/bin/hook" eq_refl) as (H1 & _ & _).
  destruct (ExpandTilde_idempotent "/home/user" "~bob/bin/hook" eq_refl) as (_ & _ & H3).
  split; [exact H1|]. split; [reflexivity|]. apply H3; [discriminate|reflexivity].
Defined.

(** X4: the two tilde expansions of the repository, ExpandTilde of pathutil
    and expandTilde of the runner, give the same path when HOME is not set and
    on every path that is ~, begins with ~/, or does not begin with ~.  On a
    path ~x... with x other than /, pathutil leaves the path as it is and the
    runner replaces the tilde by the home directory. *)
Theorem ExpandTilde_and_expandTilde (HOME : string) :
  (forall path,
     HOME = EmptyString \/ path = "~" \/ HasPrefix path "~/" = true
     \/ HasPrefix path "~" = false ->
     ExpandTilde HOME path = expandTilde HOME path)
  /\ (forall c rest,
        HOME <> EmptyString -> c <> "/"%char ->
        ExpandTilde HOME (String "~" (String c rest)) = String "~" (String c rest)
        /\ expandTilde HOME (String "~" (String c rest)) = HOME +:+ String c rest).
Proof.
  split.
  - intros path H. unfold ExpandTilde, expandTilde.
    destruct H as [->|[->|[H|H]]].
    + rewrite !decide_True by done. by destruct (negb _ && negb _), (negb _).
    + reflexivity.
    + rewrite H, andb_false_r.
      assert (HasPrefix path "~" = true) as ->; [|done].
      unfold HasPrefix in *. destruct path as [|c path]; [discriminate H|].
      rewrite prefix_cons in *. destruct (ascii_dec "~" c); [apply prefix_empty|done].
    + rewrite H. simpl.
      assert (bool_decide (path = "~") = false) as ->.
      { apply bool_decide_eq_false. intros ->. vm_compute in H. discriminate H. }
      assert (HasPrefix path "~/" = false) as ->; [|done].
      unfold HasPrefix in *. destruct path as [|c path]; [done|].
      rewrite prefix_cons in *. destruct (ascii_dec "~" c); [|done].
      rewrite prefix_empty in H. discriminate H.
  - intros c rest Hh Hc. unfold ExpandTilde, expandTilde, HasPrefix.
    rewrite !prefix_cons, prefix_empty.
    destruct (ascii_dec "~" "~") as [_|Hn]; [|done].
    destruct (ascii_dec "/" c) as [<-|_]; [done|].
    rewrite bool_decide_eq_false_2 by discriminate. simpl.
    by rewrite decide_False.
Qed.

Lemma ExpandTilde_and_expandTilde_witness :
  ExpandTilde "/home/user" "~/bin/hook" = expandTilde "/home/user" "~/bin/hook"
  /\ ExpandTilde "/home/user" "~bob/bin/hook" = "~bob/bin/hook"
  /\ expandTilde "/home/user" "~bob/bin/hook" = "/home/userbob/bin/hook".
Proof.
  destruct (ExpandTilde_and_expandTilde "/home/user") as [H1 H2].
  split.
  - apply H1. right. right. left. reflexivity.
  - apply (H2 "b"%char "ob/bin/hook"); discriminate.
Defined.

End PathFacts.

(** ** What the audit record holds of a hook's standard error and of the
       tool input *)

Module DetailFacts.

Import hook pipeline StringFacts.

Lemma TruncateStderr_length (s : string) (max : Z) :
  Z.of_nat (String.length (audit.TruncateStderr s max)) <= Z.max 0 max.
Proof.
  unfold audit.TruncateStderr.
  destruct (max <=? 0) eqn:E0; [simpl; lia|].
  destruct (Z.of_nat (String.length s) <=? max) eqn:E1; [lia|].
  destruct (max <=? 3) eqn:E3.
  - rewrite substring_0_length. lia.
  - rewrite length_append, substring_0_length. simpl. lia.
Qed.

(** X5: TruncateStderr never returns more than max bytes; it returns a
    string of at most max bytes as it is; and of a longer one, when max is
    above 3, it keeps the first max - 3 bytes and puts three dots after
    them. *)
Theorem TruncateStderr_bounded_prefix (s : string) (max : Z) :
  Z.of_nat (String.length (audit.TruncateStderr s max)) <= Z.max 0 max
  /\ (Z.of_nat (String.length s) <= max -> audit.TruncateStderr s max = s)
  /\ (3 < max < Z.of_nat (String.length s) ->
      exists kept dropped,
        s = kept +:+ dropped
        /\ Z.of_nat (String.length kept) = max - 3
        /\ audit.TruncateStderr s max = kept +:+ "...").
Proof.
  split; [apply TruncateStderr_length|]. unfold audit.TruncateStderr. split.
  - intros H. destruct (max <=? 0) eqn:E0.
    + destruct s; [done|]. simpl in H. lia.
    + destruct (Z.of_nat (String.length s) <=? max) eqn:E1; [done|lia].
  - intros [H3 Hs]. destruct (max <=? 0) eqn:E0; [lia|].
    destruct (Z.of_nat (String.length s) <=? max) eqn:E1; [lia|].
    destruct (max <=? 3) eqn:E3; [lia|].
    destruct (substring_0_split (Z.to_nat (max - 3)) s) as [dropped Hd].
    exists (substring 0 (Z.to_nat (max - 3)) s), dropped.
    split; [done|]. split; [|done]. rewrite substring_0_length. lia.
Qed.

(** TestTruncateStderr *)
Lemma TruncateStderr_witness :
  audit.TruncateStderr "hello" 5 = "hello"
  /\ exists kept dropped,
       "hello world" = kept +:+ dropped
       /\ Z.of_nat (String.length kept) = 5
       /\ audit.TruncateStderr "hello world" 8 = kept +:+ "...".
Proof.
  split.
  - apply (TruncateStderr_bounded_prefix "hello" 5). simpl. lia.
  - apply (TruncateStderr_bounded_prefix "hello world" 8). simpl. lia.
Defined.

Lemma count_newlines_append (a b : string) :
  count_newlines (a +:+ b) = count_newlines a + count_newlines b.
Proof. induction a as [|c a IH]; simpl; [done|]. rewrite IH. lia. Qed.

Lemma count_newlines_nonneg (s : string) : 0 <= count_newlines s.
Proof. induction s as [|c s IH]; simpl; [done|]. destruct (Ascii.eqb c _); lia. Qed.

(** X6: countLines is 0 on the empty string only, and at least 1 otherwise;
    and the lines of two texts that are not empty, put one after the other
    with a newline between, are counted as the lines of the one plus the lines
    of the other. *)
Theorem countLines_adds_up (a b : string) :
  (countLines a = 0 <-> a = EmptyString)
  /\ (a <> EmptyString -> 1 <= countLines a)
  /\ (a <> EmptyString -> b <> EmptyString ->
      countLines (a +:+ newline +:+ b) = countLines a + countLines b).
Proof.
  unfold countLines. pose proof (count_newlines_nonneg a) as Ha. split; [|split].
  - case_decide; [done|]. split; [lia|done].
  - intros H. rewrite decide_False by done. lia.
  - intros H1 H2. rewrite !decide_False; try done.
    + rewrite !count_newlines_append. simpl. lia.
    + by destruct a.
Qed.

Lemma countLines_witness :
  countLines ("a" +:+ newline +:+ "b" +:+ newline +:+ "c" +:+ newline +:+ "d") = 4.
Proof.
  destruct (countLines_adds_up ("a" +:+ newline +:+ "b") ("c" +:+ newline +:+ "d"))
    as (_ & _ & H).
  change ("a" +:+ newline +:+ "b" +:+ newline +:+ "c" +:+ newline +:+ "d")
    with (("a" +:+ newline +:+ "b") +:+ newline +:+ "c" +:+ newline +:+ "d").
  rewrite H; [reflexivity|discriminate|discriminate].
Defined.

Lemma extractToolDetail_length (input : Input) :
  (String.length (extractToolDetail input) <= 256)%nat.
Proof.
  unfold extractToolDetail.
  destruct (len_zero (ToolInput input)); [simpl; lia|].
  match goal with
  | |- context [match ?d with Some _ => _ | None => _ end] => destruct d as [d'|]
  end; [|simpl; lia].
  destruct (256 <? String.length d')%nat eqn:E.
  - rewrite substring_0_length. lia.
  - apply Nat.ltb_ge in E. lia.
Qed.

(** X7: the tool detail of an audit record never exceeds 256 bytes; it is
    empty when the envelope has no tool input and for every tool other than
    Bash, Read, Write and Edit. *)
Theorem extractToolDetail_bounded (input : Input) :
  (String.length (extractToolDetail input) <= 256)%nat
  /\ (len_zero (ToolInput input) = true -> extractToolDetail input = EmptyString)
  /\ (ToolName input ∉ ["Bash"; "Read"; "Write"; "Edit"] ->
      extractToolDetail input = EmptyString).
Proof.
  split; [apply extractToolDetail_length|]. unfold extractToolDetail. split.
  - by intros ->.
  - intros Hn. destruct (len_zero (ToolInput input)); [done|].
    rewrite !elem_of_cons in Hn.
    rewrite !decide_False; [done|..]; intros Ht; apply Hn; tauto.
Qed.

Lemma extractToolDetail_witness :
  extractToolDetail (doubles.makeInput (JObj [("command", JStr "ls")])) = "ls"
  /\ extractToolDetail
       {| SessionID := ""; TranscriptPath := ""; CWD := ""; PermissionMode := "";
          HookEventName := "PreToolUse"; ToolName := "Glob"; ToolUseID := "";
          ToolInput := Doc (JObj [("pattern", JStr "*.go")]); rawFields := None |}
     = EmptyString.
Proof.
  split; [vm_compute; reflexivity|].
  apply extractToolDetail_bounded. simpl.
  rewrite !elem_of_cons.
  intros [H|[H|[H|[H|H]]]]; try discriminate H. by apply elem_of_nil in H.
Defined.

End DetailFacts.

(** ** Round trips of the codec *)

Module RoundTripFacts.

Import hook GoJsonFacts CodecFacts.

Lemma HookSpecificOutput_round_trip (h : HookSpecificOutput) (j : json) :
  marshal_HookSpecificOutput h = Ok j ->
  updatedInput h <> Empty ->
  decode_HookSpecificOutput zero_HookSpecificOutput j = Ok h.
Proof.
  destruct h as [ev pd pr ui ac].
  unfold marshal_HookSpecificOutput, omit_raw. simpl.
  destruct ui as [| |t|v]; simpl; try done; intros [= <-] _;
    unfold omit_string; repeat case_decide; subst; reflexivity.
Qed.

Lemma step_Output_hookSpecificOutput (cur : hook.Output) (j : json)
    (h : HookSpecificOutput) :
  decode_HookSpecificOutput (hookSpecificOutput cur) j = Ok h ->
  step_Output cur "hookSpecificOutput" j
  = Ok {| hookSpecificOutput := h; continue := continue cur;
          suppressOutput := suppressOutput cur; systemMessage := systemMessage cur |}.
Proof.
  intros H. unfold step_Output.
  change (field_named "hookSpecificOutput" "hookSpecificOutput") with true.
  cbv iota. by rewrite H.
Qed.

(** X8: what json.Marshal writes for an Output, json.Unmarshal reads back
    as the same Output, the one exception being an updatedInput that is an
    empty slice other than nil, which is left out like nil and so read back as
    nil. *)
Theorem Output_round_trip (o : hook.Output) (b : RawMessage) :
  Marshal_Output o = Ok b ->
  updatedInput (hookSpecificOutput o) <> Empty ->
  Unmarshal_Output b = Ok o.
Proof.
  destruct o as [h c s m]. unfold Marshal_Output. simpl.
  destruct (marshal_HookSpecificOutput h) as [j|] eqn:Eh; simpl; [|done].
  intros [= <-] Hne.
  pose proof (HookSpecificOutput_round_trip h j Eh Hne) as Hh.
  unfold Unmarshal_Output. cbn [decode_members app].
  rewrite (step_Output_hookSpecificOutput zero_Output j h Hh).
  unfold omit_string, omit_bool_ptr.
  case_decide; subst; destruct c as [[]|], s as [[]|]; reflexivity.
Qed.

(** TestOutputMarshal *)
Lemma Output_round_trip_witness :
  Unmarshal_Output
    (Doc (JObj [("hookSpecificOutput",
                 JObj [("hookEventName", JStr "PreToolUse");
                       ("permissionDecision", JStr "deny");
                       ("permissionDecisionReason", JStr "dangerous command")])]))
  = Ok {| hookSpecificOutput :=
            {| hookEventName := "PreToolUse"; permissionDecision := "deny";
               permissionDecisionReason := "dangerous command";
               updatedInput := Nil; additionalContext := "" |};
          continue := None; suppressOutput := None; systemMessage := "" |}.
Proof.
  apply Output_round_trip; [reflexivity|discriminate].
Defined.

(** Reading back what the encoder wrote for a map of JSON texts gives the
    map. *)
Lemma members_to_map_marshalled (g : gmap string RawMessage) (out : list (string * json)) :
  Marshal_map (Some g) = Ok (Doc (JObj out)) ->
  map_Forall (fun _ r => exists v, r = Doc v) g ->
  members_to_map out = g.
Proof.
  intros Hm Hg. destruct (Marshal_map_lookup g _ Hm) as (out' & [= <-] & _ & Hl).
  apply map_eq. intros k. rewrite members_to_map_lookup. specialize (Hl k).
  destruct (g !! k) as [r|] eqn:Er; inversion Hl as [r' w Hrw|]; subst; simpl; [|done].
  destruct (Hg k r Er) as [v ->]. simpl in Hrw. by injection Hrw as ->.
Qed.

Lemma members_to_map_docs (ms : list (string * json)) :
  map_Forall (fun _ r => exists v, r = Doc v) (members_to_map ms).
Proof.
  intros k r Hr. rewrite members_to_map_lookup in Hr.
  destruct (lookup_last k ms) as [v|]; simpl in Hr; [|done].
  injection Hr as <-. by exists v.
Qed.

Lemma docs_marshal (g : gmap string RawMessage) :
  map_Forall (fun _ r => exists v, r = Doc v) g ->
  exists out, Marshal_map (Some g) = Ok (Doc (JObj out)).
Proof.
  intros Hg. destruct (Marshal_map_ok g) as [b Hb].
  { intros k r Hr. destruct (Hg k r Hr) as [v ->]. by exists v. }
  destruct (Marshal_map_lookup g b Hb) as (out & -> & _). by exists out.
Qed.

(** Decode reads an object through the map of its members only. *)
Lemma Decode_by_map (ms ms' : list (string * json)) :
  members_to_map ms = members_to_map ms' ->
  Decode (Doc (JObj ms)) = Decode (Doc (JObj ms')).
Proof.
  intros H. unfold Decode, UnmarshalJSON.
  change (Unmarshal_map (Doc (JObj ms))) with (Ok (Some (members_to_map ms)) : res GoMap).
  change (Unmarshal_map (Doc (JObj ms'))) with (Ok (Some (members_to_map ms')) : res GoMap).
  by rewrite H.
Qed.

(** X9: an envelope that Decode accepts survives a second round trip
    unchanged: encoding the decoded envelope gives an object that Decode reads
    as the very same envelope, known fields, tool input and raw fields. *)
Theorem Decode_Encode_Decode (ms : list (string * json)) (inp : Input) :
  Decode (Doc (JObj ms)) = Ok inp ->
  exists out,
    Encode inp = Ok (Doc (JObj out))
    /\ Decode (Doc (JObj out)) = Ok inp.
Proof.
  intros Hd. destruct (Decode_object ms inp Hd) as [_ Hm].
  destruct (docs_marshal _ (members_to_map_docs ms)) as [out Hout].
  exists out. unfold Encode. rewrite Hm, Hout. split; [done|].
  rewrite <- Hd. apply Decode_by_map.
  by apply members_to_map_marshalled; [|apply members_to_map_docs].
Qed.

Lemma Decode_Encode_Decode_witness :
  exists inp out,
    Decode (Doc (JObj [("tool_name", JStr "Bash"); ("tool_name", JStr "Read");
                       ("unknownField", JStr "should survive")])) = Ok inp
    /\ ToolName inp = "Read"
    /\ Encode inp = Ok (Doc (JObj out))
    /\ Decode (Doc (JObj out)) = Ok inp.
Proof.
  eexists.
  destruct (Decode_Encode_Decode
              [("tool_name", JStr "Bash"); ("tool_name", JStr "Read");
               ("unknownField", JStr "should survive")] _ eq_refl) as (out & H1 & H2).
  exists out. split; [reflexivity|]. split; [reflexivity|]. split; [exact H1|exact H2].
Defined.

(** The map MarshalJSON hands to the encoder. *)
Definition encoded_map (inp : Input) : gmap string RawMessage :=
  let out := entries (rawFields inp) in
  let out := overlay "session_id" (SessionID inp) out in
  let out := overlay "transcript_path" (TranscriptPath inp) out in
  let out := overlay "cwd" (CWD inp) out in
  let out := overlay "permission_mode" (PermissionMode inp) out in
  let out := overlay "hook_event_name" (HookEventName inp) out in
  let out := overlay "tool_name" (ToolName inp) out in
  let out := overlay "tool_use_id" (ToolUseID inp) out in
  if decide (ToolInput inp = Nil) then out else <["tool_input" := ToolInput inp]> out.

Lemma MarshalJSON_encoded_map (inp : Input) :
  MarshalJSON inp = Marshal_map (Some (encoded_map inp)).
Proof. reflexivity. Qed.

Lemma overlay_lookup_ne (key field : string) (g : gmap string RawMessage) (k : string) :
  k <> key -> overlay key field g !! k = g !! k.
Proof. intros H. unfold overlay. case_decide; [done|]. by rewrite lookup_insert_ne. Qed.

Lemma overlay_ext (key field : string) (g g' : gmap string RawMessage) (k : string) :
  g !! k = g' !! k -> overlay key field g !! k = overlay key field g' !! k.
Proof.
  intros H. unfold overlay. case_decide; [done|].
  destruct (decide (k = key)) as [->|Hk].
  - by rewrite !lookup_insert_eq.
  - by rewrite !lookup_insert_ne.
Qed.

Lemma encoded_map_WithToolInput (inp : Input) (m : RawMessage) (k : string) :
  encoded_map (WithToolInput inp m) !! k
  = if decide (k = "tool_input") then Some m else encoded_map inp !! k.
Proof.
  unfold encoded_map, WithToolInput. cbn [SessionID TranscriptPath CWD PermissionMode
    HookEventName ToolName ToolUseID ToolInput rawFields entries default].
  unfold id.
  destruct (decide (k = "tool_input")) as [->|Hk].
  - destruct (decide (m = Nil)) as [->|Hm].
    + rewrite !overlay_lookup_ne by done. by rewrite lookup_insert_eq.
    + by rewrite lookup_insert_eq.
  - assert (forall a b : gmap string RawMessage,
              a !! k = b !! k ->
              (if decide (m = Nil) then a else <["tool_input" := m]> a) !! k
              = (if decide (ToolInput inp = Nil) then b
                 else <["tool_input" := ToolInput inp]> b) !! k) as Hlast.
    { intros a b Hab. repeat case_decide; by rewrite ?lookup_insert_ne. }
    apply Hlast. repeat apply overlay_ext. by rewrite lookup_insert_ne.
Qed.

(** X10: WithToolInput changes the tool input and nothing else of what a
    hook is sent: when the envelope encodes and the new tool input is nil or a
    JSON text, the copy encodes to an object that has the new tool input under
    tool_input (null for nil) and, under every other key, what the encoding of
    the original has. *)
Theorem WithToolInput_changes_only_tool_input (inp : Input) (m : RawMessage)
    (a : list (string * json)) (v : json) :
  Encode inp = Ok (Doc (JObj a)) ->
  marshal_raw m = Ok v ->
  exists b,
    Encode (WithToolInput inp m) = Ok (Doc (JObj b))
    /\ lookup_last "tool_input" b = Some v
    /\ forall k, k <> "tool_input" -> lookup_last k b = lookup_last k a.
Proof.
  unfold Encode. rewrite !MarshalJSON_encoded_map. intros Ha Hv.
  destruct (Marshal_map (Some (encoded_map inp))) as [a'|] eqn:Ea; [|done].
  injection Ha as ->.
  destruct (Marshal_map_lookup _ _ Ea) as (a' & [= <-] & _ & Hla).
  destruct (Marshal_map_ok (encoded_map (WithToolInput inp m))) as [out Hout].
  { intros k r Hr. rewrite encoded_map_WithToolInput in Hr. case_decide.
    - injection Hr as <-. by exists v.
    - specialize (Hla k). rewrite Hr in Hla. inversion Hla. by eexists. }
  rewrite Hout. destruct (Marshal_map_lookup _ _ Hout) as (b & -> & _ & Hlb).
  exists b. split; [done|]. split.
  - specialize (Hlb "tool_input"). rewrite encoded_map_WithToolInput in Hlb.
    rewrite decide_True in Hlb by done. inversion Hlb as [r w Hrw|]. congruence.
  - intros k Hk. specialize (Hlb k). specialize (Hla k).
    rewrite encoded_map_WithToolInput, decide_False in Hlb by done.
    destruct Hla; inversion Hlb; congruence.
Qed.

(** TestWithToolInput, with a key that Input does not know; and an envelope
    without tool input, whose copy with the same, absent, tool input is sent
    with tool_input: null. *)
Lemma WithToolInput_witness :
  (exists b,
     Encode (WithToolInput (doubles.makeInput (JObj [("command", JStr "ls")]))
                           (Doc (JObj [("command", JStr "ls -la")])))
     = Ok (Doc (JObj b))
     /\ lookup_last "tool_input" b = Some (JObj [("command", JStr "ls -la")])
     /\ lookup_last "tool_name" b = Some (JStr "Bash"))
  /\ (exists b,
        Encode (WithToolInput zero_Input Nil) = Ok (Doc (JObj b))
        /\ lookup_last "tool_input" b = Some JNull).
Proof.
  split.
  - destruct (Encode (doubles.makeInput (JObj [("command", JStr "ls")]))) as [a|] eqn:Ea;
      [|vm_compute in Ea; discriminate Ea].
    vm_compute in Ea. injection Ea as <-.
    match goal with
    | |- context [WithToolInput ?i ?m] =>
        destruct (WithToolInput_changes_only_tool_input i m
                    [("hook_event_name", JStr "PreToolUse");
                     ("tool_input", JObj [("command", JStr "ls")]);
                     ("tool_name", JStr "Bash")]
                    (JObj [("command", JStr "ls -la")]))
          as (b & H1 & H2 & H3)
    end.
    + vm_compute. reflexivity.
    + reflexivity.
    + exists b. split; [exact H1|]. split; [exact H2|].
      rewrite H3 by discriminate. reflexivity.
  - destruct (WithToolInput_changes_only_tool_input zero_Input Nil [] JNull)
      as (b & H1 & H2 & _).
    + vm_compute. reflexivity.
    + reflexivity.
    + exists b. split; [exact H1|exact H2].
Defined.

Lemma known_field_insert (g : gmap string RawMessage) (key cur : string) (m : RawMessage) :
  key <> "tool_input" ->
  known_field (Some (<["tool_input" := m]> g)) key cur = known_field (Some g) key cur.
Proof. intros H. unfold known_field, map_get. by rewrite lookup_insert_ne. Qed.

(** X11: the sub-envelope of a decoded envelope, with a JSON text as tool
    input, is encoded to an object that Decode reads as that sub-envelope: a
    hook that decodes its standard input the way hook-chain does finds the
    fields of the original, the new tool input, and the raw fields with
    tool_input replaced. *)
Theorem sub_envelope_round_trip (ms : list (string * json)) (inp : Input) (v : json) :
  Decode (Doc (JObj ms)) = Ok inp ->
  exists out,
    Encode (WithToolInput inp (Doc v)) = Ok (Doc (JObj out))
    /\ Decode (Doc (JObj out)) = Ok (WithToolInput inp (Doc v))
    /\ lookup_last "tool_input" out = Some v
    /\ forall k, k <> "tool_input" -> lookup_last k out = lookup_last k ms.
Proof.
  intros Hd.
  assert (encoded_map inp = members_to_map ms) as Hm.
  { revert Hd. unfold Decode, UnmarshalJSON. simpl. known_fields.
    intros [= <-]. unfold encoded_map. simpl.
    repeat match goal with
           | H : known_field (Some ?g) ?k _ = Ok ?s |- context [overlay ?k ?s ?g] =>
               rewrite (overlay_known_field g k s H)
           end.
    destruct (members_to_map ms !! "tool_input") as [w|] eqn:E.
    - case_decide; [done|]. by rewrite insert_id.
    - by rewrite decide_True. }
  assert (encoded_map (WithToolInput inp (Doc v))
          = <["tool_input" := Doc v]> (members_to_map ms)) as Hm'.
  { apply map_eq. intros k. rewrite encoded_map_WithToolInput, Hm.
    case_decide; subst; by rewrite ?lookup_insert_eq, ?lookup_insert_ne. }
  assert (map_Forall (fun _ r => exists w, r = Doc w)
            (<["tool_input" := Doc v]> (members_to_map ms))) as Hdocs.
  { apply map_Forall_insert_2; [by eexists|apply members_to_map_docs]. }
  destruct (docs_marshal _ Hdocs) as [out Hout].
  pose proof (members_to_map_marshalled _ _ Hout Hdocs) as Hback.
  exists out. unfold Encode. rewrite MarshalJSON_encoded_map, Hm', Hout.
  split; [done|]. split; [|split].
  - revert Hd. unfold Decode, UnmarshalJSON.
    change (Unmarshal_map (Doc (JObj ms))) with (Ok (Some (members_to_map ms)) : res GoMap).
    change (Unmarshal_map (Doc (JObj out))) with (Ok (Some (members_to_map out)) : res GoMap).
    rewrite Hback. cbv iota beta.
    rewrite !known_field_insert by done.
    cbn [SessionID TranscriptPath CWD PermissionMode HookEventName ToolName ToolUseID
         ToolInput zero_Input].
    known_fields. intros [= <-]. unfold WithToolInput, map_get. simpl.
    by rewrite lookup_insert_eq.
  - assert (members_to_map out !! "tool_input" = Some (Doc v)) as H
      by (by rewrite Hback, lookup_insert_eq).
    rewrite members_to_map_lookup in H.
    destruct (lookup_last "tool_input" out); simpl in H; congruence.
  - intros k Hk.
    assert (members_to_map out !! k = members_to_map ms !! k) as H
      by (by rewrite Hback, lookup_insert_ne).
    rewrite !members_to_map_lookup in H.
    destruct (lookup_last k out), (lookup_last k ms); simpl in H; congruence.
Qed.

Lemma sub_envelope_witness :
  exists inp out,
    Decode (Doc (JObj [("tool_name", JStr "Bash"); ("extra", JNum "1");
                       ("tool_input", JObj [("command", JStr "ls")])])) = Ok inp
    /\ Encode (WithToolInput inp (Doc (JObj [("command", JStr "ls -la")])))
       = Ok (Doc (JObj out))
    /\ Decode (Doc (JObj out))
       = Ok (WithToolInput inp (Doc (JObj [("command", JStr "ls -la")])))
    /\ lookup_last "extra" out = Some (JNum "1").
Proof.
  eexists.
  destruct (sub_envelope_round_trip
              [("tool_name", JStr "Bash"); ("extra", JNum "1");
               ("tool_input", JObj [("command", JStr "ls")])] _
              (JObj [("command", JStr "ls -la")]) eq_refl) as (out & H1 & H2 & _ & H4).
  exists out. split; [reflexivity|]. split; [exact H1|]. split; [exact H2|].
  rewrite H4 by discriminate. reflexivity.
Defined.

End RoundTripFacts.

(** ** How merges compose, and the normal form *)

Module AlgebraFacts.

Import hook pipeline GoJsonFacts MergeFacts RoundTripFacts.

Lemma union_docs (g1 g2 : gmap string RawMessage) :
  map_Forall (fun _ r => exists v, r = Doc v) g1 ->
  map_Forall (fun _ r => exists v, r = Doc v) g2 ->
  map_Forall (fun _ r => exists v, r = Doc v) (g1 ∪ g2).
Proof.
  intros H1 H2 k r Hr. apply lookup_union_Some_raw in Hr as [Hr|[_ Hr]].
  - by apply (H1 k).
  - by apply (H2 k).
Qed.

(** The merge of two objects is the encoding of the union of their maps,
    and reads back as that union. *)
Lemma merge_objects_union (bms pms : list (string * json)) :
  exists ms,
    Marshal_map (Some (members_to_map pms ∪ members_to_map bms)) = Ok (Doc (JObj ms))
    /\ shallowMergeJSON (Doc (JObj bms)) (Doc (JObj pms)) = Done (Ok (Doc (JObj ms)))
    /\ members_to_map ms = members_to_map pms ∪ members_to_map bms.
Proof.
  set (g := members_to_map pms ∪ members_to_map bms).
  assert (map_Forall (fun _ r => exists v, r = Doc v) g) as Hg
    by (apply union_docs; apply members_to_map_docs).
  destruct (docs_marshal g Hg) as [ms Hms]. exists ms. split; [done|]. split.
  - unfold shallowMergeJSON. simpl. rewrite range_assign_spec. simpl. fold g.
    change (match marshal_members (sorted_entries g) ≫= (fun ms => Ok (Doc (JObj ms))) with
            | Ok result => Done (Ok result)
            | Err err => Done (Err (Wrapped "shallowMergeJSON marshal" err))
            end) with
           (match Marshal_map (Some g) with
            | Ok result => Done (Ok result)
            | Err err => Done (Err (Wrapped "shallowMergeJSON marshal" err))
            end).
    by rewrite Hms.
  - by apply members_to_map_marshalled.
Qed.

(** X12: merging is associative on objects: applying a first patch and then
    a second to a base gives the very bytes that applying the merge of the two
    patches gives; none of the four merges fails. *)
Theorem merge_associative (bms p1 p2 : list (string * json)) :
  exists m1 m12 result,
    shallowMergeJSON (Doc (JObj bms)) (Doc (JObj p1)) = Done (Ok (Doc (JObj m1)))
    /\ shallowMergeJSON (Doc (JObj m1)) (Doc (JObj p2)) = Done (Ok result)
    /\ shallowMergeJSON (Doc (JObj p1)) (Doc (JObj p2)) = Done (Ok (Doc (JObj m12)))
    /\ shallowMergeJSON (Doc (JObj bms)) (Doc (JObj m12)) = Done (Ok result).
Proof.
  destruct (merge_objects_union bms p1) as (m1 & _ & H1 & Hm1).
  destruct (merge_objects_union m1 p2) as (r1 & Hr1 & H2 & _).
  destruct (merge_objects_union p1 p2) as (m12 & _ & H3 & Hm12).
  destruct (merge_objects_union bms m12) as (r2 & Hr2 & H4 & _).
  exists m1, m12, (Doc (JObj r1)). repeat split; try done.
  rewrite H4. rewrite Hm1 in Hr1. rewrite Hm12 in Hr2.
  rewrite (assoc_L (∪)) in Hr1. congruence.
Qed.

(** X13: merging is idempotent on objects: a patch applied a second time
    changes nothing, byte for byte. *)
Theorem merge_idempotent (bms pms : list (string * json)) :
  exists ms,
    shallowMergeJSON (Doc (JObj bms)) (Doc (JObj pms)) = Done (Ok (Doc (JObj ms)))
    /\ shallowMergeJSON (Doc (JObj ms)) (Doc (JObj pms)) = Done (Ok (Doc (JObj ms))).
Proof.
  destruct (merge_objects_union bms pms) as (ms & Hr & H1 & Hm).
  destruct (merge_objects_union ms pms) as (ms' & Hr' & H2 & _).
  exists ms. split; [done|]. rewrite H2. rewrite Hm in Hr'.
  rewrite (assoc_L (∪)), (idemp_L (∪)) in Hr'. congruence.
Qed.

Section Normal.

Context (lib : GoLib).

Lemma foldl_sorted_entries (g : gmap string json) :
  foldl (fun g kv => <[fst kv := snd kv]> g) (∅ : gmap string json) (sorted_entries g) = g.
Proof.
  apply map_eq. intros k.
  rewrite (foldl_insert_lookup (fun v => v)), sorted_entries_lookup.
  destruct (g !! k); [done|]. apply lookup_empty.
Qed.

(** Where json.Unmarshal succeeds, normalizeJSON writes an object from the
    map of its members alone. *)
Lemma normal_by_lookup (ms1 ms2 : list (string * json)) (v1 v2 : json) :
  (forall k, lookup_last k ms1 = lookup_last k ms2) ->
  normal lib (JObj ms1) = Some v1 -> normal lib (JObj ms2) = Some v2 -> v1 = v2.
Proof.
  intros Hl H1 H2.
  apply EngineFacts.normal_obj in H1 as (m1 & Hm1 & ->).
  apply EngineFacts.normal_obj in H2 as (m2 & Hm2 & ->).
  f_equal. f_equal. apply map_eq. intros k.
  pose proof (EngineFacts.normal_members_lookup lib ms1 m1 k Hm1) as E1.
  pose proof (EngineFacts.normal_members_lookup lib ms2 m2 k Hm2) as E2.
  rewrite <- Hl in E2.
  destruct E1; inversion E2; subst; congruence.
Qed.

(** X14: as long as its numbers are within float64, normalizeJSON does not
    see the order of the members of an object: two objects with the same
    members, no key twice, in any two orders have the same normal form, so
    that bytes.Equal finds them unchanged. *)
Theorem normalizeJSON_ignores_member_order (ms1 ms2 : list (string * json)) :
  ms1 ≡ₚ ms2 -> NoDup ms1.*1 ->
  EngineFacts.in_float64 lib (JObj ms1) ->
  normalizeJSON lib (Doc (JObj ms1)) = normalizeJSON lib (Doc (JObj ms2))
  /\ bytes_Equal (normalizeJSON lib (Doc (JObj ms1))) (normalizeJSON lib (Doc (JObj ms2)))
     = true.
Proof.
  intros Hp Hnd Hf1.
  assert (EngineFacts.in_float64 lib (JObj ms2)) as Hf2.
  { inversion Hf1 as [| | | | |ms Hms]; subst. constructor. by rewrite <- Hp. }
  apply EngineFacts.normal_in_float64 in Hf1 as [v1 H1], Hf2 as [v2 H2].
  assert (normalizeJSON lib (Doc (JObj ms1)) = normalizeJSON lib (Doc (JObj ms2))) as H.
  { unfold normalizeJSON. rewrite H1, H2. f_equal.
    apply (normal_by_lookup ms1 ms2); [|done..]. intros k.
    apply option_eq. intros v.
    rewrite !lookup_last_elem_of; [by rewrite Hp|by rewrite <- Hp|done]. }
  split; [done|]. rewrite H. apply EngineFacts.bytes_Equal_refl.
Qed.

Lemma normal_idempotent :
  (forall x : float64 lib, ParseFloat lib (FormatFloat lib x) = Some x) ->
  forall v v', normal lib v = Some v' -> normal lib v' = Some v'.
Proof.
  intros Hf v. induction v as [|b|l|s|items IH|ms IH] using json_deep_ind; intros v' Hv.
  - simpl in Hv. by injection Hv as <-.
  - simpl in Hv. by injection Hv as <-.
  - apply EngineFacts.normal_num in Hv as (x & _ & ->). simpl. by rewrite Hf.
  - simpl in Hv. by injection Hv as <-.
  - apply EngineFacts.normal_arr in Hv as (items' & Hitems & ->).
    apply mapM_Some in Hitems.
    assert (mapM (normal lib) items' = Some items') as Hm.
    { apply mapM_Some. clear -IH Hitems.
      induction Hitems as [|x x' xs xs' Hx _ IHxs]; [constructor|].
      apply Forall_cons in IH as [Hx0 IH]. constructor; [by apply Hx0|by apply IHxs]. }
    simpl. by rewrite Hm.
  - apply EngineFacts.normal_obj in Hv as (m1 & Hm1 & ->).
    set (g := foldl (fun g kv => <[fst kv := snd kv]> g) (∅ : gmap string json) m1).
    assert (mapM (fun kv => w ← normal lib (snd kv); Some (fst kv, w)) (sorted_entries g)
            = Some (sorted_entries g)) as Hm.
    { apply mapM_Some. apply Forall2_same_length_lookup_2; [done|].
      intros i kv kv' Hi Hi'. rewrite Hi in Hi'. injection Hi' as <-.
      destruct kv as [k w]. simpl.
      assert (g !! k = Some w) as Hg.
      { rewrite <- sorted_entries_lookup.
        apply lookup_last_elem_of; [apply sorted_entries_NoDup|].
        by apply list_elem_of_lookup_2 in Hi. }
      pose proof (EngineFacts.normal_members_lookup lib ms m1 k Hm1) as E. fold g in E.
      rewrite Hg in E. inversion E as [v w' Hvw Hl|]; subst.
      symmetry in Hl. apply EngineFacts.lookup_last_In in Hl.
      rewrite Forall_forall in IH. by rewrite (IH (k, v) Hl w Hvw). }
    simpl. fold g. rewrite Hm. simpl. by rewrite foldl_sorted_entries.
Qed.

(** X15: normalizeJSON gives a normal form: as long as a number written by
    the encoder is read back as the float64 it was written for, normalizing
    what has been normalized changes nothing. *)
Theorem normalizeJSON_idempotent (data : RawMessage) :
  (forall x : float64 lib, ParseFloat lib (FormatFloat lib x) = Some x) ->
  normalizeJSON lib (normalizeJSON lib data) = normalizeJSON lib data.
Proof.
  intros Hf. destruct data as [| |t|v]; try done.
  unfold normalizeJSON. destruct (normal lib v) as [v'|] eqn:E.
  - by rewrite (normal_idempotent Hf v v' E).
  - by rewrite E.
Qed.

End Normal.

Lemma normalizeJSON_order_witness :
  normalizeJSON doubles.plain_lib (Doc (JObj [("b", JNum "2"); ("a", JNum "1")]))
  = normalizeJSON doubles.plain_lib (Doc (JObj [("a", JNum "1"); ("b", JNum "2")])).
Proof.
  apply (normalizeJSON_ignores_member_order doubles.plain_lib
           [("b", JNum "2"); ("a", JNum "1")] [("a", JNum "1"); ("b", JNum "2")]).
  - apply perm_swap.
  - simpl. apply NoDup_cons. split.
    + rewrite elem_of_cons. intros [H|H]; [discriminate H|]. by apply elem_of_nil in H.
    + apply NoDup_singleton.
  - apply (EngineFacts.normal_in_float64 doubles.plain_lib). vm_compute. eexists. reflexivity.
Defined.

(** The numbers a stand-in library that writes a float64 the way it was
    read, in lower case, reads and writes. *)
Definition echo_lib : GoLib :=
  {| strconv_Quote := strconv_Quote doubles.plain_lib;
     float64 := string;
     ParseFloat := fun l => Some l;
     FormatFloat := fun x => x;
     json_error_text := json_error_text doubles.plain_lib |}.

Lemma normalizeJSON_idempotent_witness :
  normalizeJSON echo_lib
    (normalizeJSON echo_lib (Doc (JObj [("b", JNum "2"); ("a", JArr [JNum "1.5"])])))
  = normalizeJSON echo_lib (Doc (JObj [("b", JNum "2"); ("a", JArr [JNum "1.5"])])).
Proof.
  apply (normalizeJSON_idempotent echo_lib). intros x. reflexivity.
Defined.

End AlgebraFacts.

(** ** What every run of the engine keeps *)

Module EngineInvariants.

Import hook config pipeline GoJsonFacts MergeFacts EngineFacts DetailFacts.

Section Invariants.

Context (lib : GoLib) {RunnerState AuditorState : Type}.
Context (runner_Run : RunnerState -> HookEntry -> RawMessage ->
                      RunnerState * res runner.Result).
Context (RecordChain : AuditorState -> audit.ChainExecution ->
                       AuditorState * option error).

Abbreviation step := (pipeline.step lib runner_Run).
Abbreviation loop := (pipeline.loop lib runner_Run).
Abbreviation Run := (pipeline.Run lib runner_Run RecordChain).
Abbreviation Fold := (@pipeline.Fold RunnerState).
Abbreviation Step := (@pipeline.Step RunnerState).
Abbreviation stdin_of := (@EngineFacts.stdin_of RunnerState).
Abbreviation answer_of := (EngineFacts.answer_of runner_Run).
Abbreviation state_of := (@EngineFacts.state_of RunnerState).
Abbreviation initial := (@EngineFacts.initial RunnerState).

(** The record Run keeps of a call: the position of the hook, its name, the
    exit code the Runner answered with (-1 when it answered with an error),
    and at most 512 bytes of text. *)
Definition recorded (i : Z) (c : Call) (hr : audit.HookResult) : Prop :=
  audit.HookIndex hr = i
  /\ audit.HookName hr = Name (call_hook c)
  /\ audit.ExitCode hr = match call_answer c with
                         | Ok runRes => runner.ExitCode runRes
                         | Err _ => -1
                         end
  /\ (String.length (audit.Stderr hr) <= 512)%nat.

(** What a return inside the loop hands back: a deny with exit code 2,
    logged as deny or as error, or the ask of a hook with exit code 0. *)
Definition stop_shape (input : Input) (res : Result) (outcome reason : string) : Prop :=
  (exists text, res = {| ExitCode := 2;
                         Output := decision_body (HookEventName input) "deny" text |}
                /\ (outcome = "deny" \/ outcome = "error"))
  \/ (res = {| ExitCode := 0;
               Output := decision_body (HookEventName input) "ask" reason |}
      /\ outcome = "ask").

Lemma truncated_512 (s : string) :
  (String.length (audit.TruncateStderr s 512) <= 512)%nat.
Proof. pose proof (TruncateStderr_length s 512). lia. Qed.

Lemma recorded_of (i : Z) (h : HookEntry) (bytes : RawMessage)
    (answer : res runner.Result) (code : Z) (outcome stderr : string) :
  code = match answer with
         | Ok runRes => runner.ExitCode runRes
         | Err _ => -1
         end ->
  (String.length stderr <= 512)%nat ->
  recorded i {| call_hook := h; call_input := bytes; call_answer := answer |}
           (HookResult_of i h code outcome stderr).
Proof. intros -> H. by repeat split. Qed.

(** One pass through the loop body. *)
Lemma step_shape (input : Input) (i : Z) (h : HookEntry) (st : Fold) :
  match stdin_of input st with
  | Err _ =>
      exists text logged,
        step input i h st
        = Return {| ExitCode := 2;
                    Output := decision_body (HookEventName input) "deny" text |}
                 "error" logged st
  | Ok bytes =>
      let c := {| call_hook := h; call_input := bytes;
                  call_answer := answer_of h bytes st |} in
      calls (state_of (step input i h st)) = calls st ++ [c]
      /\ match step input i h st with
         | Next st' =>
             exists hr, hookResults st' = hookResults st ++ [hr] /\ recorded i c hr
         | Return res outcome reason st' =>
             (exists hr, hookResults st' = hookResults st ++ [hr] /\ recorded i c hr)
             /\ stop_shape input res outcome reason
         | Crash _ st' => hookResults st' = hookResults st
         end
  end.
Proof.
  unfold EngineFacts.stdin_of, EngineFacts.answer_of, pipeline.step.
  destruct (Encode _) as [bytes|err]; [|rewrite denyResult_body; by eauto].
  destruct (runner_Run _ _ _) as [r' answer]. cbn [snd].
  destruct answer as [runRes|err].
  - case_decide as H2.
    { split; [done|]. split.
      - eexists. split; [done|]. apply recorded_of; [done|apply truncated_512].
      - left. rewrite denyResult_body. eauto. }
    case_decide as H0.
    { case_decide.
      - split; [done|]. eexists. split; [done|].
        apply recorded_of; [done|apply truncated_512].
      - split; [done|]. split.
        + eexists. split; [done|]. apply recorded_of; [done|apply truncated_512].
        + left. rewrite denyResult_body. eauto. }
    assert (runner.ExitCode runRes = 0) as Hz by lia.
    destruct (len_zero (runner.Stdout runRes)).
    { split; [done|]. eexists. split; [done|]. apply recorded_of; [done|simpl; lia]. }
    destruct (Unmarshal_Output _) as [output|err].
    + case_decide.
      { split; [done|]. split.
        - eexists. split; [done|]. apply recorded_of; [done|simpl; lia].
        - left. rewrite buildDecisionResult_body by done. rewrite decide_True by done.
          eauto. }
      case_decide.
      { split; [done|]. split.
        - eexists. split; [done|]. apply recorded_of; [done|simpl; lia].
        - right. rewrite buildDecisionResult_body by done. by rewrite decide_False. }
      destruct (len_zero (updatedInput (hookSpecificOutput output))).
      { split; [done|]. eexists. split; [done|]. apply recorded_of; [done|simpl; lia]. }
      destruct (shallowMergeJSON _ _) as [[merged|err]|msg].
      * split; [done|]. eexists. split; [done|]. apply recorded_of; [done|simpl; lia].
      * split; [done|]. split.
        -- eexists. split; [done|]. apply recorded_of; [done|apply truncated_512].
        -- left. rewrite denyResult_body. eauto.
      * done.
    + case_decide.
      * split; [done|]. eexists. split; [done|].
        apply recorded_of; [done|apply truncated_512].
      * split; [done|]. split.
        -- eexists. split; [done|]. apply recorded_of; [done|apply truncated_512].
        -- left. rewrite denyResult_body. eauto.
  - case_decide.
    + split; [done|]. eexists. split; [done|].
      apply recorded_of; [done|apply truncated_512].
    + split; [done|]. split.
      * eexists. split; [done|]. apply recorded_of; [done|apply truncated_512].
      * left. rewrite denyResult_body. eauto.
Qed.

(** The calls and the records of a run of the loop from index [i]: the
    calls are for the hooks in their order, one call per hook, as far as the
    loop gets; the records are for the calls, one by one, except that a call
    that ends in a panic leaves none. *)
Definition loop_trace (i : Z) (hooks : list HookEntry) (s : Step)
    (cs : list Call) (hrs : list audit.HookResult) : Prop :=
  List.map call_hook cs `prefix_of` hooks
  /\ (forall k hr, hrs !! k = Some hr ->
        exists c, cs !! k = Some c /\ recorded (i + Z.of_nat k) c hr)
  /\ match s with
     | Next _ => length cs = length hooks /\ length hrs = length cs
     | Return _ _ _ _ => length hrs = length cs
     | Crash _ _ => length cs = S (length hrs)
     end.

Lemma loop_shape (input : Input) (hooks : list HookEntry) (i : Z) (st : Fold) :
  exists cs hrs,
    calls (state_of (loop input i hooks st)) = calls st ++ cs
    /\ hookResults (state_of (loop input i hooks st)) = hookResults st ++ hrs
    /\ loop_trace i hooks (loop input i hooks st) cs hrs
    /\ match loop input i hooks st with
       | Return res outcome reason _ => stop_shape input res outcome reason
       | _ => True
       end.
Proof.
  revert i st. induction hooks as [|h rest IH]; intros i st.
  - exists [], []. simpl. rewrite !app_nil_r. repeat split; try done;
      intros k hr Hk; by rewrite lookup_nil in Hk.
  - pose proof (step_shape input i h st) as Hs. simpl.
    destruct (EngineFacts.stdin_of input st) as [bytes|err].
    + destruct Hs as [Hcalls Hs].
      destruct (pipeline.step lib runner_Run input i h st) as [st'|res o rs st'|msg st'].
      * destruct Hs as (hr & Hhr & Hrec).
        destruct (IH (i + 1) st') as (cs & hrs & Hc & Hh & (Hp & Hk & Hlen) & Hstop).
        eexists (_ :: cs), (hr :: hrs).
        simpl in Hcalls. rewrite Hc, Hh, Hcalls, Hhr, <- !app_assoc.
        split; [done|]. split; [done|]. split; [|done]. split; [|split].
        -- simpl. by apply prefix_cons.
        -- intros [|k] hr' Hl; simpl in Hl.
           ++ injection Hl as <-. eexists. split; [done|]. by rewrite Z.add_0_r.
           ++ destruct (Hk k hr' Hl) as (c & Hck & Hr). exists c. split; [exact Hck|].
              replace (i + Z.of_nat (S k)) with (i + 1 + Z.of_nat k) by lia. exact Hr.
        -- destruct (pipeline.loop lib runner_Run input (i + 1) rest st'); simpl; lia.
      * destruct Hs as [(hr & Hhr & Hrec) Hstop].
        eexists [_], [hr]. simpl in *. split; [done|]. split; [done|].
        split; [|done]. split; [|split; [|done]].
        -- simpl. apply prefix_cons, prefix_nil.
        -- intros [|k] hr' Hl; simpl in Hl; [|by rewrite lookup_nil in Hl].
           injection Hl as <-. eexists. split; [done|]. by rewrite Z.add_0_r.
      * eexists [_], []. simpl in *. rewrite app_nil_r. split; [done|]. split; [done|].
        split; [|done]. split; [|split; [|done]].
        -- simpl. apply prefix_cons, prefix_nil.
        -- intros k hr' Hl. by rewrite lookup_nil in Hl.
    + destruct Hs as (text & logged & ->). exists [], []. simpl. rewrite !app_nil_r.
      split; [done|]. split; [done|]. split.
      * split; [apply prefix_nil|]. split; [|done].
        intros k hr' Hl. by rewrite lookup_nil in Hl.
      * left. eauto.
Qed.

(** The record recordAudit sends. *)
Definition entry_of (input : Input) (hooks : list HookEntry) (outcome reason : string)
    (hookResults : list audit.HookResult) : audit.ChainExecution :=
  {| audit.EventName := HookEventName input;
     audit.ToolName := ToolName input;
     audit.ToolDetail := extractToolDetail input;
     audit.ChainLen := Z.of_nat (length hooks);
     audit.Outcome := outcome;
     audit.Reason := reason;
     audit.SessionID := SessionID input;
     audit.Hooks := hookResults |}.

Lemma Run_audit_records (input : Input) (hooks : list HookEntry) (r : RunnerState)
    (a : AuditorState) :
  audit_records (Run input hooks r (Some a))
  = match loop input 0 hooks (initial input r) with
    | Next st =>
        [entry_of input hooks (snd (fst (finish lib input st))) (snd (finish lib input st))
                  (hookResults st)]
    | Return _ outcome reason st => [entry_of input hooks outcome reason (hookResults st)]
    | Crash _ _ => []
    end.
Proof.
  unfold pipeline.Run, entry_of. destruct hooks as [|h rest].
  - simpl. rewrite finish_initial. simpl. by destruct (RecordChain _ _).
  - fold (initial input r).
    destruct (pipeline.loop _ _ _ _ _ _) as [st|res o rs st|msg st]; simpl.
    + destruct (finish lib input st) as [[res o] rs]. simpl.
      by destruct (RecordChain _ _).
    + by destruct (RecordChain _ _).
    + done.
Qed.

Lemma finish_shape (input : Input) (st : Fold) :
  (ExitCode (fst (fst (finish lib input st))) = 0
   /\ snd (fst (finish lib input st)) = "allow")
  \/ (exists text,
        fst (fst (finish lib input st))
        = {| ExitCode := 2; Output := decision_body (HookEventName input) "deny" text |}
        /\ snd (fst (finish lib input st)) = "error").
Proof.
  unfold finish. destruct (negb _ && negb _); [by left|].
  destruct (Marshal_Output _); [by left|]. right. rewrite denyResult_body. eauto.
Qed.

(** X16: Run returns exit code 0 or exit code 2 and no other; and with exit
    code 2 it always returns the body of a deny decision, carrying the event
    name of the envelope and a reason. *)
Theorem Run_exit_code_is_0_or_2 (input : Input) (hooks : list HookEntry)
    (r : RunnerState) (auditor : option AuditorState) (res : Result) :
  returned (Run input hooks r auditor) = Done res ->
  ExitCode res = 0
  \/ (ExitCode res = 2
      /\ exists text, Output res = decision_body (HookEventName input) "deny" text).
Proof.
  rewrite Run_returned.
  destruct (loop_shape input hooks 0 (initial input r)) as (cs & hrs & _ & _ & _ & Hstop).
  destruct (pipeline.loop _ _ _ _ _ _) as [st|res' o rs st|msg st]; [| |done].
  - intros [= <-]. destruct (finish_shape input st) as [[H _]|(text & -> & _)];
      [by left|right; eauto].
  - intros [= <-]. destruct Hstop as [(text & -> & _)|[-> _]]; [right; eauto|by left].
Qed.

(** X17: the one record of a run that returns agrees with what the run
    returns: its outcome is allow or ask exactly with exit code 0, deny or
    error exactly with exit code 2; it carries the event name, the tool name
    and the session id of the envelope, the length of the chain, and a tool
    detail of at most 256 bytes. *)
Theorem audit_outcome_matches_result (input : Input) (hooks : list HookEntry)
    (r : RunnerState) (a : AuditorState) (res : Result) :
  returned (Run input hooks r (Some a)) = Done res ->
  exists entry,
    audit_records (Run input hooks r (Some a)) = [entry]
    /\ (((audit.Outcome entry = "allow" \/ audit.Outcome entry = "ask")
         /\ ExitCode res = 0)
        \/ ((audit.Outcome entry = "deny" \/ audit.Outcome entry = "error")
            /\ ExitCode res = 2))
    /\ audit.EventName entry = HookEventName input
    /\ audit.ToolName entry = ToolName input
    /\ audit.SessionID entry = SessionID input
    /\ audit.ChainLen entry = Z.of_nat (length hooks)
    /\ (String.length (audit.ToolDetail entry) <= 256)%nat.
Proof.
  rewrite Run_returned, Run_audit_records.
  destruct (loop_shape input hooks 0 (initial input r)) as (cs & hrs & _ & _ & _ & Hstop).
  destruct (pipeline.loop _ _ _ _ _ _) as [st|res' o rs st|msg st]; [| |done].
  - intros [= <-]. eexists. split; [done|]. simpl.
    split; [|repeat split; apply extractToolDetail_length].
    destruct (finish_shape input st) as [[H ->]|(text & -> & ->)]; [left|right]; auto.
  - intros [= <-]. eexists. split; [done|]. simpl.
    split; [|repeat split; apply extractToolDetail_length].
    destruct Hstop as [(text & -> & Ho)|[-> ->]]; [right|left]; auto.
Qed.

(** X18: the record of a run that returns lists the calls made to the
    Runner, one entry per call and in the order of the calls: the entry of the
    k-th call has index k, the name of the hook called, the exit code the
    Runner answered with, or -1 for an error of the Runner, and a text of at
    most 512 bytes. *)
Theorem audit_lists_every_call (input : Input) (hooks : list HookEntry)
    (r : RunnerState) (a : AuditorState) (res : Result) :
  returned (Run input hooks r (Some a)) = Done res ->
  exists entry,
    audit_records (Run input hooks r (Some a)) = [entry]
    /\ length (audit.Hooks entry) = length (runner_calls (Run input hooks r (Some a)))
    /\ forall k c,
         runner_calls (Run input hooks r (Some a)) !! k = Some c ->
         exists hr, audit.Hooks entry !! k = Some hr /\ recorded (Z.of_nat k) c hr.
Proof.
  rewrite Run_returned, Run_audit_records, Run_calls.
  destruct (loop_shape input hooks 0 (initial input r))
    as (cs & hrs & Hc & Hh & (_ & Hk & Hlen) & _).
  simpl in Hc, Hh. rewrite Hc.
  assert (forall k c, cs !! k = Some c -> length hrs = length cs ->
                      exists hr, hrs !! k = Some hr /\ recorded (Z.of_nat k) c hr) as Hall.
  { intros k c Hck Hl. destruct (lookup_lt_is_Some_2 hrs k) as [hr Hhr].
    { rewrite Hl. by apply lookup_lt_Some in Hck. }
    exists hr. split; [done|]. destruct (Hk k hr Hhr) as (c' & Hc' & Hr).
    rewrite Z.add_0_l in Hr. congruence. }
  destruct (pipeline.loop _ _ _ _ _ _) as [st|res' o rs st|msg st]; [| |done];
    intros _; eexists; (split; [done|]); simpl in *; rewrite Hh;
    (split; [lia|]); intros k c Hck; apply Hall; (done || lia).
Qed.

(** X19: the Runner is called for the hooks in the order of the chain, once
    per hook and without leaving one out, up to the hook where the run ends:
    the hooks of the calls are a prefix of the chain. *)
Theorem calls_follow_the_chain (input : Input) (hooks : list HookEntry)
    (r : RunnerState) (auditor : option AuditorState) :
  List.map call_hook (runner_calls (Run input hooks r auditor)) `prefix_of` hooks
  /\ (forall res, returned (Run input hooks r auditor) = Done res ->
      Output res = Nil ->
      List.map call_hook (runner_calls (Run input hooks r auditor)) = hooks).
Proof.
  rewrite Run_returned, Run_calls.
  destruct (loop_shape input hooks 0 (initial input r))
    as (cs & hrs & Hc & _ & (Hp & _ & Hlen) & Hstop).
  simpl in Hc. rewrite Hc. split; [done|]. intros res.
  destruct (pipeline.loop _ _ _ _ _ _) as [st|res' o rs st|msg st]; [| |done].
  - intros _ _. destruct Hlen as [Hl _]. destruct Hp as [more Hm].
    assert (length more = 0%nat) as Hz.
    { apply (f_equal length) in Hm. rewrite length_app, length_map in Hm. lia. }
    destruct more; [|done]. by rewrite app_nil_r in Hm.
  - intros [= <-] Hnil. by destruct Hstop as [(text & -> & _)|[-> _]].
Qed.

(** A hook passes when it exits with code 0 and writes nothing. *)
Definition passes (answer : res runner.Result) : Prop :=
  match answer with
  | Ok runRes => runner.ExitCode runRes = 0 /\ len_zero (runner.Stdout runRes) = true
  | Err _ => False
  end.

Lemma step_passes (input : Input) (i : Z) (h : HookEntry) (st : Fold) (bytes : RawMessage) :
  stdin_of input st = Ok bytes ->
  passes (answer_of h bytes st) ->
  exists st', step input i h st = Next st'
              /\ accumulated st' = accumulated st
              /\ contextParts st' = contextParts st.
Proof.
  unfold EngineFacts.stdin_of, EngineFacts.answer_of, pipeline.step. intros ->.
  destruct (runner_Run _ _ _) as [r' [runRes|err]]; simpl; [|done].
  intros [Hz Hb]. rewrite decide_False by lia. rewrite decide_False by lia.
  rewrite Hb. by eexists.
Qed.

Lemma loop_passes (input : Input) (hooks : list HookEntry) (i : Z) (st : Fold)
    (bytes : RawMessage) :
  stdin_of input st = Ok bytes ->
  (forall k c, calls (state_of (loop input i hooks st)) !! k = Some c ->
               (length (calls st) <= k)%nat -> passes (call_answer c)) ->
  exists st' cs,
    loop input i hooks st = Next st'
    /\ accumulated st' = accumulated st
    /\ contextParts st' = contextParts st
    /\ calls st' = calls st ++ cs
    /\ List.map call_hook cs = hooks
    /\ Forall (fun c => call_input c = bytes) cs.
Proof.
  revert i st. induction hooks as [|h rest IH]; intros i st Hin Hall.
  - exists st, []. simpl. by rewrite app_nil_r.
  - pose proof (step_calls lib runner_Run input i h st) as Hs.
    fold (stdin_of input st) in Hs. rewrite Hin in Hs.
    fold (answer_of h bytes st) in Hs.
    set (c0 := {| call_hook := h; call_input := bytes;
                  call_answer := answer_of h bytes st |}) in *.
    assert (passes (answer_of h bytes st)) as Hp.
    { apply (Hall (length (calls st)) c0); [|done]. simpl.
      destruct (pipeline.step lib runner_Run input i h st) as [st1| |] eqn:Es;
        simpl in Hs.
      - destruct (loop_calls_prefix lib runner_Run input rest (i + 1) st1) as [more ->].
        rewrite Hs, <- app_assoc. by rewrite lookup_app_r, Nat.sub_diag.
      - simpl. rewrite Hs. by rewrite lookup_app_r, Nat.sub_diag.
      - simpl. rewrite Hs. by rewrite lookup_app_r, Nat.sub_diag. }
    destruct (step_passes input i h st bytes Hin Hp) as (st1 & Hstep & Hacc & Hctx).
    simpl in Hall. simpl. rewrite Hstep in *. simpl in Hs.
    destruct (IH (i + 1) st1) as (st' & cs & Hl & Hacc' & Hctx' & Hcs & Hm & Hb).
    { unfold EngineFacts.stdin_of in *. by rewrite Hacc. }
    { intros k c Hk Hlen. apply (Hall k c Hk). rewrite Hs, length_app in Hlen.
      simpl in Hlen. lia. }
    exists st', (c0 :: cs). rewrite Hl, Hacc', Hctx', Hcs, Hs, <- app_assoc.
    repeat split; try done.
    + simpl. by rewrite Hm.
    + by constructor.
Qed.

(** X20: a chain whose hooks all exit with code 0 and write nothing is a
    pure passthrough: every hook is run, each on the same bytes, the envelope
    as it came, and Run returns exit code 0 with nothing to write. *)
Theorem passing_chain_is_passthrough (input : Input) (hooks : list HookEntry)
    (r : RunnerState) (auditor : option AuditorState) (bytes : RawMessage) :
  Encode (WithToolInput input (ToolInput input)) = Ok bytes ->
  (forall c, c ∈ runner_calls (Run input hooks r auditor) -> passes (call_answer c)) ->
  returned (Run input hooks r auditor) = Done {| ExitCode := 0; Output := Nil |}
  /\ List.map call_hook (runner_calls (Run input hooks r auditor)) = hooks
  /\ Forall (fun c => call_input c = bytes) (runner_calls (Run input hooks r auditor)).
Proof.
  rewrite Run_returned, Run_calls. intros Hin Hall.
  destruct (loop_passes input hooks 0 (initial input r) bytes Hin)
    as (st' & cs & Hl & Hacc & Hctx & Hcs & Hm & Hb).
  { intros k c Hk _. apply Hall. by apply list_elem_of_lookup_2 in Hk. }
  rewrite Hl. simpl in *. rewrite Hcs. split; [|done].
  unfold finish. rewrite Hacc, Hctx. simpl. by rewrite bytes_Equal_refl.
Qed.

(** X21: every on_error policy other than skip, the absent one and a
    misspelt one included, is the deny policy: an error of the Runner, an exit
    code other than 0 and 2, or output on exit 0 that does not decode, ends
    the run at that hook with a deny of exit code 2. *)
Theorem other_policies_deny (input : Input) (i : Z) (h : HookEntry)
    (rest : list HookEntry) (st : Fold) (bytes : RawMessage) :
  OnError h <> "skip" ->
  stdin_of input st = Ok bytes ->
  absorbed_by_skip (answer_of h bytes st) ->
  exists text outcome logged st',
    loop input i (h :: rest) st
    = Return {| ExitCode := 2;
                Output := decision_body (HookEventName input) "deny" text |}
             outcome logged st'
    /\ (outcome = "deny" \/ outcome = "error")
    /\ length (calls st') = S (length (calls st)).
Proof.
  intros Hpol Hin Habs.
  assert (EffectiveOnError h <> "skip") as Heff.
  { unfold EffectiveOnError. by case_decide. }
  pose proof (step_calls lib runner_Run input i h st) as Hs.
  fold (stdin_of input st) in Hs. rewrite Hin in Hs.
  assert (exists text outcome logged st',
            step input i h st
            = Return {| ExitCode := 2;
                        Output := decision_body (HookEventName input) "deny" text |}
                     outcome logged st'
            /\ (outcome = "deny" \/ outcome = "error")) as (text & o & lg & st' & Hstep & Ho).
  { revert Hin Habs. clear Hs.
    unfold EngineFacts.stdin_of, EngineFacts.answer_of, pipeline.step. intros ->.
    destruct (runner_Run _ _ _) as [r' [runRes|err]]; simpl.
    - intros [[H0 H2]|(H0 & Hb & err & Herr)].
      + rewrite decide_False by done. rewrite decide_True by done.
        rewrite decide_False by done. rewrite denyResult_body. eauto 8.
      + rewrite decide_False by lia. rewrite decide_False by lia.
        rewrite Hb, Herr. rewrite decide_False by done.
        rewrite denyResult_body. eauto 8.
    - intros _. rewrite decide_False by done. rewrite denyResult_body. eauto 8. }
  exists text, o, lg, st'. simpl. rewrite Hstep in *. simpl in Hs.
  split; [done|]. split; [done|]. rewrite Hs, length_app. simpl. lia.
Qed.

(** X22: the state is threaded through the chain: the bytes the k-th hook
    is given are the encoding of the envelope with its tool input replaced by
    the accumulated state, and that state is the tool input of the envelope
    with the updatedInput of the calls before the k-th merged into it, one
    after the other. *)
Theorem hook_input_carries_accumulated_state (input : Input) (hooks : list HookEntry)
    (r : RunnerState) (auditor : option AuditorState) (k : nat) (c : Call) :
  runner_calls (Run input hooks r auditor) !! k = Some c ->
  Encode (WithToolInput input
            (foldl merged (ToolInput input)
                   (take k (runner_calls (Run input hooks r auditor)))))
  = Ok (call_input c).
Proof.
  rewrite Run_calls. intros Hc.
  destruct (loop_call_at lib runner_Run input hooks 0 (initial input r) k c Hc)
    as (st_k & h & bytes & Hh & Hpre & Hlen & Hin & -> & Hloop).
  destruct (loop_contribution lib runner_Run input (take k hooks) 0 _ _ Hpre)
    as (cs & Hcs & _ & _ & Hacc).
  simpl in Hcs, Hacc, Hlen.
  assert (take k (calls (state_of (loop input 0 hooks (initial input r)))) = cs) as ->.
  { rewrite Hloop. pose proof (step_calls lib runner_Run input (0 + Z.of_nat k) h st_k) as Hs.
    fold (stdin_of input st_k) in Hs. rewrite Hin in Hs.
    destruct (pipeline.step lib runner_Run input (0 + Z.of_nat k) h st_k) as [st1| |];
      simpl in Hs.
    - destruct (loop_calls_prefix lib runner_Run input (drop (S k) hooks)
                  (0 + Z.of_nat k + 1) st1) as [more ->].
      rewrite Hs, Hcs, <- !app_assoc. rewrite Hcs in Hlen.
      by rewrite take_app_length' by done.
    - simpl. rewrite Hs, Hcs. rewrite Hcs in Hlen. by rewrite take_app_length' by done.
    - simpl. rewrite Hs, Hcs. rewrite Hcs in Hlen. by rewrite take_app_length' by done. }
  unfold EngineFacts.stdin_of in Hin. by rewrite <- Hacc.
Qed.

End Invariants.

Import doubles.

(** TestExit2AlwaysDenies *)
Lemma Run_exit_code_witness :
  exists text,
    returned (run (makeInput (JObj [("command", JStr "ls")]))
                  [hookEntry "guard" ""; hookEntry "next" ""]
                  [exits 2 "blocked"] None)
    = Done {| ExitCode := 2; Output := decision_body "PreToolUse" "deny" text |}.
Proof.
  destruct (returned (run (makeInput (JObj [("command", JStr "ls")]))
                          [hookEntry "guard" ""; hookEntry "next" ""]
                          [exits 2 "blocked"] None)) as [res|msg] eqn:E;
    [|vm_compute in E; discriminate E].
  destruct (Run_exit_code_is_0_or_2 plain_lib mockRunner_Run mockAuditor_RecordChain
              _ _ _ _ res E) as [H|[H [text Ht]]].
  - vm_compute in E. injection E as <-. discriminate H.
  - exists text. destruct res as [code out]. simpl in H, Ht. by subst.
Defined.

(** A chain of three hooks that ends at the second, with an auditor. *)
Definition stopped_run : Execution :=
  run (makeInput (JObj [("command", JStr "ls")]))
      [hookEntry "first" ""; hookEntry "second" ""; hookEntry "third" ""]
      [exits 0 ""; exits 3 "broken"]
      (Some {| entries := []; err := None |}).

Lemma audit_outcome_witness :
  exists entry,
    audit_records stopped_run = [entry]
    /\ audit.Outcome entry = "deny"
    /\ audit.ChainLen entry = 3
    /\ audit.ToolName entry = "Bash".
Proof.
  destruct (returned stopped_run) as [res|msg] eqn:E; [|vm_compute in E; discriminate E].
  destruct (audit_outcome_matches_result plain_lib mockRunner_Run mockAuditor_RecordChain
              _ _ _ _ res E) as (entry & Hrec & Hout & _ & Htool & _ & Hlen & _).
  exists entry. split; [exact Hrec|]. split; [|split; [exact Hlen|exact Htool]].
  vm_compute in Hrec. injection Hrec as <-. reflexivity.
Defined.

Lemma audit_lists_witness :
  exists entry first second,
    audit_records stopped_run = [entry]
    /\ audit.Hooks entry = [first; second]
    /\ length (runner_calls stopped_run) = 2%nat
    /\ audit.HookIndex second = 1
    /\ audit.HookName second = "second"
    /\ audit.ExitCode second = 3.
Proof.
  destruct (returned stopped_run) as [res|msg] eqn:E; [|vm_compute in E; discriminate E].
  destruct (audit_lists_every_call plain_lib mockRunner_Run mockAuditor_RecordChain
              _ _ _ _ res E) as (entry & Hrec & Hlen & Hall).
  change (pipeline.Run _ _ _ _ _ _ _) with stopped_run in Hrec, Hlen, Hall.
  destruct (runner_calls stopped_run) as [|c1 [|c2 [|c3 cs]]] eqn:Ec;
    try (vm_compute in Ec; discriminate Ec).
  destruct (Hall 1%nat c2 eq_refl) as (hr & Hhr & Hi & Hn & Hx & _).
  destruct (audit.Hooks entry) as [|first [|second [|third more]]] eqn:Eh;
    try discriminate Hlen.
  simpl in Hhr. injection Hhr as ->.
  exists entry, first, hr. split; [exact Hrec|]. split; [exact Eh|].
  split; [reflexivity|]. split; [exact Hi|].
  vm_compute in Ec. injection Ec as _ <-. split; [exact Hn|exact Hx].
Defined.

Lemma calls_follow_witness :
  List.map call_hook (runner_calls stopped_run)
  `prefix_of` [hookEntry "first" ""; hookEntry "second" ""; hookEntry "third" ""].
Proof.
  apply (calls_follow_the_chain plain_lib mockRunner_Run mockAuditor_RecordChain).
Defined.

(** TestSingleHookPassthrough, with two hooks. *)
Lemma passing_chain_witness :
  returned (run (makeInput (JObj [("command", JStr "ls")]))
                [hookEntry "a" ""; hookEntry "b" "skip"] [exits 0 ""; exits 0 ""] None)
  = Done {| ExitCode := 0; Output := Nil |}.
Proof.
  destruct (Encode (WithToolInput (makeInput (JObj [("command", JStr "ls")]))
                      (ToolInput (makeInput (JObj [("command", JStr "ls")])))))
    as [bytes|e] eqn:E; [|vm_compute in E; discriminate E].
  destruct (passing_chain_is_passthrough plain_lib mockRunner_Run mockAuditor_RecordChain
              (makeInput (JObj [("command", JStr "ls")]))
              [hookEntry "a" ""; hookEntry "b" "skip"]
              (mock [exits 0 ""; exits 0 ""]) None bytes E) as (H & _ & _);
    [|exact H].
  intros c Hc.
  remember (runner_calls
              (pipeline.Run plain_lib mockRunner_Run mockAuditor_RecordChain
                 (makeInput (JObj [("command", JStr "ls")]))
                 [hookEntry "a" ""; hookEntry "b" "skip"]
                 (mock [exits 0 ""; exits 0 ""]) None)) as cs eqn:Ecs.
  vm_compute in Ecs. subst cs.
  rewrite !elem_of_cons in Hc. destruct Hc as [->|[->|Hc]].
  - vm_compute. split; reflexivity.
  - vm_compute. split; reflexivity.
  - apply elem_of_nil in Hc. destruct Hc.
Defined.

(** TestOnErrorDeny, with a policy that is misspelt. *)
Lemma other_policies_witness :
  exists text outcome logged st',
    pipeline.loop plain_lib mockRunner_Run
      (makeInput (JObj [("command", JStr "ls")])) 0
      [hookEntry "flaky" "Skip"; hookEntry "next" ""]
      (initial (makeInput (JObj [("command", JStr "ls")])) (mock [exits 1 "crash"]))
    = Return {| ExitCode := 2; Output := decision_body "PreToolUse" "deny" text |}
             outcome logged st'.
Proof.
  destruct (stdin_of (makeInput (JObj [("command", JStr "ls")]))
              (initial (makeInput (JObj [("command", JStr "ls")]))
                       (mock [exits 1 "crash"]))) as [bytes|e] eqn:E;
    [|vm_compute in E; discriminate E].
  destruct (other_policies_deny plain_lib mockRunner_Run
              (makeInput (JObj [("command", JStr "ls")])) 0
              (hookEntry "flaky" "Skip") [hookEntry "next" ""]
              (initial (makeInput (JObj [("command", JStr "ls")]))
                       (mock [exits 1 "crash"])) bytes)
    as (text & o & lg & st' & H & _).
  - discriminate.
  - exact E.
  - left. split; discriminate.
  - exists text, o, lg, st'. exact H.
Defined.

(** TestTwoHooksMerge: the second hook is given the command as the first
    hook changed it. *)
Lemma hook_input_witness :
  exists c out,
    runner_calls (run (makeInput (JObj [("command", JStr "original")]))
                      [hookEntry "a" ""; hookEntry "b" ""]
                      [writes (hookSpecific
                                 [("updatedInput", JObj [("command", JStr "modified")])]);
                       exits 0 ""] None) !! 1%nat = Some c
    /\ call_input c = Doc (JObj out)
    /\ lookup_last "tool_input" out = Some (JObj [("command", JStr "modified")]).
Proof.
  destruct (runner_calls (run (makeInput (JObj [("command", JStr "original")]))
                      [hookEntry "a" ""; hookEntry "b" ""]
                      [writes (hookSpecific
                                 [("updatedInput", JObj [("command", JStr "modified")])]);
                       exits 0 ""] None) !! 1%nat) as [c|] eqn:Ec;
    [|vm_compute in Ec; discriminate Ec].
  pose proof (hook_input_carries_accumulated_state plain_lib mockRunner_Run
                mockAuditor_RecordChain _ _ _ _ _ _ Ec) as H.
  vm_compute in H. injection H as H.
  exists c. eexists. split; [reflexivity|]. split; [symmetry; exact H|].
  vm_compute. reflexivity.
Defined.

End EngineInvariants.

(** ** The command line *)

Module CliFacts.

Import hook config pipeline cli StringFacts ResolverFacts EngineFacts EngineInvariants.

Lemma wrap64_small (z : Z) : - 2 ^ 63 <= z < 2 ^ 63 -> wrap64 z = z.
Proof. unfold wrap64. intros H. rewrite Z.mod_small; lia. Qed.

Lemma wrap64_above (z : Z) :
  2 ^ 63 <= z < 2 ^ 63 + 2 ^ 64 -> wrap64 z = z - 2 ^ 64.
Proof.
  unfold wrap64. intros H.
  replace (z + 2 ^ 63) with (z + 2 ^ 63 - 2 ^ 64 + 1 * 2 ^ 64) by lia.
  rewrite Z.mod_add by lia. rewrite Z.mod_small; lia.
Qed.

Lemma CutSuffix_append (t suffix : string) : CutSuffix (t +:+ suffix) suffix = Some t.
Proof.
  unfold CutSuffix. rewrite length_append.
  replace (String.length t + String.length suffix - String.length suffix)%nat
    with (String.length t) by lia.
  destruct (substring_append t suffix) as [-> ->].
  rewrite String.eqb_refl.
  by replace (String.length suffix <=? String.length t + String.length suffix)%nat
    with true by (symmetry; apply Nat.leb_le; lia).
Qed.

Lemma CutSuffix_other (t : string) (c c' : ascii) :
  c <> c' ->
  CutSuffix (t +:+ String c EmptyString) (String c' EmptyString) = None.
Proof.
  intros Hc. unfold CutSuffix. rewrite length_append. simpl String.length.
  replace (String.length t + 1 - 1)%nat with (String.length t) by lia.
  destruct (substring_append t (String c EmptyString)) as [E _]. simpl String.length in E.
  rewrite E.
  replace (String c EmptyString =? String c' EmptyString)%string with false.
  - by rewrite andb_false_r.
  - symmetry. apply String.eqb_neq. congruence.
Qed.

Lemma digit_pretty_N_char (x : N) :
  (x < 10)%N -> digit (pretty_N_char x) = Some (Z.of_N x).
Proof.
  intros H. destruct x as [|p]; [done|].
  do 4 (destruct p as [p|p|]; try done; try lia).
Qed.

(** The digits stdpp writes for a number are read back as the number. *)
Lemma digits_pretty_N_go (x : N) (s : string) :
  digits 0 (pretty_N_go x s) = digits (Z.of_N x) s.
Proof.
  revert s. induction (N.lt_wf_0 x) as [x _ IH]; intros s.
  destruct (decide (x = 0%N)) as [->|Hx]; [by rewrite pretty_N_go_0|].
  rewrite pretty_N_go_step by lia.
  rewrite IH by (apply N.div_lt; lia).
  simpl. rewrite digit_pretty_N_char by (apply N.mod_lt; lia).
  f_equal. rewrite (N.div_mod x 10) at 3 by lia. lia.
Qed.

Lemma digit_not_sign (c : ascii) (d : Z) :
  digit c = Some d -> c <> "-"%char /\ c <> "+"%char.
Proof. intros H. split; intros ->; vm_compute in H; discriminate H. Qed.

Section Durations.

Context (lib : GoLib).

Lemma Atoi_digits (body : string) (n : Z) :
  digits 0 body = Some n -> n <> 0 ->
  (- 2 ^ 63 <= n < 2 ^ 63 -> Atoi lib body = Ok n)
  /\ (- 2 ^ 63 <= - n < 2 ^ 63 -> Atoi lib (String "-" body) = Ok (- n)).
Proof.
  intros Hd Hn. destruct body as [|c rest]; [simpl in Hd; congruence|].
  assert (exists d, digit c = Some d) as [d Hc].
  { simpl in Hd. destruct (digit c); [eauto|discriminate]. }
  apply digit_not_sign in Hc as [Hm Hp].
  split; intros Hr; unfold Atoi.
  - rewrite !bool_decide_eq_false_2 by done. simpl orb. cbv iota. rewrite Hd.
    by replace ((- 2 ^ 63 <=? n) && (n <? 2 ^ 63)) with true
      by (symmetry; apply andb_true_iff; split; [apply Z.leb_le|apply Z.ltb_lt]; lia).
  - rewrite !bool_decide_eq_true_2 by done. simpl orb. cbv iota. rewrite Hd.
    by replace ((- 2 ^ 63 <=? - n) && (- n <? 2 ^ 63)) with true
      by (symmetry; apply andb_true_iff; split; [apply Z.leb_le|apply Z.ltb_lt]; lia).
Qed.

(** strconv.Atoi reads the decimal text of an int64 as that number. *)
Lemma Atoi_pretty (n : Z) : - 2 ^ 63 <= n < 2 ^ 63 -> Atoi lib (pretty n) = Ok n.
Proof.
  intros Hr. destruct n as [|p|p].
  - reflexivity.
  - assert (digits 0 (pretty_N_go (N.pos p) EmptyString) = Some (Z.pos p)) as Hd
      by (by rewrite digits_pretty_N_go).
    by apply (Atoi_digits _ (Z.pos p)) in Hd as [H _]; [apply H|].
  - assert (digits 0 (pretty_N_go (N.pos p) EmptyString) = Some (Z.pos p)) as Hd
      by (by rewrite digits_pretty_N_go).
    by apply (Atoi_digits _ (Z.pos p)) in Hd as [_ H]; [apply H|].
Qed.

Context (TrimSpace : string -> string).
Context (ParseDuration : string -> res Z).

Abbreviation parseDuration := (cli.parseDuration lib TrimSpace ParseDuration).

Lemma days_text (t : string) : t +:+ "d" <> EmptyString.
Proof. by destruct t. Qed.

Lemma parseDuration_days_of (s : string) (n : Z) :
  TrimSpace s = pretty n +:+ "d" -> - 2 ^ 63 <= n < 2 ^ 63 ->
  parseDuration s = Ok (wrap64 (wrap64 (n * 24) * Hour)).
Proof.
  intros Hs Hn. unfold cli.parseDuration. rewrite Hs.
  rewrite decide_False by apply days_text.
  by rewrite CutSuffix_append, Atoi_pretty.
Qed.

(** X23: parseDuration reads the decimal text of a number n followed by d
    as n days, in nanoseconds, for every n from -106751 to 106751: as far as
    a time.Duration reaches. *)
Theorem parseDuration_days (s : string) (n : Z) :
  TrimSpace s = pretty n +:+ "d" ->
  - 106751 <= n <= 106751 ->
  parseDuration s = Ok (n * 24 * 3600 * 1000000000).
Proof.
  intros Hs Hn. rewrite (parseDuration_days_of s n Hs) by lia.
  unfold Hour. rewrite (wrap64_small (n * 24)) by lia.
  rewrite wrap64_small by lia. f_equal. lia.
Qed.

(** X24: beyond that parseDuration does not fail: from 106752 to 213503
    days the multiplication overflows the int64 of time.Duration, and the
    result is a negative duration, 2^64 nanoseconds below the days asked
    for, returned without an error. *)
Theorem parseDuration_days_overflow (s : string) (n : Z) :
  TrimSpace s = pretty n +:+ "d" ->
  106752 <= n <= 213503 ->
  exists d, parseDuration s = Ok d
            /\ d = n * 24 * 3600 * 1000000000 - 2 ^ 64
            /\ d < 0.
Proof.
  intros Hs Hn. rewrite (parseDuration_days_of s n Hs) by lia.
  unfold Hour. rewrite (wrap64_small (n * 24)) by lia.
  rewrite wrap64_above by lia. eexists. split; [done|]. lia.
Qed.

(** X25: parseDuration reads the decimal text of a number n followed by h
    as n hours, for every n from -2562047 to 2562047, without handing the
    text to time.ParseDuration. *)
Theorem parseDuration_hours (s : string) (n : Z) :
  TrimSpace s = pretty n +:+ "h" ->
  - 2562047 <= n <= 2562047 ->
  parseDuration s = Ok (n * 3600 * 1000000000).
Proof.
  intros Hs Hn. unfold cli.parseDuration. rewrite Hs.
  rewrite decide_False by (by destruct (pretty n)).
  rewrite CutSuffix_other by done.
  rewrite CutSuffix_append, Atoi_pretty by lia.
  unfold Hour. rewrite wrap64_small by lia. f_equal. lia.
Qed.

End Durations.

Section Root.

Context (lib : GoLib) {RunnerState AuditorState : Type}.
Context (runner_Run : RunnerState -> HookEntry -> RawMessage ->
                      RunnerState * res runner.Result).
Context (RecordChain : AuditorState -> audit.ChainExecution ->
                       AuditorState * option error).

Abbreviation Run := (pipeline.Run lib runner_Run RecordChain).
Abbreviation runRoot := (cli.runRoot lib runner_Run RecordChain).
Abbreviation Execute := (cli.Execute lib runner_Run RecordChain).
Abbreviation Host := (@cli.Host RunnerState AuditorState).
Abbreviation Ran := (@cli.Ran RunnerState AuditorState).




(** X27: the command fails closed.  When standard input cannot be read,
    or holds bytes that do not decode as a hook input, the process writes a
    deny decision with a reason to standard output and ends with exit code
    2, before the configuration is loaded and without running a hook. *)
Theorem unreadable_input_is_denied (host : Host) :
  (exists err, Stdin host = Err err)
  \/ (exists data err,
        Stdin host = Ok data /\ len_zero data = false /\ Decode data = Err err) ->
  exists reason,
    reason <> EmptyString
    /\ runRoot host
       = Done {| exit_error := Some 2;
                 Stdout_written :=
                   Doc (JObj [("hookSpecificOutput",
                               JObj [("permissionDecision", JStr "deny");
                                     ("permissionDecisionReason", JStr reason)])]);
                 pipeline_Run := None |}
    /\ Execute host = Done 2.
Proof.
  unfold cli.Execute, cli.runRoot.
  intros [[err ->]|(data & err & -> & -> & ->)].
  - by exists "hook-chain: failed to read stdin".
  - by exists "hook-chain: failed to parse hook input".
Qed.

Lemma Resolve_nothing (cfg : Config) (eventName toolName : string) :
  Forall (fun chain => ~ chain_for eventName toolName chain) (Chains cfg) ->
  Resolve cfg eventName toolName = [].
Proof.
  intros H. unfold Resolve.
  rewrite <- (app_nil_r (Chains cfg)). by rewrite (resolve_skips _ _ _ [] H).
Qed.

(** X28: an event no chain of the configuration is for passes through:
    the process ends with exit code 0, writes nothing to standard output,
    and pipeline.Run is not called, so that no hook runs and nothing is
    recorded. *)
Theorem unmatched_event_passes_through (host : Host) (data : RawMessage)
    (input : Input) (cfg : Config) :
  Stdin host = Ok data ->
  Decode data = Ok input ->
  config_Load host = Ok cfg ->
  Forall (fun chain => ~ chain_for (HookEventName input) (ToolName input) chain)
         (Chains cfg) ->
  runRoot host
  = Done {| exit_error := None; Stdout_written := Nil; pipeline_Run := None |}
  /\ Execute host = Done 0.
Proof.
  intros Hin Hdec Hcfg Hno. unfold cli.Execute, cli.runRoot.
  rewrite Hin. destruct (len_zero data); [done|].
  rewrite Hdec, Hcfg. by rewrite (Resolve_nothing _ _ _ Hno).
Qed.

(** X29: the audit store has no part in the decision.  Two runs of the
    command on the same standard input, configuration and Runner end with
    the same exit code, write the same bytes to standard output and call the
    same hooks with the same input, whatever HOOK_CHAIN_AUDIT says, wherever
    the database is, and whether or not it opens. *)
Theorem audit_store_never_changes_the_decision (host1 host2 : Host) :
  Stdin host1 = Stdin host2 ->
  config_Load host1 = config_Load host2 ->
  ProcessRunner host1 = ProcessRunner host2 ->
  Execute host1 = Execute host2
  /\ forall ran1 ran2,
       runRoot host1 = Done ran1 -> runRoot host2 = Done ran2 ->
       exit_error ran1 = exit_error ran2
       /\ Stdout_written ran1 = Stdout_written ran2
       /\ option_map runner_calls (pipeline_Run ran1)
          = option_map runner_calls (pipeline_Run ran2).
Proof.
  intros Hin Hcfg Hr. unfold cli.Execute, cli.runRoot. rewrite <- Hin, <- Hcfg, <- Hr.
  destruct (Stdin host1) as [data|err]; [|split; [done|by intros ?? [= <-] [= <-]]].
  destruct (len_zero data); [split; [done|by intros ?? [= <-] [= <-]]|].
  destruct (Decode data) as [input|err]; [|split; [done|by intros ?? [= <-] [= <-]]].
  destruct (config_Load host1) as [cfg|err]; [|split; [done|by intros ?? [= <-] [= <-]]].
  destruct (decide (length _ = 0%nat)); [split; [done|by intros ?? [= <-] [= <-]]|].
  rewrite !Run_returned.
  destruct (pipeline.loop _ _ _ _ _ _) as [st|res o rs st|msg st]; [| |done].
  - split; [done|]. intros ?? [= <-] [= <-]. simpl. by rewrite !Run_calls.
  - split; [done|]. intros ?? [= <-] [= <-]. simpl. by rewrite !Run_calls.
Qed.

End Root.

Lemma parseDuration_days_witness :
  cli.parseDuration doubles.plain_lib (fun s => s) (fun _ => Err (Failure "unused")) "7d"
  = Ok 604800000000000.
Proof.
  apply (parseDuration_days doubles.plain_lib (fun s => s)
           (fun _ => Err (Failure "unused")) "7d" 7); [reflexivity|lia].
Defined.

Lemma parseDuration_days_overflow_witness :
  exists d,
    cli.parseDuration doubles.plain_lib (fun s => s) (fun _ => Err (Failure "unused"))
                      "106752d" = Ok d
    /\ d = 106752 * 24 * 3600 * 1000000000 - 2 ^ 64
    /\ d < 0.
Proof.
  apply (parseDuration_days_overflow doubles.plain_lib (fun s => s)
           (fun _ => Err (Failure "unused")) "106752d" 106752); [reflexivity|lia].
Defined.

Lemma parseDuration_hours_witness :
  cli.parseDuration doubles.plain_lib (fun s => s) (fun _ => Err (Failure "unused")) "-48h"
  = Ok (-172800000000000).
Proof.
  apply (parseDuration_hours doubles.plain_lib (fun s => s)
           (fun _ => Err (Failure "unused")) "-48h" (-48)); [reflexivity|lia].
Defined.

(** A host for the doubles: standard input and the configuration as given,
    an audit store that opens empty, and a Runner that answers with [rs]. *)
Definition host_of (stdin : res RawMessage) (cfg : res Config) (HOOK_CHAIN_AUDIT : string)
    (rs : list (res runner.Result)) : @cli.Host doubles.mockRunner doubles.mockAuditor :=
  {| Stdin := stdin;
     config_Load := cfg;
     cli.HOOK_CHAIN_AUDIT := HOOK_CHAIN_AUDIT;
     DefaultDBPath := "audit.db";
     audit_Open := fun _ => Ok {| doubles.entries := []; doubles.err := None |};
     ProcessRunner := doubles.mock rs |}.

(** The bytes of a PreToolUse event for the tool [tool]. *)
Definition event_for (tool : string) : RawMessage :=
  Doc (JObj [("hook_event_name", JStr "PreToolUse");
             ("tool_name", JStr tool);
             ("tool_input", JObj [("command", JStr "ls")])]).

(** One chain, for PreToolUse of Bash, of one hook. *)
Definition bash_config : Config :=
  {| Chains := [{| Event := "PreToolUse"; Tools := ["Bash"];
                   Hooks := [doubles.hookEntry "guard" "deny"] |}];
     Audit := None |}.

Definition run_root :=
  cli.runRoot doubles.plain_lib doubles.mockRunner_Run doubles.mockAuditor_RecordChain.

Definition execute :=
  cli.Execute doubles.plain_lib doubles.mockRunner_Run doubles.mockAuditor_RecordChain.

(** The guard exits with code 2: the command ends with exit code 2. *)
Definition denying_host : cli.Host :=
  host_of (Ok (event_for "Bash")) (Ok bash_config) "1" [doubles.exits 2 "blocked"].


Lemma unreadable_input_witness :
  exists reason,
    reason <> EmptyString
    /\ run_root (host_of (Ok (Malformed "not json")) (Ok bash_config) "1" [])
       = Done {| exit_error := Some 2;
                 Stdout_written :=
                   Doc (JObj [("hookSpecificOutput",
                               JObj [("permissionDecision", JStr "deny");
                                     ("permissionDecisionReason", JStr reason)])]);
                 pipeline_Run := None |}
    /\ execute (host_of (Ok (Malformed "not json")) (Ok bash_config) "1" []) = Done 2.
Proof.
  apply (unreadable_input_is_denied doubles.plain_lib doubles.mockRunner_Run
           doubles.mockAuditor_RecordChain).
  right. eexists _, _. repeat split; vm_compute; reflexivity.
Defined.

Lemma unmatched_event_witness :
  run_root (host_of (Ok (event_for "Read")) (Ok bash_config) "1" [doubles.exits 2 "blocked"])
  = Done {| exit_error := None; Stdout_written := Nil; pipeline_Run := None |}
  /\ execute (host_of (Ok (event_for "Read")) (Ok bash_config) "1"
                      [doubles.exits 2 "blocked"]) = Done 0.
Proof.
  apply (unmatched_event_passes_through doubles.plain_lib doubles.mockRunner_Run
           doubles.mockAuditor_RecordChain _ (event_for "Read")
           (match Decode (event_for "Read") with Ok i => i | Err _ => zero_Input end)
           bash_config).
  - reflexivity.
  - vm_compute. reflexivity.
  - reflexivity.
  - apply Forall_cons_2; [|apply Forall_nil_2].
    intros [_ H].
    match type of H with
    | ?t ∈ _ => assert (t = "Read") as E by (vm_compute; reflexivity); rewrite E in H
    end.
    change (Tools _) with ["Bash"] in H.
    rewrite elem_of_cons in H. destruct H as [H|H]; [discriminate H|].
    rewrite elem_of_nil in H. destruct H.
Defined.

Lemma audit_store_witness :
  execute (host_of (Ok (event_for "Bash")) (Ok bash_config) "0" [doubles.exits 2 "blocked"])
  = execute denying_host.
Proof.
  apply (audit_store_never_changes_the_decision doubles.plain_lib doubles.mockRunner_Run
           doubles.mockAuditor_RecordChain
           (host_of (Ok (event_for "Bash")) (Ok bash_config) "0" [doubles.exits 2 "blocked"])
           denying_host); reflexivity.
Defined.

End CliFacts.
